(** * vee-validate core: ErrorBag and Validator

    A shallow embedding of [src/core/errorBag.js] and [src/core/validator.js].

    - JavaScript strings are [string]s of code units below 256.
    - Error objects live in an object store and the bag holds references to
      them, because [update] and [regenerate] mutate the objects in place.
    - A promise is represented by the way it settles; a [then] callback runs
      when its promise is fulfilled, so the effects of a call are the effects
      it has once every callback it registered has run.
    - A rejection carries its moment: 0 for a promise that is rejected when
      it is made ([Promise.reject]), and one more than the moment of the
      promise it comes from for the promise that [then] or [Promise.all]
      makes, which is rejected only when the job of its reaction has run.
      [Promise.all] rejects with the rejection that is there first: the one
      of the least moment, and among those of the same moment the first of
      the array, which is the order in which the jobs of promises rejected
      together are queued.
    - A validate function returns a boolean, an object [{ valid, data }], or
      a promise that is fulfilled with one of these or with an array of
      them, or is rejected.  A rule that throws, or returns anything else,
      is outside the model: what is stated about the outcome of a
      validation is stated for rules that return in one of these ways.
    - Exceptions are results [Throw e]; the state reached before a throw is
      kept.
    - Objects used as maps ([RULES], [field.rules]) have no key that is
      also a property of [Object.prototype]. *)

From Stdlib Require Import String Ascii ZArith NArith List Bool Lia.
From stdpp Require Import base option list strings gmap pretty.
Import ListNotations.

Open Scope string_scope.
Open Scope list_scope.

(** ** JavaScript values *)

Inductive JsValue : Type :=
| VUndefined
| VNull
| VBool (b : bool)
| VNum (n : Z)
| VStr (s : string).

(** A plain data object, keys in creation order; [[]] is the literal [{}]. *)
Definition Data : Type := list (string * JsValue).

(** Modelled from the spec: utils.js is not among the sources;
    [isNullOrUndefined] holds of null and of undefined (a missing scope is
    "null or undefined"). *)
Definition isNullOrUndefined (v : JsValue) : bool :=
  match v with VUndefined | VNull => true | _ => false end.

Definition truthy (v : JsValue) : bool :=
  match v with
  | VUndefined | VNull => false
  | VBool b => b
  | VNum n => negb (n =? 0)%Z
  | VStr s => negb (String.eqb s EmptyString)
  end.

(** [String(v)], also the conversion done by a template literal. *)
Definition to_string (v : JsValue) : string :=
  match v with
  | VUndefined => "undefined"
  | VNull => "null"
  | VBool true => "true"
  | VBool false => "false"
  | VNum n => pretty n
  | VStr s => s
  end.

(** [v === '']. *)
Definition is_empty_string (v : JsValue) : bool :=
  match v with VStr s => String.eqb s EmptyString | _ => false end.

(** Template-literal rendering of a possibly undefined string. *)
Definition show_opt (o : option string) : string :=
  match o with Some s => s | None => "undefined" end.

Definition opt_eqb (a b : option string) : bool :=
  match a, b with
  | Some x, Some y => String.eqb x y
  | None, None => true
  | _, _ => false
  end.

(** ** Exceptions, results and promises *)

Inductive Exn : Type :=
| TypeError (m : string)
| ReferenceError (m : string)
| Error (m : string).   (* what utils.createError builds *)

Inductive result (A : Type) : Type :=
| Ok (a : A)
| Throw (e : Exn).
Arguments Ok {A} a.
Arguments Throw {A} e.

Inductive Promise (A : Type) : Type :=
| Resolved (a : A)
| Rejected (moment : nat) (e : Exn).
Arguments Resolved {A} a.
Arguments Rejected {A} moment e.

(** ** The dictionary collaborator *)

Record Dictionary : Type := mkDictionary {
  locale : string;
  getFieldMessage : string -> string -> string -> JsValue -> list JsValue -> Data -> string;
  getAttribute : string -> JsValue -> JsValue -> JsValue;
  getDateFormat : string -> JsValue
}.

(** ** Character classes and the two regular expressions *)

Definition char_between (lo hi : N) (c : ascii) : bool :=
  ((lo <=? N_of_ascii c) && (N_of_ascii c <=? hi))%N.

(** [\w] *)
Definition is_word_char (c : ascii) : bool :=
  char_between 48 57 c || char_between 65 90 c || char_between 97 122 c
  || (N_of_ascii c =? 95)%N.

(** [[\w-]] *)
Definition is_scope_char (c : ascii) : bool :=
  is_word_char c || (N_of_ascii c =? 45)%N.

(** [[\w-.]] *)
Definition is_name_char (c : ascii) : bool :=
  is_scope_char c || (N_of_ascii c =? 46)%N.

(** [.] of a regular expression without the [s] flag: no line terminator. *)
Definition is_dot_char (c : ascii) : bool :=
  negb ((N_of_ascii c =? 10)%N || (N_of_ascii c =? 13)%N).

(** Longest prefix of [s] whose characters satisfy [p], and the rest. *)
Fixpoint span (p : ascii -> bool) (s : string) : string * string :=
  match s with
  | EmptyString => (EmptyString, EmptyString)
  | String c r =>
      if p c then let '(a, b) := span p r in (String c a, b)
      else (EmptyString, s)
  end.

(** The suffix of [s] starting at its first character satisfying [p]. *)
Fixpoint seek (p : ascii -> bool) (s : string) : option string :=
  match s with
  | EmptyString => None
  | String c r => if p c then Some s else seek p r
  end.

Definition head_is (p : ascii -> bool) (s : string) : bool :=
  match s with String c _ => p c | EmptyString => false end.

Definition dot : ascii := ascii_of_nat 46.
Definition colon : ascii := ascii_of_nat 58.
Definition hash : ascii := ascii_of_nat 35.
Definition star : ascii := ascii_of_nat 42.

(** Group 3 of the selector expression, [(:\w+)?], tried at [s]. *)
Definition rule_group (s : string) : option string :=
  match s with
  | String c r =>
      if Ascii.eqb c colon then
        let '(w, _) := span is_word_char r in
        match w with
        | EmptyString => None
        | _ => Some (String colon w)
        end
      else None
  | EmptyString => None
  end.

(** [selector.match(/((?:[\w-])+\.)?((?:[\w-.])+)(:\w+)?/)]: the three
    capture groups of the leftmost match, [None] when nothing matches.

    The match starts at the first character of class [[\w-.]].  Group 1 takes
    part only if the longest run of [[\w-]] there is non-empty, is followed by
    a dot, and leaves at least one character for group 2; otherwise the
    matcher backtracks and group 2 starts at the same place. *)
Definition selector_groups (selector : string)
  : option (option string * string * option string) :=
  match seek is_name_char selector with
  | None => None
  | Some s =>
      let '(run, rest) := span is_scope_char s in
      let with_scope :=
        match run, rest with
        | String _ _, String c rest' =>
            if Ascii.eqb c dot && head_is is_name_char rest'
            then Some (run +:+ String dot EmptyString, rest')
            else None
        | _, _ => None
        end in
      match with_scope with
      | Some (sc, rest') =>
          let '(nm, tl) := span is_name_char rest' in
          Some (Some sc, nm, rule_group tl)
      | None =>
          let '(nm, tl) := span is_name_char s in
          Some (None, nm, rule_group tl)
      end
  end.

(** [s.replace(c, '')] for a one-character pattern: drops the first [c]. *)
Fixpoint replace_first (c : ascii) (s : string) : string :=
  match s with
  | EmptyString => EmptyString
  | String d r => if Ascii.eqb c d then r else String d (replace_first c r)
  end.

Definition startsWith_hash (s : string) : bool := head_is (Ascii.eqb hash) s.

(** [s.slice(1)] *)
Definition slice1 (s : string) : string :=
  match s with String _ r => r | EmptyString => EmptyString end.

(** [s.startsWith(p)] *)
Definition startsWith (s p : string) : bool := String.prefix p s.

(** ** A state and exception monad *)

Definition M (S A : Type) : Type := S -> result A * S.

Definition ret {S A : Type} (a : A) : M S A := fun s => (Ok a, s).

Definition bind {S A B : Type} (m : M S A) (k : A -> M S B) : M S B :=
  fun s =>
    match m s with
    | (Ok a, s') => k a s'
    | (Throw e, s') => (Throw e, s')
    end.

Definition throw {S A : Type} (e : Exn) : M S A := fun s => (Throw e, s).
Definition gets {S A : Type} (f : S -> A) : M S A := fun s => (Ok (f s), s).
Definition modify {S : Type} (f : S -> S) : M S unit := fun s => (Ok tt, f s).

Notation "'let*' x ':=' m 'in' k" := (bind m (fun x => k))
  (at level 10, x pattern, m at level 100, k at level 200).

(** [l.forEach(f)] *)
Fixpoint forEach {S A : Type} (f : A -> M S unit) (l : list A) : M S unit :=
  match l with
  | [] => ret tt
  | x :: r => let* _ := f x in forEach f r
  end.

(** ** ErrorBag (src/core/errorBag.js) *)

Record FieldError : Type := mkFieldError {
  fe_id : option string;
  fe_vmId : option string;
  fe_field : string;
  fe_msg : string;
  fe_rule : option string;
  fe_scope : option string;      (* [None] is null or undefined *)
  fe_regenerate : option (Dictionary -> string)
    (* [Some g]: a callable, reading the dictionary when it is called;
       [None]: null, undefined, or anything not callable *)
}.

Definition set_msg (m : string) (e : FieldError) : FieldError :=
  mkFieldError (fe_id e) (fe_vmId e) (fe_field e) m (fe_rule e) (fe_scope e)
               (fe_regenerate e).

Definition set_scope (sc : option string) (e : FieldError) : FieldError :=
  mkFieldError (fe_id e) (fe_vmId e) (fe_field e) (fe_msg e) (fe_rule e) sc
               (fe_regenerate e).

(** A reference to an error object. *)
Abbreviation loc := nat (only parsing).

(** The bag's [items] array holds references into [store], the part of the
    heap where error objects live.  A reference outside the store stands for
    an [undefined] array element. *)
Record ErrorBag : Type := mkErrorBag {
  store : list FieldError;
  items : list loc
}.

Definition set_items (its : list loc) (b : ErrorBag) : ErrorBag :=
  mkErrorBag (store b) its.

Definition empty_bag : ErrorBag := mkErrorBag [] [].

(** Every item refers to an object. *)
Definition bag_wf (b : ErrorBag) : Prop :=
  forall l, In l (items b) -> l < length (store b).

Definition cannot_read (prop : string) : Exn :=
  TypeError ("Cannot read properties of undefined (reading '" +:+ prop +:+ "')").

(** Reading a property of [this.items[...]]. *)
Definition deref (prop : string) (l : loc) : M ErrorBag FieldError :=
  fun b =>
    match store b !! l with
    | Some e => (Ok e, b)
    | None => (Throw (cannot_read prop), b)
    end.

(** An object literal: a new object in the store. *)
Definition alloc (e : FieldError) : M ErrorBag loc :=
  fun b => (Ok (length (store b)), mkErrorBag (store b ++ [e]) (items b)).

(** Assignment to properties of the object at [l]. *)
Definition assign_obj (prop : string) (l : loc) (f : FieldError -> FieldError)
  : M ErrorBag unit :=
  let* _ := deref prop l in
  modify (fun b => mkErrorBag (alter f l (store b)) (items b)).

(** [this.items.push(...ls)] *)
Definition push (ls : list loc) : M ErrorBag unit :=
  modify (fun b => set_items (items b ++ ls) b).

(** [_normalizeError]: an array or a single error; the scope of each is set
    to null when it is null or undefined, which leaves [fe_scope] as it is. *)
Definition _normalizeError (error : loc + list loc) : M ErrorBag (list loc) :=
  match error with
  | inr es =>
      let* _ := forEach (fun e => assign_obj "scope" e (fun o => set_scope (fe_scope o) o)) es in
      ret es
  | inl e =>
      let* _ := assign_obj "scope" e (fun o => set_scope (fe_scope o) o) in
      ret [e]
  end.

(** The arguments of [add]: one error, an array of errors, or the old
    signature [add(field, msg, rule, scope)]. *)
Inductive AddArgs : Type :=
| AddNew (error : loc + list loc)
| AddOld (field msg : string) (rule scope : option string).

Definition add (args : AddArgs) : M ErrorBag unit :=
  let* error :=
    match args with
    | AddOld field msg rule scope =>
        let* l := alloc (mkFieldError None None field msg rule scope None) in
        ret (inl l)
    | AddNew error => ret error
    end in
  let* es := _normalizeError error in
  push es.

(** [regenerate] *)
Definition regenerate (d : Dictionary) : M ErrorBag unit :=
  let* its := gets items in
  forEach (fun l =>
    let* i := deref "regenerate" l in
    assign_obj "msg" l
      (set_msg (match fe_regenerate i with
                | Some g => g d
                | None => fe_msg i
                end))) its.

(** Modelled from the spec: utils.js is not among the sources; [find]
    gives the first match in insertion order, here over the items: the first
    item whose object satisfies [p]. *)
Fixpoint find_item (prop : string) (p : FieldError -> bool) (its : list loc)
  : M ErrorBag (option loc) :=
  match its with
  | [] => ret None
  | l :: r =>
      let* i := deref prop l in
      if p i then ret (Some l) else find_item prop p r
  end.

(** [arr.indexOf(x)], [None] for -1. *)
Fixpoint indexOf (its : list loc) (x : loc) : option nat :=
  match its with
  | [] => None
  | l :: r => if Nat.eqb l x then Some 0 else S <$> indexOf r x
  end.

(** [arr.splice(idx, 1)]; the index -1 counts from the end. *)
Definition splice1 (idx : option nat) (its : list loc) : list loc :=
  match idx with
  | Some i => delete i its
  | None => removelast its
  end.

(** [update] *)
Definition update (id : string) (scope : option string) : M ErrorBag unit :=
  let* its := gets items in
  let* item := find_item "id" (fun i => opt_eqb (fe_id i) (Some id)) its in
  match item with
  | None => ret tt
  | Some l =>
      let idx := indexOf its l in
      let* _ := modify (fun b => set_items (splice1 idx (items b)) b) in
      let* _ := assign_obj "scope" l (set_scope scope) in
      push [l]
  end.

(** The loop [for (i = 0; i < items.length; ++i) if (p(items[i])) { items.splice(i, 1); --i; }]:
    [kept] are the items already passed over, [rest] those still ahead, so
    the array is [kept ++ rest] at each step and every removal is written
    to the bag before the next test runs. *)
Fixpoint remove_where (p : option FieldError -> result bool) (kept rest : list loc)
  : M ErrorBag unit :=
  match rest with
  | [] => ret tt
  | l :: rest' =>
      let* o := gets (fun b => store b !! l) in
      match p o with
      | Throw e => throw e
      | Ok true =>
          let* _ := modify (set_items (kept ++ rest')) in
          remove_where p kept rest'
      | Ok false => remove_where p (kept ++ [l]) rest'
      end
  end.

(** [arr.filter(p)] with a test that may throw; the bag is not written. *)
Fixpoint filter_items (p : option FieldError -> result bool) (its : list loc)
  : M ErrorBag (list loc) :=
  match its with
  | [] => ret []
  | l :: r =>
      let* o := gets (fun b => store b !! l) in
      match p o with
      | Throw e => throw e
      | Ok keep =>
          let* r' := filter_items p r in
          ret (if keep then l :: r' else r')
      end
  end.

(** A function body that reads a property of its argument. *)
Definition reading (prop : string) (f : FieldError -> bool) (o : option FieldError)
  : result bool :=
  match o with
  | Some e => Ok (f e)
  | None => Throw (cannot_read prop)
  end.

Definition has_id (ids : list string) (e : FieldError) : bool :=
  match fe_id e with
  | Some i => existsb (String.eqb i) ids
  | None => false
  end.

(** [removeById]: an array of ids or a single id. *)
Definition removeById (id : string + list string) : M ErrorBag unit :=
  match id with
  | inr ids =>
      let* its := gets items in
      let* its' := filter_items (reading "id" (fun i => negb (has_id ids i))) its in
      modify (set_items its')
  | inl i =>
      let* its := gets items in
      remove_where (reading "id" (fun e => opt_eqb (fe_id e) (Some i))) [] its
  end.

(** What [_makeCandidateFilters] returns: in the [#] branch a function, else
    an object with the two predicates. *)
Inductive Filters : Type :=
| IdFunction (f : FieldError -> bool)
| Candidates (isPrimary isAlt : FieldError -> bool).

Definition not_iterable : Exn := TypeError "null is not iterable".

(** [_makeCandidateFilters] *)
Definition _makeCandidateFilters (selector : string) : result Filters :=
  match selector_groups selector with
  | None => Throw not_iterable          (* destructuring the result of [match] *)
  | Some (scope, name, rule) =>
      let rule' := replace_first colon <$> rule in
      let matchesRule : FieldError -> bool :=
        match rule' with
        | Some r => fun item => opt_eqb (fe_rule item) (Some r)
        | None => fun _ => true
        end in
      if startsWith_hash selector then
        (* [matchesRule(item) && (item => ...)]: the right operand is a
           function expression, so the value is truthy when the rule matches *)
        Ok (IdFunction (fun item => matchesRule item && true))
      else
        let scope' := replace_first dot <$> scope in
        let matchesScope : FieldError -> bool :=
          match scope' with
          | None => fun item => opt_eqb (fe_scope item) None
          | Some sc => fun item => opt_eqb (fe_scope item) (Some sc)
          end in
        let matchesName : FieldError -> bool :=
          fun item => String.eqb (fe_field item) name in
        let isPrimary := fun item =>
          matchesName item && matchesRule item && matchesScope item in
        let isAlt := fun item =>
          matchesRule item
          && String.eqb (fe_field item) (show_opt scope' +:+ String dot EmptyString +:+ name) in
        Ok (Candidates isPrimary isAlt)
  end.

(** The properties read by [const { isPrimary, isAlt } = ...]. *)
Definition get_isPrimary (f : Filters) : option (FieldError -> bool) :=
  match f with Candidates p _ => Some p | IdFunction _ => None end.

Definition get_isAlt (f : Filters) : option (FieldError -> bool) :=
  match f with Candidates _ a => Some a | IdFunction _ => None end.

(** Calling [f(item)] where [f] was read from such a property. *)
Definition call (name : string) (f : option (FieldError -> bool))
  (o : option FieldError) : result bool :=
  match f with
  | None => Throw (TypeError (name +:+ " is not a function"))
  | Some g => reading "field" g o
  end.

(** [remove] *)
Definition remove (field scope : option string) : M ErrorBag unit :=
  match field with
  | None => ret tt
  | Some f =>
      let selector :=
        match scope with
        | None => f
        | Some sc => sc +:+ String dot EmptyString +:+ f
        end in
      match _makeCandidateFilters selector with
      | Throw e => throw e
      | Ok fs =>
          let* its := gets items in
          remove_where (call "isPrimary" (get_isPrimary fs)) [] its
      end
  end.

(** An element of what [collect] returns: a message or the error itself. *)
Inductive Entry : Type :=
| EMsg (m : string)
| EErr (l : loc).

Inductive Collected : Type :=
| Grouped (g : list (string * list Entry))
| Listed (es : list Entry).

(** [collection[k].push(x)], creating the group when it is missing. *)
Fixpoint group_push (k : string) (x : Entry) (g : list (string * list Entry))
  : list (string * list Entry) :=
  match g with
  | [] => [(k, [x])]
  | (k', xs) :: g' =>
      if String.eqb k k' then (k', xs ++ [x]) :: g'
      else (k', xs) :: group_push k x g'
  end.

(** The names every plain object inherits from [Object.prototype].  The
    [collection] of [collect] is the literal [{}]: under such a name
    [collection[e.field]] is never missing, so no array is made for it, and
    what is there has no [push]. *)
Definition prototype_keys : list string :=
  ["constructor"; "__defineGetter__"; "__defineSetter__"; "hasOwnProperty";
   "__lookupGetter__"; "__lookupSetter__"; "isPrototypeOf"; "propertyIsEnumerable";
   "toString"; "valueOf"; "__proto__"; "toLocaleString"].

Definition is_prototype_key (k : string) : bool := existsb (String.eqb k) prototype_keys.

Fixpoint collect_groups (map : bool) (its : list loc) (g : list (string * list Entry))
  : M ErrorBag (list (string * list Entry)) :=
  match its with
  | [] => ret g
  | l :: r =>
      let* e := deref "field" l in
      if is_prototype_key (fe_field e) then
        throw (TypeError "collection[e.field].push is not a function")
      else
        collect_groups map r
          (group_push (fe_field e) (if map then EMsg (fe_msg e) else EErr l) g)
  end.

Fixpoint collect_matching (isPrimary : option (FieldError -> bool)) (map : bool)
  (its : list loc) (prev : list Entry) : M ErrorBag (list Entry) :=
  match its with
  | [] => ret prev
  | l :: r =>
      let* o := gets (fun b => store b !! l) in
      match call "isPrimary" isPrimary o with
      | Throw e => throw e
      | Ok false => collect_matching isPrimary map r prev
      | Ok true =>
          let* e := deref "msg" l in
          collect_matching isPrimary map r (prev ++ [if map then EMsg (fe_msg e) else EErr l])
      end
  end.

(** [collect]; [field] is falsy when it is absent or the empty string. *)
Definition collect (field scope : option string) (map : bool) : M ErrorBag Collected :=
  match field with
  | None | Some EmptyString =>
      let* its := gets items in
      let* g := collect_groups map its [] in
      ret (Grouped g)
  | Some f =>
      let selector :=
        match scope with
        | None => f
        | Some sc => sc +:+ String dot EmptyString +:+ f
        end in
      match _makeCandidateFilters selector with
      | Throw e => throw e
      | Ok fs =>
          let* its := gets items in
          let* es := collect_matching (get_isPrimary fs) map its [] in
          ret (Listed es)
      end
  end.

(** The accumulator of the reduction in [_match]. *)
Record Prev : Type := mkPrev {
  primary : option loc;
  alt : option loc
}.

(** What the reduction returns: the accumulator object itself (only when the
    array is empty), or the value returned at the last element, an item or
    undefined. *)
Inductive Matched : Type :=
| MatchPrev (prev : Prev)
| MatchValue (item : option loc).

(** [prev.primary || prev.alt] *)
Definition primary_or_alt (prev : Prev) : option loc :=
  match primary prev with
  | Some p => Some p
  | None => alt prev
  end.

Fixpoint match_reduce (isPrimary isAlt : option (FieldError -> bool))
  (its : list loc) (prev : Prev) : M ErrorBag Matched :=
  match its with
  | [] => ret (MatchPrev prev)
  | item :: rest =>
      let isLast := match rest with [] => true | _ :: _ => false end in
      match primary prev with
      | Some p =>
          if isLast then ret (MatchValue (Some p))
          else match_reduce isPrimary isAlt rest prev
      | None =>
          let* o := gets (fun b => store b !! item) in
          match call "isPrimary" isPrimary o with
          | Throw e => throw e
          | Ok isP =>
              let prev1 := if isP then mkPrev (Some item) (alt prev) else prev in
              match call "isAlt" isAlt o with
              | Throw e => throw e
              | Ok isA =>
                  let prev2 := if isA then mkPrev (primary prev1) (Some item) else prev1 in
                  if negb isLast then match_reduce isPrimary isAlt rest prev2
                  else ret (MatchValue (primary_or_alt prev2))
              end
          end
      end
  end.

(** [_match] *)
Definition _match (selector : option string) : M ErrorBag Matched :=
  match selector with
  | None => ret (MatchValue None)
  | Some sel =>
      match _makeCandidateFilters sel with
      | Throw e => throw e
      | Ok fs =>
          let* its := gets items in
          match_reduce (get_isPrimary fs) (get_isAlt fs) its (mkPrev None None)
      end
  end.

(** The selector [first] builds from its arguments. *)
Definition first_selector (field scope : option string) : option string :=
  match scope with
  | None => field
  | Some sc => Some (sc +:+ String dot EmptyString +:+ show_opt field)
  end.

(** [first]: [match && match.msg] *)
Definition first (field scope : option string) : M ErrorBag (option string) :=
  let* m := _match (first_selector field scope) in
  match m with
  | MatchValue None => ret None
  | MatchPrev _ => ret None               (* the accumulator has no [msg] *)
  | MatchValue (Some l) =>
      let* e := deref "msg" l in
      ret (Some (fe_msg e))
  end.

(** ** Fields and the rule registry *)

Record Flags : Type := mkFlags {
  fl_valid : option bool;
  fl_invalid : option bool;
  fl_pending : option bool;
  fl_validated : option bool
}.

(** An entry of [field.dependencies]; of the target field, the two
    properties [_test] reads. *)
Record Dependency : Type := mkDependency {
  dep_name : string;
  dep_alias : option string;
  dep_value : JsValue
}.

(** Modelled from the spec: field.js is not among the sources.  Of a Field,
    the properties the validator reads or writes; [f_value] is the value its
    getter gives. *)
Record Field : Type := mkField {
  f_id : string;
  f_name : string;
  f_scope : option string;
  f_vmId : option string;
  f_rules : list (string * list JsValue);   (* in the order of [Object.keys] *)
  f_flags : Flags;
  f_alias : option string;
  f_bails : option bool;                  (* [None] is undefined *)
  f_isRequired : bool;
  f_isDisabled : bool;
  f_rejectsFalse : bool;
  f_dependencies : list Dependency;
  f_value : JsValue
}.

Definition set_flags (fl : Flags) (f : Field) : Field :=
  mkField (f_id f) (f_name f) (f_scope f) (f_vmId f) (f_rules f) fl (f_alias f)
          (f_bails f) (f_isRequired f) (f_isDisabled f) (f_rejectsFalse f)
          (f_dependencies f) (f_value f).

(** What a rule's validate function may give back at once ... *)
Inductive Outcome : Type :=
| OBool (b : bool)
| OObject (valid : bool) (data : option Data).   (* [{ valid, data }] *)

(** ... or what its promise is fulfilled with. *)
Inductive Settled : Type :=
| SOne (o : Outcome)
| SArray (os : list Outcome).

Inductive Returned : Type :=
| Now (o : Outcome)
| Later (p : Promise Settled).

Record RuleOptions : Type := mkRuleOptions {
  hasTarget : bool;
  immediate : bool;
  isDate : bool
}.

(** The options object [{}] used for a rule that is not registered. *)
Definition no_options : RuleOptions := mkRuleOptions false false false.

(** An entry of [RULES]. *)
Record Rule : Type := mkRule {
  validate_fn : JsValue -> list JsValue -> Returned;
  options : RuleOptions
}.

(** The [rule] argument of [_test]. *)
Record RuleArg : Type := mkRuleArg {
  r_name : string;
  r_params : list JsValue;
  r_options : RuleOptions
}.

Definition outcome_valid (o : Outcome) : bool :=
  match o with
  | OBool b => b
  | OObject v _ => v
  end.

(** [field.rules[name]] *)
Fixpoint rules_get (rules : list (string * list JsValue)) (name : string)
  : option (list JsValue) :=
  match rules with
  | [] => None
  | (k, ps) :: r => if String.eqb k name then Some ps else rules_get r name
  end.

(** The result of [_test], and of [_validate]. *)
Record TestResult : Type := mkTestResult {
  t_valid : bool;
  t_errors : list FieldError
}.

Record ValidationResult : Type := mkValidationResult {
  v_valid : bool;
  v_errors : list FieldError;
  v_id : string;
  v_field : string;
  v_scope : option string
}.

Inductive Tested : Type :=
| TestedNow (r : TestResult)
| TestedLater (p : Promise TestResult).

(** One call of a rule's validate function. *)
Record Call : Type := mkCall {
  c_rule : string;
  c_value : JsValue;
  c_params : list JsValue
}.

(** The validator object, with the log of the calls made to validate
    functions.  Error objects made by [_createFieldError] enter the store of
    [errors] when they are added to the bag; until then nothing else refers
    to them. *)
Record State : Type := mkState {
  strict : bool;
  paused : bool;
  fastExit : bool;
  fields : list Field;
  errors : ErrorBag;
  calls : list Call
}.

Definition set_errors (b : ErrorBag) (st : State) : State :=
  mkState (strict st) (paused st) (fastExit st) (fields st) b (calls st).

Definition set_fields (fs : list Field) (st : State) : State :=
  mkState (strict st) (paused st) (fastExit st) fs (errors st) (calls st).

Definition set_paused (p : bool) (st : State) : State :=
  mkState (strict st) p (fastExit st) (fields st) (errors st) (calls st).

Definition log_call (c : Call) (st : State) : State :=
  mkState (strict st) (paused st) (fastExit st) (fields st) (errors st) (calls st ++ [c]).

(** Running a method of [this.errors]. *)
Definition on_errors {A : Type} (m : M ErrorBag A) : M State A :=
  fun st => let '(r, b) := m (errors st) in (r, set_errors b st).

(** [p.then(k)]: a rejection of [p] is passed on one moment later.  The
    moment of a fulfilment is not recorded, so the rejection that a callback
    makes by throwing is given the moment 0; no promise of that kind is
    handed to [Promise.all] or to [then] in the sources. *)
Definition then_ {S A B : Type} (p : Promise A) (k : A -> M S B) : M S (Promise B) :=
  match p with
  | Rejected t e => ret (Rejected (Datatypes.S t) e)
  | Resolved a =>
      fun s =>
        match k a s with
        | (Ok b, s') => (Ok (Resolved b), s')
        | (Throw e, s') => (Ok (Rejected 0 e), s')
        end
  end.

(** The rejection of the array that is there first: the least moment, and
    the first of the array among those of that moment. *)
Fixpoint first_rejection {A : Type} (ps : list (Promise A)) : option (nat * Exn) :=
  match ps with
  | [] => None
  | Resolved _ :: r => first_rejection r
  | Rejected t e :: r =>
      match first_rejection r with
      | Some (t', e') => if Nat.ltb t' t then Some (t', e') else Some (t, e)
      | None => Some (t, e)
      end
  end.

(** The values of the promises of the array that are fulfilled, in order. *)
Fixpoint fulfilled_values {A : Type} (ps : list (Promise A)) : list A :=
  match ps with
  | [] => []
  | Resolved a :: r => a :: fulfilled_values r
  | Rejected _ _ :: r => fulfilled_values r
  end.

(** [Promise.all(ps)]: the values in order when every promise is fulfilled,
    and otherwise the rejection that is there first, one moment later. *)
Definition Promise_all {A : Type} (ps : list (Promise A)) : Promise (list A) :=
  match first_rejection ps with
  | Some (t, e) => Rejected (S t) e
  | None => Resolved (fulfilled_values ps)
  end.

(** ** FieldBag *)

(** Modelled from the spec: fieldBag.js is not among the sources.  A criteria
    object [{id?, name?, scope?, vmId?}]; an undefined criterion ([None]) is a
    wildcard. *)
Record Matcher : Type := mkMatcher {
  m_id : option string;
  m_name : option string;
  m_scope : option (option string);
  m_vmId : option (option string)
}.

Definition criterion {A : Type} (eqb : A -> A -> bool) (c : option A) (x : A) : bool :=
  match c with
  | None => true
  | Some y => eqb y x
  end.

(** Modelled from the spec: a field satisfies a criteria object when it
    agrees with every criterion that is defined. *)
Definition matches (m : Matcher) (f : Field) : bool :=
  criterion String.eqb (m_id m) (f_id f)
  && criterion String.eqb (m_name m) (f_name f)
  && criterion opt_eqb (m_scope m) (f_scope f)
  && criterion opt_eqb (m_vmId m) (f_vmId f).

(** Modelled from the spec: one criteria object, or an array of them combined
    by OR. *)
Definition matches_any (m : Matcher + list Matcher) (f : Field) : bool :=
  match m with
  | inl m1 => matches m1 f
  | inr ms => existsb (fun m1 => matches m1 f) ms
  end.

(** Modelled from the spec: [find] gives the first match in insertion order
    (here with its position in the bag), or null. *)
Fixpoint FieldBag_find_from (i : nat) (m : Matcher + list Matcher) (fs : list Field)
  : option (nat * Field) :=
  match fs with
  | [] => None
  | f :: r => if matches_any m f then Some (i, f) else FieldBag_find_from (S i) m r
  end.

Definition FieldBag_find (m : Matcher + list Matcher) (fs : list Field)
  : option (nat * Field) :=
  FieldBag_find_from 0 m fs.

(** Modelled from the spec: [filter] gives all matches, in order. *)
Fixpoint FieldBag_filter_from (i : nat) (m : Matcher + list Matcher) (fs : list Field)
  : list (nat * Field) :=
  match fs with
  | [] => []
  | f :: r =>
      if matches_any m f then (i, f) :: FieldBag_filter_from (S i) m r
      else FieldBag_filter_from (S i) m r
  end.

Definition FieldBag_filter (m : Matcher + list Matcher) (fs : list Field)
  : list (nat * Field) :=
  FieldBag_filter_from 0 m fs.

(** The flags given to [setFlags]; [None] for a flag that is not given. *)
Definition merge_flag (given old : option bool) : option bool :=
  match given with
  | Some b => Some b
  | None => old
  end.

(** Modelled from the spec: field.js is not among the sources; [setFlags]
    merges the given flags onto the field. *)
Definition setFlags (given : Flags) (f : Field) : Field :=
  set_flags (mkFlags (merge_flag (fl_valid given) (fl_valid (f_flags f)))
                     (merge_flag (fl_invalid given) (fl_invalid (f_flags f)))
                     (merge_flag (fl_pending given) (fl_pending (f_flags f)))
                     (merge_flag (fl_validated given) (fl_validated (f_flags f)))) f.

(** ** Validator (src/core/validator.js) *)

Definition quote : string := String (ascii_of_nat 34) EmptyString.

(** Modelled from the spec: utils.js is not among the sources;
    [createError] makes the error a promise is rejected with, of which the
    message is kept. *)
Definition createError (m : string) : Exn := Error m.

Definition alias_truthy (a : option string) : option string :=
  match a with
  | Some EmptyString => None
  | other => other
  end.

Section Validator.

(** The module-level registry [RULES], the dictionary dependency, and what
    the identifier [name], which [validate] reads without declaring it,
    is bound to in the global scope ([None]: no such binding). *)
Variable RULES : gmap string Rule.
Variable dict : Dictionary.
Variable global_name : option JsValue.

(** [_getDateFormat] *)
Definition _getDateFormat (validations : list (string * list JsValue)) : JsValue :=
  let format :=
    match rules_get validations "date_format" with
    | Some (p :: _) => p
    | _ => VNull
    end in
  if truthy format then format else getDateFormat dict (locale dict).

(** [_getLocalizedParams] *)
Definition _getLocalizedParams (d : Dictionary) (rule : RuleArg)
  (targetName : option string) : list JsValue :=
  match r_params rule with
  | p0 :: rest =>
      if hasTarget (r_options rule) && truthy p0 then
        let localizedName :=
          match alias_truthy targetName with
          | Some t => VStr t
          | None => getAttribute d (locale d) p0 p0
          end in
        localizedName :: rest
      else r_params rule
  | [] => r_params rule
  end.

(** [_getFieldDisplayName] *)
Definition _getFieldDisplayName (d : Dictionary) (field : Field) : JsValue :=
  match alias_truthy (f_alias field) with
  | Some a => VStr a
  | None => getAttribute d (locale d) (VStr (f_name field)) (VStr (f_name field))
  end.

(** [_formatErrorMessage]; an undefined [data] takes the default [{}]. *)
Definition _formatErrorMessage (d : Dictionary) (field : Field) (rule : RuleArg)
  (data : option Data) (targetName : option string) : string :=
  let data' := match data with Some x => x | None => [] end in
  let name := _getFieldDisplayName d field in
  let params := _getLocalizedParams d rule targetName in
  getFieldMessage d (locale d) (f_name field) (r_name rule) name params data'.

(** [_createFieldError]; the closure reads the dictionary when called. *)
Definition _createFieldError (field : Field) (rule : RuleArg)
  (data : option Data) (targetName : option string) : FieldError :=
  {| fe_id := Some (f_id field);
     fe_vmId := f_vmId field;
     fe_field := f_name field;
     fe_msg := _formatErrorMessage dict field rule data targetName;
     fe_rule := Some (r_name rule);
     fe_scope := f_scope field;
     fe_regenerate :=
       Some (fun d => _formatErrorMessage d field rule data targetName) |}.

(** [validator(value, params)], logged. *)
Definition invoke (name : string) (validator : JsValue -> list JsValue -> Returned)
  (value : JsValue) (params : list JsValue) : M State Returned :=
  let* _ := modify (log_call (mkCall name value params)) in
  ret (validator value params).

(** The first part of [_test]: the target name and the parameters handed
    to the validate function. *)
Definition test_params (field : Field) (rule : RuleArg) : option string * list JsValue :=
  let params := r_params rule in
  let '(targetName, params) :=
    if hasTarget (r_options rule) then
      match List.find (fun d => String.eqb (dep_name d) (r_name rule))
                      (f_dependencies field) with
      | Some target => (dep_alias target, dep_value target :: tl params)
      | None => (None, params)
      end
    else if String.eqb (r_name rule) "required" && f_rejectsFalse field then
      (None, match params with [] => [VBool true] | _ => params end)
    else (None, params) in
  let params :=
    if isDate (r_options rule) then
      let dateFormat := _getDateFormat (f_rules field) in
      if negb (String.eqb (r_name rule) "date_format")
      then params ++ [dateFormat] else params
    else params in
  (targetName, params).

(** The callback [values => ...] of [_test]. *)
Definition settle (field : Field) (rule : RuleArg) (targetName : option string)
  (values : Settled) : TestResult :=
  let '(allValid, data) :=
    match values with
    | SArray vs => (forallb outcome_valid vs, Some [])
    | SOne (OBool b) => (b, None)
    | SOne (OObject v d) => (v, d)
    end in
  mkTestResult allValid
    (if allValid then [] else [_createFieldError field rule data targetName]).

(** The last part of [_test], for a value that is not a promise. *)
Definition now_result (field : Field) (rule : RuleArg) (targetName : option string)
  (o : Outcome) : TestResult :=
  let '(valid, data) :=
    match o with
    | OBool b => (b, Some [])
    | OObject v d => (v, d)
    end in
  mkTestResult valid
    (if valid then [] else [_createFieldError field rule data targetName]).

(** [_test] *)
Definition _test (field : Field) (value : JsValue) (rule : RuleArg) : M State Tested :=
  match RULES !! r_name rule with
  | None =>
      ret (TestedLater (Rejected 0 (createError
             ("No such validator '" +:+ r_name rule +:+ "' exists."))))
  | Some entry =>
      let validator := validate_fn entry in
      let '(targetName, params) := test_params field rule in
      let* result := invoke (r_name rule) validator value params in
      match result with
      | Later p =>
          let* q := then_ p (fun values => ret (settle field rule targetName values)) in
          ret (TestedLater q)
      | Now o => ret (TestedNow (now_result field rule targetName o))
      end
  end.

(** [_shouldSkip] *)
Definition _shouldSkip (field : Field) (value : JsValue) : bool :=
  match f_bails field with
  | Some false => false
  | _ =>
      if f_isDisabled field then true
      else negb (f_isRequired field)
           && (isNullOrUndefined value || is_empty_string value)
  end.

(** [_shouldBail] *)
Definition _shouldBail (field : Field) : M State bool :=
  match f_bails field with
  | Some b => ret b
  | None => gets fastExit
  end.

(** The filter of [_validate]: on an initial pass a registered rule runs
    only if it is immediate. *)
Definition runs_on (initial : bool) (rule : string) : bool :=
  match initial, RULES !! rule with
  | true, Some entry => immediate (options entry)
  | _, _ => true
  end.

(** The object [{ name: rule, params: field.rules[rule], options: ruleOptions }]
    handed to [_test]. *)
Definition rule_arg (field : Field) (rule : string) : RuleArg :=
  let ruleOptions :=
    match RULES !! rule with
    | Some entry => options entry
    | None => no_options
    end in
  let params := match rules_get (f_rules field) rule with
                | Some ps => ps
                | None => []
                end in
  mkRuleArg rule params ruleOptions.

(** [Object.keys(field.rules).filter(...)] *)
Definition selected_rules (initial : bool) (field : Field) : list string :=
  List.filter (runs_on initial) (List.map fst (f_rules field)).

(** The [some] loop of [_validate]: [promises] and [errors] are the two
    arrays, the boolean is [isExitEarly]. *)
Fixpoint scan (field : Field) (value : JsValue) (rules : list string)
  (promises : list (Promise TestResult)) (errs : list FieldError)
  : M State (list (Promise TestResult) * list FieldError * bool) :=
  match rules with
  | [] => ret (promises, errs, false)
  | rule :: rest =>
      let* result := _test field value (rule_arg field rule) in
      match result with
      | TestedLater p => scan field value rest (promises ++ [p]) errs
      | TestedNow r =>
          let* bail := if t_valid r then ret false else _shouldBail field in
          if bail then ret (promises, errs ++ t_errors r, true)
          else scan field value rest (promises ++ [Resolved r]) errs
      end
  end.

(** The reduction over the awaited results. *)
Definition collect_results (results : list TestResult) (init : ValidationResult)
  : ValidationResult :=
  fold_left (fun prev v =>
    mkValidationResult (v_valid prev && t_valid v)
      (if t_valid v then v_errors prev else v_errors prev ++ t_errors v)
      (v_id prev) (v_field prev) (v_scope prev)) results init.

(** [_validate] *)
Definition _validate (field : Field) (value : JsValue) (initial : bool)
  : M State (Promise ValidationResult) :=
  if _shouldSkip field value then
    ret (Resolved (mkValidationResult true [] (f_id field) (f_name field) (f_scope field)))
  else
    let* scanned := scan field value (selected_rules initial field) [] [] in
    let '(promises, errs, isExitEarly) := scanned in
    if (isExitEarly : bool) then
      ret (Resolved (mkValidationResult false errs (f_id field) (f_name field) (f_scope field)))
    else
      then_ (Promise_all promises) (fun results =>
        ret (collect_results results
               (mkValidationResult true errs (f_id field) (f_name field) (f_scope field)))).

(** [name.split('.')]: the first segment, and the others joined again. *)
Fixpoint split_first_dot (s : string) : option (string * string) :=
  match s with
  | EmptyString => None
  | String c r =>
      if Ascii.eqb c dot then Some (EmptyString, r)
      else match split_first_dot r with
           | Some (a, b) => Some (String c a, b)
           | None => None
           end
  end.

(** [_resolveField] *)
Definition _resolveField (name : string) (scope uid : option string) (fs : list Field)
  : option (nat * Field) :=
  if startsWith_hash name then
    FieldBag_find (inl (mkMatcher (Some (slice1 name)) None None None)) fs
  else
    match scope with
    | Some sc =>
        FieldBag_find (inl (mkMatcher None (Some name) (Some (Some sc)) (Some <$> uid))) fs
    | None =>
        let scoped :=
          match split_first_dot name with
          | Some (fieldScope, fieldName) =>
              FieldBag_find (inl (mkMatcher None (Some fieldName)
                                     (Some (Some fieldScope)) (Some <$> uid))) fs
          | None => None
          end in
        match scoped with
        | Some f => Some f
        | None =>
            FieldBag_find (inl (mkMatcher None (Some name) (Some None) (Some <$> uid))) fs
        end
    end.

(** [_handleFieldNotFound] *)
Definition _handleFieldNotFound (name : JsValue) (scope : option string)
  : M State (Promise bool) :=
  let* st := gets strict in
  if negb st then ret (Resolved true)
  else
    let fullName :=
      match scope with
      | None => to_string name
      | Some sc => sc +:+ String dot EmptyString +:+ to_string name
      end in
    ret (Rejected 0 (createError
           ("Validating a non-existent field: " +:+ quote +:+ fullName +:+ quote
            +:+ ". Use " +:+ quote +:+ "attach()" +:+ quote +:+ " first."))).

(** The error objects of the results enter the store. *)
Fixpoint alloc_all (es : list FieldError) : M ErrorBag (list loc) :=
  match es with
  | [] => ret []
  | e :: r =>
      let* l := alloc e in
      let* ls := alloc_all r in
      ret (l :: ls)
  end.

(** [_handleValidationResults] *)
Definition _handleValidationResults (results : list ValidationResult) : M State unit :=
  let matchers := List.map (fun r => mkMatcher (Some (v_id r)) None None None) results in
  let* _ := on_errors (removeById (inr (List.map v_id results))) in
  let* _ := forEach (fun r => on_errors (remove (Some (v_field r)) (v_scope r))) results in
  let allErrors := List.concat (List.map v_errors results) in
  let* ls := on_errors (alloc_all allErrors) in
  let* _ := on_errors (add (AddNew (inr ls))) in
  let* fs := gets fields in
  forEach (fun '(i, field) =>
    match List.find (fun r => String.eqb (v_id r) (f_id field)) results with
    | Some r =>
        modify (fun st => set_fields
          (alter (setFlags (mkFlags (Some (v_valid r)) None (Some false) (Some true)))
                 i (fields st)) st)
    | None => throw (cannot_read "valid")
    end) (FieldBag_filter (inr matchers) fs).

(** The [values] argument of [validateAll]. *)
Inductive Values : Type :=
| NoValues
| ScopeName (scope : string)
| ValueMap (m : list (string * JsValue))
| NameArray (names : list string).

(** [values[name]] *)
Fixpoint values_get (m : list (string * JsValue)) (name : string) : JsValue :=
  match m with
  | [] => VUndefined
  | (k, v) :: r => if String.eqb k name then v else values_get r name
  end.

(** [fs.map(f)] for an [f] with effects. *)
Fixpoint mapM {S A B : Type} (f : A -> M S B) (l : list A) : M S (list B) :=
  match l with
  | [] => ret []
  | x :: r =>
      let* y := f x in
      let* ys := mapM f r in
      ret (y :: ys)
  end.

(** The callback shared by [validateAll] and [validateScopes]. *)
Definition handle_all (silent : bool) (results : list ValidationResult) : M State bool :=
  let* _ := if silent then ret tt else _handleValidationResults results in
  ret (forallb v_valid results).

(** [validateAll] *)
Definition validateAll (values : Values) (silent : bool) (vmId : option string)
  : M State (Promise bool) :=
  let* p := gets paused in
  if (p : bool) then ret (Resolved true)
  else
    let matcher : Matcher + list Matcher :=
      match values with
      | ScopeName sc => inl (mkMatcher None None (Some (Some sc)) (Some <$> vmId))
      | ValueMap m =>
          inr (List.map (fun kv => mkMatcher None (Some (fst kv)) (Some None) (Some <$> vmId)) m)
      | NameArray names =>
          inr (List.map (fun key => mkMatcher None (Some key) None (Some <$> vmId)) names)
      | NoValues => inl (mkMatcher None None (Some None) (Some <$> vmId))
      end in
    let* fs := gets fields in
    let* ps := mapM (fun '(_, field) =>
                 _validate field
                   (match values with
                    | ValueMap m => values_get m (f_name field)
                    | _ => f_value field
                    end) false)
               (FieldBag_filter matcher fs) in
    then_ (Promise_all ps) (handle_all silent).

(** [validateScopes] *)
Definition validateScopes (silent : bool) (vmId : option string) : M State (Promise bool) :=
  let* p := gets paused in
  if (p : bool) then ret (Resolved true)
  else
    let* fs := gets fields in
    let* ps := mapM (fun '(_, field) => _validate field (f_value field) false)
                 (FieldBag_filter (inl (mkMatcher None None None (Some <$> vmId))) fs) in
    then_ (Promise_all ps) (handle_all silent).

(** Group 1 of [/^(.+)\.\*$/] when the whole string matches. *)
Fixpoint scope_wildcard (s : string) : option string :=
  match s with
  | EmptyString => None
  | String c r =>
      if is_dot_char c then
        if String.eqb r (String dot (String star EmptyString))
        then Some (String c EmptyString)
        else String c <$> scope_wildcard r
      else None
  end.

(** [validate]; an absent [fieldDescriptor] is [None], an absent [value] is
    [VUndefined]. *)
Definition validate (fieldDescriptor : option string) (value : JsValue)
  (silent : bool) (vmId : option string) : M State (Promise bool) :=
  let* p := gets paused in
  if (p : bool) then ret (Resolved true)
  else
    match fieldDescriptor with
    | None => validateScopes silent vmId
    | Some descriptor =>
        if String.eqb descriptor (String star EmptyString) then
          validateAll NoValues silent vmId
        else
          match scope_wildcard descriptor with
          | Some matched => validateAll (ScopeName matched) false None
          | None =>
              let* fs := gets fields in
              match _resolveField descriptor None None fs with
              | None =>
                  match global_name with
                  | None => throw (ReferenceError "name is not defined")
                  | Some name => _handleFieldNotFound name None
                  end
              | Some (i, field) =>
                  let* _ :=
                    if silent then ret tt
                    else modify (fun st => set_fields
                           (alter (fun f => set_flags
                                     (mkFlags (fl_valid (f_flags f)) (fl_invalid (f_flags f))
                                              (Some true) (fl_validated (f_flags f))) f)
                                  i (fields st)) st) in
                  let value := if (match value with VUndefined => true | _ => false end)
                               then f_value field else value in
                  let* promise := _validate field value false in
                  then_ promise (fun result =>
                    let* _ := if silent then ret tt
                              else _handleValidationResults [result] in
                    ret (v_valid result))
              end
          end
    end.

(** [pause] and [resume] *)
Definition pause : M State unit := modify (set_paused true).
Definition resume : M State unit := modify (set_paused false).

End Validator.

(** ** Notions used to state the properties *)

(** The object at [l] exists and satisfies [P]. *)
Definition obj_sat (b : ErrorBag) (P : FieldError -> bool) (l : loc) : bool :=
  match store b !! l with
  | Some e => P e
  | None => false
  end.

(** The earliest, and the latest, item in insertion order satisfying [P]. *)
Definition earliest (P : FieldError -> bool) (b : ErrorBag) : option loc :=
  List.find (obj_sat b P) (items b).

Definition latest (P : FieldError -> bool) (b : ErrorBag) : option loc :=
  List.find (obj_sat b P) (rev (items b)).

(** The two-tier choice: the earliest primary match, else the latest alt
    match, else nothing. *)
Definition two_tier (P A : FieldError -> bool) (b : ErrorBag) : option loc :=
  match earliest P b with
  | Some l => Some l
  | None => latest A b
  end.

Definition msg_at (b : ErrorBag) (o : option loc) : option string :=
  match o with
  | Some l => fe_msg <$> store b !! l
  | None => None
  end.

(** The selector as the filters read it: scope without its dot, name, rule
    without its colon. *)
Definition parsed_selector (selector : string)
  : option (option string * string * option string) :=
  match selector_groups selector with
  | Some (scope, name, rule) =>
      Some (replace_first dot <$> scope, name, replace_first colon <$> rule)
  | None => None
  end.

Definition rule_matches (rule : option string) (e : FieldError) : bool :=
  match rule with
  | Some r => opt_eqb (fe_rule e) (Some r)
  | None => true
  end.

(** Exact scope (none for a selector without scope), exact name, exact rule
    if one is given. *)
Definition primary_pred (scope : option string) (name : string) (rule : option string)
  (e : FieldError) : bool :=
  opt_eqb (fe_scope e) scope && String.eqb (fe_field e) name && rule_matches rule e.

(** The field name is literally [scope.name], an absent scope reading
    [undefined]; and the rule is the given one, if one is given. *)
Definition alt_pred (scope : option string) (name : string) (rule : option string)
  (e : FieldError) : bool :=
  String.eqb (fe_field e) (show_opt scope +:+ String dot EmptyString +:+ name)
  && rule_matches rule e.

(** The alt predicate with no rule constraint: the field name is literally
    [scope.name]. *)
Definition literal_alt (scope name : string) (e : FieldError) : bool :=
  String.eqb (fe_field e) (scope +:+ String dot EmptyString +:+ name).

(** The id test written in the [#] branch of [_makeCandidateFilters]. *)
Definition id_test (selector : string) (e : FieldError) : bool :=
  match fe_id e with
  | Some i => startsWith (slice1 selector) i
  | None => false
  end.

(** What [regenerate] is to do to one error. *)
Definition regenerated (d : Dictionary) (e : FieldError) : FieldError :=
  set_msg (match fe_regenerate e with
           | Some g => g d
           | None => fe_msg e
           end) e.

(** One step of [regenerate] on the store. *)
Definition regen_step (d : Dictionary) (st : list FieldError) (l : loc) : list FieldError :=
  alter (regenerated d) l st.

(** The values of promises that are all fulfilled, in order; nothing when
    one of them is rejected. *)
Fixpoint fulfilled {A : Type} (ps : list (Promise A)) : option (list A) :=
  match ps with
  | [] => Some []
  | Resolved a :: r =>
      match fulfilled r with
      | Some l => Some (a :: l)
      | None => None
      end
  | Rejected _ _ :: _ => None
  end.

(** [p.then(f)] for a callback without effects. *)
Definition promise_map {A B : Type} (f : A -> B) (p : Promise A) : Promise B :=
  match p with
  | Resolved a => Resolved (f a)
  | Rejected t e => Rejected (S t) e
  end.

Definition add_calls (cs : list Call) (st : State) : State :=
  mkState (strict st) (paused st) (fastExit st) (fields st) (errors st) (calls st ++ cs).

(** Bail is active: the field's own [bails] if it is set, else [fastExit]. *)
Definition bail_active (field : Field) (st : State) : bool :=
  match f_bails field with
  | Some b => b
  | None => fastExit st
  end.

Section Outcomes.

Variable RULES : gmap string Rule.
Variable dict : Dictionary.
Variable field : Field.
Variable value : JsValue.

(** What [_test] gives for the rule named [rule] of the field. *)
Definition test_outcome (rule : string) : Tested :=
  let arg := rule_arg RULES field rule in
  match RULES !! rule with
  | None =>
      TestedLater (Rejected 0 (createError ("No such validator '" +:+ rule +:+ "' exists.")))
  | Some entry =>
      let '(targetName, params) := test_params dict field arg in
      match validate_fn entry value params with
      | Later p => TestedLater (promise_map (settle dict field arg targetName) p)
      | Now o => TestedNow (now_result dict field arg targetName o)
      end
  end.

(** The calls [_test] makes for it: one if the rule is registered. *)
Definition test_calls (rule : string) : list Call :=
  match RULES !! rule with
  | None => []
  | Some _ => [mkCall rule value (snd (test_params dict field (rule_arg RULES field rule)))]
  end.

(** The rule is evaluated synchronously and fails. *)
Definition fails_now (rule : string) : bool :=
  match test_outcome rule with
  | TestedNow r => negb (t_valid r)
  | TestedLater _ => false
  end.

(** The errors of such a rule. *)
Definition errors_now (rule : string) : list FieldError :=
  match test_outcome rule with
  | TestedNow r => t_errors r
  | TestedLater _ => []
  end.

(** The promise that joins the [promises] array for a rule that does not
    stop the scan. *)
Definition awaited (rule : string) : Promise TestResult :=
  match test_outcome rule with
  | TestedNow r => Resolved r
  | TestedLater p => p
  end.

(** The rules before the first one that fails synchronously. *)
Fixpoint before_failure (rules : list string) : list string :=
  match rules with
  | [] => []
  | r :: rest => if fails_now r then [] else r :: before_failure rest
  end.

(** The rules [scan] hands to [_test] when bail is active: up to the first
    that fails synchronously, that one included. *)
Definition tested (rules : list string) : list string :=
  before_failure rules
  ++ match List.find fails_now rules with
     | Some a => [a]
     | None => []
     end.

(** The aggregate of the awaited results: valid when all are, with the
    errors of those that are not, in order. *)
Definition aggregate (results : list TestResult) : ValidationResult :=
  mkValidationResult (forallb t_valid results)
    (List.concat (List.map t_errors (List.filter (fun r => negb (t_valid r)) results)))
    (f_id field) (f_name field) (f_scope field).

(** The rules a pass hands to [_test]: none for a field that is skipped,
    those up to the first synchronous failure when bail is active, and all
    the selected ones otherwise. *)
Definition rules_run (initial bail : bool) : list string :=
  if _shouldSkip field value then []
  else if bail then tested (selected_rules RULES initial field)
  else selected_rules RULES initial field.

(** The result a pass is fulfilled with; nothing when an awaited outcome is
    rejected. *)
Definition verdict (initial bail : bool) : option ValidationResult :=
  if _shouldSkip field value then
    Some (mkValidationResult true [] (f_id field) (f_name field) (f_scope field))
  else
    match (if bail then List.find fails_now (selected_rules RULES initial field)
           else None) with
    | Some a =>
        Some (mkValidationResult false (errors_now a)
                (f_id field) (f_name field) (f_scope field))
    | None =>
        match fulfilled (List.map awaited (selected_rules RULES initial field)) with
        | Some results => Some (aggregate results)
        | None => None
        end
    end.

End Outcomes.

(** ** Sample data *)

Definition sample_email : FieldError :=
  mkFieldError (Some "1") None "email" "The email field is required."
               (Some "required") None None.

Definition sample_dotted : FieldError :=
  mkFieldError (Some "2") None "a.b" "The a.b field is too short."
               (Some "min") None (Some (fun d => "a.b is too short (" +:+ locale d +:+ ")")).

Definition sample_scoped : FieldError :=
  mkFieldError (Some "3") None "b" "The b field is too short."
               (Some "min") (Some "a") None.

Definition sample_bag : ErrorBag :=
  mkErrorBag [sample_email; sample_dotted; sample_scoped] [0; 1; 2].

Definition sample_dict : Dictionary :=
  mkDictionary "en"
    (fun _ field rule _ _ data =>
       field +:+ ":" +:+ rule +:+ ":" +:+ pretty (length data))
    (fun _ _ fallback => fallback)
    (fun _ => VStr "DD/MM/YYYY").

(** Sample rules, fields and states. *)

Definition rule_options : RuleOptions := mkRuleOptions false true false.

Definition sync_fail : Rule := mkRule (fun _ _ => Now (OBool false)) rule_options.
Definition sync_pass : Rule := mkRule (fun _ _ => Now (OBool true)) rule_options.
Definition async_fail : Rule :=
  mkRule (fun _ _ => Later (Resolved (SOne (OBool false)))) rule_options.
Definition async_array : Rule :=
  mkRule (fun _ _ => Later (Resolved (SArray [OObject false (Some [("min", VNum 3)]);
                                              OBool true]))) rule_options.

(** A rule whose promise is rejected when it is returned. *)
Definition async_boom : Rule :=
  mkRule (fun _ _ => Later (Rejected 0 (Error "boom"))) rule_options.

Definition sample_rules : gmap string Rule :=
  <["remote" := async_fail]> (<["digits" := sync_fail]> (<["min" := sync_fail]>
    (<["alpha" := sync_pass]> (<["each" := async_array]> ∅)))).

(** The sample rules with [boom] besides. *)
Definition racing_rules : gmap string Rule := <["boom" := async_boom]> sample_rules.

Definition no_flags : Flags := mkFlags None None None None.

(** A required field [email] with the given rules (no parameters), [bails]
    setting and disabled state, whose value is ["x"]. *)
Definition sample_field (rules : list string) (bails : option bool) (disabled : bool)
  : Field :=
  mkField "7" "email" None None (List.map (fun r => (r, [])) rules) no_flags None
          bails true disabled false [] (VStr "x").

Definition sample_state (fs : list Field) : State :=
  mkState true false true fs empty_bag [].

(** ** Further operations of the ErrorBag *)

(** [count] *)
Definition count : M ErrorBag nat := gets (fun b => length (items b)).

(** [firstById] *)
Definition firstById (id : string) : M ErrorBag (option string) :=
  let* its := gets items in
  let* error := find_item "id" (fun i => opt_eqb (fe_id i) (Some id)) its in
  match error with
  | Some l =>
      let* e := deref "msg" l in
      ret (Some (fe_msg e))
  | None => ret None
  end.

(** [x || undefined] for a string [x]. *)
Definition or_undefined (s : string) : option string :=
  match s with
  | EmptyString => None
  | _ => Some s
  end.

(** [has]: [!!this.first(field, scope)] *)
Definition has (field scope : option string) : M ErrorBag bool :=
  let* m := first field scope in
  ret (match m with
       | Some s => negb (String.eqb s EmptyString)
       | None => false
       end).

(** [collection[k]] *)
Fixpoint group_get (k : string) (g : list (string * list Entry)) : option (list Entry) :=
  match g with
  | [] => None
  | (k', xs) :: g' => if String.eqb k k' then Some xs else group_get k g'
  end.

(** What [e.rule] and [e.msg] read on an element of a collected list: the
    property of the error, and undefined on a message string. *)
Definition entry_obj (x : Entry) : M ErrorBag (option FieldError) :=
  match x with
  | EErr l =>
      let* e := deref "rule" l in
      ret (Some e)
  | EMsg _ => ret None
  end.

(** [firstRule]: [(errors.length && errors[0].rule) || undefined].  When
    [collect] gave the grouping object, [errors.length] and [errors[0]] are
    its groups for the field names [length] and [0]. *)
Definition firstRule (field scope : option string) : M ErrorBag (option string) :=
  let* errors := collect field scope false in
  match errors with
  | Grouped g =>
      match group_get "length" g, group_get "0" g with
      | Some _, None => throw (cannot_read "rule")
      | _, _ => ret None
      end
  | Listed [] => ret None
  | Listed (x :: _) =>
      let* o := entry_obj x in
      ret (match o with
           | Some e => match fe_rule e with
                       | Some r => or_undefined r
                       | None => None
                       end
           | None => None
           end)
  end.

(** [es.filter(p)[0]] over a collected list. *)
Fixpoint first_entry (p : option FieldError -> bool) (es : list Entry)
  : M ErrorBag (option (option FieldError)) :=
  match es with
  | [] => ret None
  | x :: r =>
      let* o := entry_obj x in
      let* rest := first_entry p r in
      ret (if p o then Some o else rest)
  end.

(** The common body of [firstByRule] and [firstNot]:
    [collect(name, scope, false).filter(p)[0]], then
    [(error && error.msg) || undefined].  The grouping object has no
    [filter] method. *)
Definition first_filtered (p : option FieldError -> bool) (name scope : option string)
  : M ErrorBag (option string) :=
  let* errors := collect name scope false in
  match errors with
  | Grouped _ => throw (TypeError "this.collect(...).filter is not a function")
  | Listed es =>
      let* error := first_entry p es in
      ret (match error with
           | Some (Some e) => or_undefined (fe_msg e)
           | _ => None
           end)
  end.

(** [e.rule === rule] *)
Definition rule_is (rule : string) (o : option FieldError) : bool :=
  match o with
  | Some e => opt_eqb (fe_rule e) (Some rule)
  | None => false
  end.

(** [firstByRule] *)
Definition firstByRule (name : option string) (rule : string) (scope : option string)
  : M ErrorBag (option string) :=
  first_filtered (rule_is rule) name scope.

(** [firstNot]; an absent [rule] is ['required']. *)
Definition firstNot (name : option string) (rule : option string) (scope : option string)
  : M ErrorBag (option string) :=
  let rule' := match rule with Some r => r | None => "required" end in
  first_filtered (fun o => negb (rule_is rule' o)) name scope.

(** The iterator of the bag: [next] at position [index] gives the value,
    the [done] flag and the next position. *)
Definition iterator_next (index : nat) : M ErrorBag (option loc * bool * nat) :=
  let* its := gets items in
  ret (its !! index, Nat.ltb (length its) (S index), S index).

(** A [for ... of] loop over the bag that runs at most [fuel] steps and
    gathers the values it visits; [None] when the fuel runs out first. *)
Fixpoint iterate (fuel index : nat) : M ErrorBag (option (list (option loc))) :=
  match fuel with
  | 0 => ret None
  | S fuel' =>
      let* step := iterator_next index in
      let '(value, done, index') := step in
      if (done : bool) then ret (Some [])
      else
        let* rest := iterate fuel' index' in
        ret (cons value <$> rest)
  end.

(** ** Further operations of the Validator *)







(** The registry [RULES] with the messages handed to the dictionary by
    [setMessage(locale, name, getMessage)], in order. *)
Definition MessageFn : Type := JsValue -> list JsValue -> Data -> string.

Record Registry : Type := mkRegistry {
  reg_rules : gmap string Rule;
  reg_messages : list (string * string * MessageFn)
}.

(** The [validator] argument of [extend]: the function it is when it is
    callable, its [validate] property when that is callable, and its
    [getMessage] property when there is one. *)
Record ValidatorArg : Type := mkValidatorArg {
  va_function : option (JsValue -> list JsValue -> Returned);
  va_validate : option (JsValue -> list JsValue -> Returned);
  va_getMessage : option MessageFn
}.

(** The [options] argument of [extend]; [None] for a key that is not given. *)
Record ExtendOptions : Type := mkExtendOptions {
  eo_hasTarget : option bool;
  eo_immediate : option bool;
  eo_isDate : option bool
}.

Definition no_extend_options : ExtendOptions := mkExtendOptions None None None.

(** [assign({}, { hasTarget: false, immediate: true }, options || {})] *)
Definition merge_options (options : option ExtendOptions) : RuleOptions :=
  let o := match options with Some o => o | None => no_extend_options end in
  mkRuleOptions (match eo_hasTarget o with Some b => b | None => false end)
                (match eo_immediate o with Some b => b | None => true end)
                (match eo_isDate o with Some b => b | None => false end).

(** [_guardExtend] *)
Definition _guardExtend (name : string) (validator : ValidatorArg) : result unit :=
  match va_function validator with
  | Some _ => Ok tt
  | None =>
      match va_validate validator with
      | Some _ => Ok tt
      | None =>
          Throw (createError
            ("Extension Error: The validator '" +:+ name
             +:+ "' must be a function or have a 'validate' method."))
      end
  end.

(** [_merge]; [locale] is [Validator.locale].  After [_guardExtend] one of
    the two functions is there; [None] stands for the undefined [validate]
    the entry would get otherwise. *)
Definition _merge (locale : string) (name : string) (validator : ValidatorArg)
  (options : RuleOptions) (r : Registry) : option Registry :=
  let validate :=
    match va_function validator with
    | Some f => Some f
    | None => va_validate validator
    end in
  let messages :=
    match va_getMessage validator with
    | Some g => reg_messages r ++ [(locale, name, g)]
    | None => reg_messages r
    end in
  match validate with
  | Some f => Some (mkRegistry (<[name := mkRule f options]> (reg_rules r)) messages)
  | None => None
  end.

(** The static [extend] *)
Definition extend (locale : string) (name : string) (validator : ValidatorArg)
  (options : option ExtendOptions) : M Registry unit :=
  fun r =>
    match _guardExtend name validator with
    | Throw e => (Throw e, r)
    | Ok _ =>
        match _merge locale name validator (merge_options options) r with
        | Some r' => (Ok tt, r')
        | None => (Ok tt, r)
        end
    end.

(** The static [remove]: [delete RULES[name]] *)
Definition Validator_remove (name : string) : M Registry unit :=
  modify (fun r => mkRegistry (delete name (reg_rules r)) (reg_messages r)).

(** [isTargetRule] *)
Definition isTargetRule (rules : gmap string Rule) (name : string) : bool :=
  match rules !! name with
  | Some entry => hasTarget (options entry)
  | None => false
  end.

Section Lifecycle.

Variable RULES : gmap string Rule.
Variable dict : Dictionary.
Variable global_name : option JsValue.

(** The method [update] of the validator. *)
Definition Validator_update (id : string) (scope : option string) : M State unit :=
  let* fs := gets fields in
  match _resolveField (String hash id) None None fs with
  | None => ret tt
  | Some _ => on_errors (update id scope)
  end.

(** The two flag writes of [attach] on the field at position [i]. *)
Definition set_validity (valid : bool) (f : Field) : Field :=
  set_flags (mkFlags (Some valid) (Some (negb valid))
                     (fl_pending (f_flags f)) (fl_validated (f_flags f))) f.

(** [attach].  Modelled from the spec: field.js is not among the sources;
    [field] is the Field that [new Field(fieldOpts)] constructs, [immediate]
    its flag of that name and [initialValue] the option of that name;
    [push] appends to the FieldBag. *)
Definition attach (field : Field) (immediate : bool) (initialValue : JsValue)
  : M State unit :=
  let value := initialValue in
  let* i := gets (fun st => length (fields st)) in
  let* _ := modify (fun st => set_fields (fields st ++ [field]) st) in
  let value' := if truthy value then value else f_value field in
  if immediate then
    let* _ := validate RULES dict global_name (Some (String hash (f_id field)))
                       value' false None in
    ret tt
  else
    let* p := _validate RULES dict field value' true in
    let* _ := then_ p (fun result =>
                modify (fun st => set_fields
                  (alter (set_validity (v_valid result)) i (fields st)) st)) in
    ret tt.

(** [detach] for a selector.  Modelled from the spec: field.js and
    fieldBag.js are not among the sources; [destroy] is the teardown of the
    field, outside this state, and the FieldBag removes exactly the field it
    is given. *)
Definition detach (name : string) (scope uid : option string) : M State unit :=
  let* fs := gets fields in
  match _resolveField name scope uid fs with
  | None => ret tt
  | Some (i, field) =>
      let* _ := on_errors (remove (Some (f_name field)) (f_scope field)) in
      modify (fun st => set_fields (delete i (fields st)) st)
  end.

End Lifecycle.

(** ** Further notions *)

Fixpoint all_chars (p : ascii -> bool) (s : string) : bool :=
  match s with
  | EmptyString => true
  | String c r => p c && all_chars p r
  end.

(** The items whose object does not satisfy [P], in order. *)
Definition items_without (P : FieldError -> bool) (b : ErrorBag) : list loc :=
  List.filter (fun l => negb (obj_sat b P l)) (items b).

(** The items whose object satisfies [P], in order. *)
Definition items_with (P : FieldError -> bool) (b : ErrorBag) : list loc :=
  List.filter (obj_sat b P) (items b).

Definition id_is (id : string) (e : FieldError) : bool := opt_eqb (fe_id e) (Some id).

(** The flags [_handleValidationResults] leaves on a field. *)
Definition flagged (results : list ValidationResult) (f : Field) : Field :=
  match List.find (fun r => String.eqb (v_id r) (f_id f)) results with
  | Some r => setFlags (mkFlags (Some (v_valid r)) None (Some false) (Some true)) f
  | None => f
  end.

(** No result's name and scope select the error by the primary predicate. *)
Definition unselected (results : list ValidationResult) (e : FieldError) : bool :=
  forallb (fun r => negb (primary_pred (v_scope r) (v_field r) None e)) results.

(** The selector [remove] and [collect] build reads back as the given name
    and scope, without rule. *)
Definition plain_selector (name : string) (scope : option string) : Prop :=
  startsWith_hash (match scope with
                   | None => name
                   | Some sc => sc +:+ String dot EmptyString +:+ name
                   end) = false
  /\ parsed_selector (match scope with
                      | None => name
                      | Some sc => sc +:+ String dot EmptyString +:+ name
                      end) = Some (scope, name, None).

(** Some item has a field name that plain objects inherit. *)
Definition inherited_field (b : ErrorBag) (its : list loc) : bool :=
  existsb (obj_sat b (fun e => is_prototype_key (fe_field e))) its.

(** The element [collect] makes of an item. *)
Definition entry_at (b : ErrorBag) (map : bool) (l : loc) : Entry :=
  if map then EMsg (match store b !! l with
                    | Some e => fe_msg e
                    | None => EmptyString
                    end)
  else EErr l.

Definition field_is (k : string) (e : FieldError) : bool := String.eqb (fe_field e) k.

(** A group after more elements were pushed to it. *)
Definition group_with (o : option (list Entry)) (xs : list Entry) : option (list Entry) :=
  match xs with
  | [] => o
  | _ :: _ => Some (match o with Some ys => ys | None => [] end ++ xs)
  end.

(** [(error && error.msg) || undefined] for the item [o]. *)
Definition truthy_msg_at (b : ErrorBag) (o : option loc) : option string :=
  match msg_at b o with
  | Some s => or_undefined s
  | None => None
  end.

(** The write [field.flags.pending = true] of [validate]. *)
Definition mark_pending (f : Field) : Field :=
  set_flags (mkFlags (fl_valid (f_flags f)) (fl_invalid (f_flags f))
                     (Some true) (fl_validated (f_flags f))) f.

(** The value [validate] hands to [_validate]. *)
Definition value_or_own (value : JsValue) (field : Field) : JsValue :=
  match value with
  | VUndefined => f_value field
  | _ => value
  end.

(** [(errors.length && errors[0].rule) || undefined] for the item [o]. *)
Definition rule_at (b : ErrorBag) (o : option loc) : option string :=
  match o with
  | Some l =>
      match store b !! l with
      | Some e => match fe_rule e with
                  | Some r => or_undefined r
                  | None => None
                  end
      | None => None
      end
  | None => None
  end.

(** ** ErrorBag: lemmas *)

Lemma bind_ok {S A B : Type} (m : M S A) (k : A -> M S B) s a s' :
  m s = (Ok a, s') -> bind m k s = k a s'.
Proof. intros H. unfold bind. now rewrite H. Qed.

Lemma bind_throw {S A B : Type} (m : M S A) (k : A -> M S B) s e s' :
  m s = (Throw e, s') -> bind m k s = (Throw e, s').
Proof. intros H. unfold bind. now rewrite H. Qed.

Lemma deref_ok prop l b e :
  store b !! l = Some e -> deref prop l b = (Ok e, b).
Proof. intros H. unfold deref. now rewrite H. Qed.

Lemma assign_obj_ok prop l f b e :
  store b !! l = Some e ->
  assign_obj prop l f b = (Ok tt, mkErrorBag (alter f l (store b)) (items b)).
Proof.
  intros H. unfold assign_obj.
  rewrite (bind_ok _ _ _ _ _ (deref_ok prop l b e H)). reflexivity.
Qed.

Lemma regenerate_loop d its : forall st its0,
  (forall l, In l its -> l < length st) ->
  forEach (fun l =>
    let* i := deref "regenerate" l in
    assign_obj "msg" l
      (set_msg (match fe_regenerate i with
                | Some g => g d
                | None => fe_msg i
                end))) its (mkErrorBag st its0)
  = (Ok tt, mkErrorBag (fold_left (regen_step d) its st) its0).
Proof.
  induction its as [|l its IH]; intros st its0 Hlt; simpl.
  - reflexivity.
  - assert (Hl : l < length st) by (apply Hlt; now left).
    destruct (lookup_lt_is_Some_2 st l Hl) as [e He].
    erewrite bind_ok.
    2:{ erewrite bind_ok by (apply deref_ok; simpl; exact He).
        apply assign_obj_ok with (e := e). exact He. }
    simpl.
    replace (alter _ l st) with (regen_step d st l).
    + apply IH. intros l' Hl'. unfold regen_step. rewrite length_alter.
      apply Hlt. now right.
    + unfold regen_step. apply list_alter_ext; [|reflexivity].
      intros x Hx. rewrite He in Hx. now inversion Hx.
Qed.

Lemma regenerated_idem d e : regenerated d (regenerated d e) = regenerated d e.
Proof. unfold regenerated. destruct e as [? ? ? ? ? ? [g|]]; reflexivity. Qed.

Lemma regen_fold_length d its : forall st,
  length (fold_left (regen_step d) its st) = length st.
Proof.
  induction its as [|l its IH]; intros st; simpl; [reflexivity|].
  rewrite IH. apply length_alter.
Qed.

Lemma regen_fold_not_in d its : forall st l,
  ~ In l its -> fold_left (regen_step d) its st !! l = st !! l.
Proof.
  induction its as [|x its IH]; intros st l Hn; simpl; [reflexivity|].
  rewrite IH by (intros H; apply Hn; now right).
  unfold regen_step. apply list_lookup_alter_ne. intros ->. apply Hn. now left.
Qed.

Lemma regen_fold_fixed d its : forall st l e,
  st !! l = Some (regenerated d e) ->
  fold_left (regen_step d) its st !! l = Some (regenerated d e).
Proof.
  induction its as [|x its IH]; intros st l e H; simpl; [exact H|].
  apply IH. unfold regen_step.
  destruct (Nat.eq_dec x l) as [->|Hne].
  - rewrite list_lookup_alter_eq, H. simpl. now rewrite regenerated_idem.
  - now rewrite list_lookup_alter_ne.
Qed.

Lemma regen_fold_in d its : forall st l e,
  In l its -> st !! l = Some e ->
  fold_left (regen_step d) its st !! l = Some (regenerated d e).
Proof.
  induction its as [|x its IH]; intros st l e Hin H; simpl; [destruct Hin|].
  destruct (Nat.eq_dec x l) as [->|Hne].
  - apply regen_fold_fixed. unfold regen_step.
    now rewrite list_lookup_alter_eq, H.
  - destruct Hin as [->|Hin]; [congruence|].
    apply IH; [exact Hin|]. unfold regen_step. now rewrite list_lookup_alter_ne.
Qed.

Lemma set_msg_same e : set_msg (fe_msg e) e = e.
Proof. now destruct e. Qed.

Lemma opt_eqb_eq a b : opt_eqb a b = true <-> a = b.
Proof.
  destruct a as [x|], b as [y|]; simpl; try (split; congruence).
  rewrite String.eqb_eq. split; congruence.
Qed.

Lemma opt_eqb_neq a b : opt_eqb a b = false <-> a <> b.
Proof.
  rewrite <- opt_eqb_eq. destruct (opt_eqb a b); split; congruence.
Qed.

Lemma add_old_run field msg rule scope b :
  add (AddOld field msg rule scope) b
  = (Ok tt, mkErrorBag (store b ++ [mkFieldError None None field msg rule scope None])
                       (items b ++ [length (store b)])).
Proof.
  cbv [add bind alloc ret _normalizeError assign_obj deref modify push set_items].
  simpl. rewrite list_lookup_middle by reflexivity. simpl.
  f_equal. f_equal.
  apply list_eq. intros i.
  destruct (Nat.eq_dec i (length (store b))) as [->|Hne].
  - rewrite list_lookup_alter_eq. now rewrite list_lookup_middle by reflexivity.
  - now rewrite list_lookup_alter_ne by congruence.
Qed.

Lemma regenerate_run d b :
  bag_wf b ->
  regenerate d b = (Ok tt, mkErrorBag (fold_left (regen_step d) (items b) (store b)) (items b)).
Proof.
  intros Hwf. unfold regenerate, bind, gets. destruct b as [st its]. simpl.
  apply regenerate_loop. exact Hwf.
Qed.

(** *** The selector expression at some inputs *)

Example selector_scope_name_rule :
  selector_groups "signup.password:min" = Some (Some "signup.", "password", Some ":min")
  /\ parsed_selector "signup.password:min" = Some (Some "signup", "password", Some "min").
Proof. split; reflexivity. Qed.

Example selector_name_only :
  parsed_selector "email" = Some (None, "email", None).
Proof. reflexivity. Qed.

Example selector_dotted_name :
  parsed_selector "a.b.c" = Some (Some "a", "b.c", None).
Proof. reflexivity. Qed.

Example selector_trailing_dot :
  parsed_selector "abc." = Some (None, "abc.", None).
Proof. reflexivity. Qed.

Example selector_id_with_rule :
  parsed_selector "#12:min" = Some (None, "12", Some "min").
Proof. reflexivity. Qed.

Example selector_without_name_characters :
  selector_groups "#" = None /\ selector_groups EmptyString = None.
Proof. split; reflexivity. Qed.

(** *** [update] *)

Lemma find_item_found prop p b : forall pre l post e,
  store b !! l = Some e -> p e = true ->
  (forall l', In l' pre -> exists e', store b !! l' = Some e' /\ p e' = false) ->
  find_item prop p (pre ++ l :: post) b = (Ok (Some l), b).
Proof.
  induction pre as [|x pre IH]; intros l post e He Hp Hpre; simpl.
  - erewrite bind_ok by (apply deref_ok; exact He). now rewrite Hp.
  - destruct (Hpre x (or_introl eq_refl)) as (e' & He' & Hp').
    erewrite bind_ok by (apply deref_ok; exact He'). rewrite Hp'.
    apply IH with (e := e); auto. intros l' Hl'. apply Hpre. now right.
Qed.

Lemma find_item_none prop p b : forall its,
  (forall l, In l its -> exists e, store b !! l = Some e /\ p e = false) ->
  find_item prop p its b = (Ok None, b).
Proof.
  induction its as [|x its IH]; intros H; simpl; [reflexivity|].
  destruct (H x (or_introl eq_refl)) as (e & He & Hp).
  erewrite bind_ok by (apply deref_ok; exact He). rewrite Hp.
  apply IH. intros l Hl. apply H. now right.
Qed.

Lemma indexOf_middle : forall pre l post,
  ~ In l pre -> indexOf (pre ++ l :: post) l = Some (length pre).
Proof.
  induction pre as [|x pre IH]; intros l post Hn; simpl.
  - now rewrite Nat.eqb_refl.
  - destruct (Nat.eqb_spec x l) as [->|Hne].
    + exfalso. apply Hn. now left.
    + rewrite IH; [reflexivity|]. intros H. apply Hn. now right.
Qed.

Lemma delete_at_middle {A : Type} (pre : list A) x post :
  delete (length pre) (pre ++ x :: post) = pre ++ post.
Proof. induction pre as [|y pre IH]; simpl; [reflexivity|]. now rewrite IH. Qed.

(** C9. When the bag holds an error with the given id, [update] takes the
    first such error out of its place, sets its scope to the new one and
    appends it at the end: the object then has the new scope and its id,
    component, field name, message, rule and regenerate closure as before.
    Every other error object is unchanged and the other items keep their
    order.  When no error has the id, the bag is left as it is. *)
Theorem update_relocates_first (id : string) (sc : option string) (b : ErrorBag) :
  bag_wf b ->
  (forall pre l post e,
      items b = pre ++ l :: post ->
      store b !! l = Some e ->
      fe_id e = Some id ->
      (forall l' e', In l' pre -> store b !! l' = Some e' -> fe_id e' <> Some id) ->
      exists b',
        update id sc b = (Ok tt, b')
        /\ items b' = pre ++ post ++ [l]
        /\ store b' !! l
           = Some (mkFieldError (fe_id e) (fe_vmId e) (fe_field e) (fe_msg e) (fe_rule e)
                                sc (fe_regenerate e))
        /\ length (store b') = length (store b)
        /\ (forall l', l' <> l -> store b' !! l' = store b !! l'))
  /\ ((forall l e, In l (items b) -> store b !! l = Some e -> fe_id e <> Some id) ->
      update id sc b = (Ok tt, b)).
Proof.
  intros Hwf. split.
  - intros pre l post e Hits He Hid Hpre.
    assert (Hderef : forall l', In l' pre ->
              exists e', store b !! l' = Some e'
                         /\ opt_eqb (fe_id e') (Some id) = false).
    { intros l' Hl'.
      assert (Hlt : l' < length (store b)).
      { apply Hwf. rewrite Hits. apply in_or_app. now left. }
      destruct (lookup_lt_is_Some_2 _ _ Hlt) as [e' He'].
      exists e'. split; [exact He'|]. apply opt_eqb_neq. now apply (Hpre l' e'). }
    assert (Hnotin : ~ In l pre).
    { intros Hin. destruct (Hderef l Hin) as (e' & He' & Hn).
      rewrite He in He'. inversion He'; subst e'.
      apply opt_eqb_neq in Hn. contradiction. }
    exists (mkErrorBag (alter (set_scope sc) l (store b)) (pre ++ post ++ [l])).
    split; [|split; [reflexivity|split; [|split]]].
    + unfold update.
      rewrite (bind_ok _ _ b (items b) b) by reflexivity. cbv beta. rewrite Hits.
      erewrite bind_ok.
      2:{ apply find_item_found with (e := e); eauto. apply opt_eqb_eq. exact Hid. }
      cbv beta iota. rewrite indexOf_middle by exact Hnotin.
      cbv [bind modify push assign_obj deref set_items splice1]. simpl.
      rewrite He. simpl. rewrite Hits, delete_at_middle.
      now rewrite <- app_assoc.
    + simpl. now rewrite list_lookup_alter_eq, He.
    + simpl. apply length_alter.
    + intros l' Hne. simpl. now rewrite list_lookup_alter_ne by congruence.
  - intros Hnone. unfold update.
    rewrite (bind_ok _ _ b (items b) b) by reflexivity.
    cbv beta. rewrite (bind_ok _ _ b None b); [reflexivity|]. apply find_item_none.
    intros l Hl.
    destruct (lookup_lt_is_Some_2 _ _ (Hwf l Hl)) as [e He].
    exists e. split; [exact He|]. apply opt_eqb_neq. now apply (Hnone l e).
Qed.

Lemma sample_bag_wf : bag_wf sample_bag.
Proof. intros l [<-|[<-|[<-|[]]]]; simpl; lia. Qed.

Lemma update_relocates_first_witness :
  bag_wf sample_bag
  /\ (exists b', update "1" (Some "signup") sample_bag = (Ok tt, b')
                 /\ items b' = [] ++ [1; 2] ++ [0]
                 /\ store b' !! 0
                    = Some (mkFieldError (Some "1") None "email"
                              "The email field is required." (Some "required")
                              (Some "signup") None)
                 /\ length (store b') = length (store sample_bag)
                 /\ (forall l', l' <> 0 -> store b' !! l' = store sample_bag !! l'))
  /\ update "9" (Some "signup") sample_bag = (Ok tt, sample_bag).
Proof.
  pose proof (update_relocates_first "1" (Some "signup") sample_bag sample_bag_wf) as [H1 _].
  pose proof (update_relocates_first "9" (Some "signup") sample_bag sample_bag_wf) as [_ H9].
  split; [exact sample_bag_wf|split].
  - apply (H1 [] 0 [1; 2] sample_email); try reflexivity.
    intros l' e' [].
  - apply H9. intros l e [<-|[<-|[<-|[]]]] He; inversion He; discriminate.
Defined.

(** *** [regenerate] *)

(** C10. [regenerate] sets the message of each stored error to what its
    regenerate closure returns when it has a callable one, and leaves the
    error as it is otherwise: the object then has that message and its id,
    component, field name, rule, scope and regenerate closure as before.
    The items, their number and order stay the same, and objects outside
    the bag are not touched.  An error added through the old signature of [add] has
    [regenerate = null] and keeps its message. *)
Theorem regenerate_rewrites_only_msg (d : Dictionary) (b : ErrorBag) :
  bag_wf b ->
  exists st',
    regenerate d b = (Ok tt, mkErrorBag st' (items b))
    /\ length st' = length (store b)
    /\ (forall l e g, In l (items b) -> store b !! l = Some e ->
          fe_regenerate e = Some g ->
          st' !! l = Some (mkFieldError (fe_id e) (fe_vmId e) (fe_field e) (g d)
                                        (fe_rule e) (fe_scope e) (fe_regenerate e)))
    /\ (forall l e, In l (items b) -> store b !! l = Some e ->
          fe_regenerate e = None -> st' !! l = Some e)
    /\ (forall l, ~ In l (items b) -> st' !! l = store b !! l)
    /\ (forall field msg rule scope,
          let legacy := mkFieldError None None field msg rule scope None in
          exists b1 b2,
            add (AddOld field msg rule scope) b = (Ok tt, b1)
            /\ items b1 = items b ++ [length (store b)]
            /\ store b1 !! length (store b) = Some legacy
            /\ regenerate d b1 = (Ok tt, b2)
            /\ items b2 = items b1
            /\ store b2 !! length (store b) = Some legacy).
Proof.
  intros Hwf.
  exists (fold_left (regen_step d) (items b) (store b)).
  split; [now apply regenerate_run|].
  split; [apply regen_fold_length|].
  split; [|split; [|split]].
  - intros l e g Hin He Hg.
    rewrite (regen_fold_in d _ _ l e Hin He). unfold regenerated, set_msg.
    now rewrite Hg.
  - intros l e Hin He Hg.
    rewrite (regen_fold_in d _ _ l e Hin He). unfold regenerated. rewrite Hg.
    now rewrite set_msg_same.
  - intros l Hn. now apply regen_fold_not_in.
  - intros field msg rule scope legacy.
    set (b1 := mkErrorBag (store b ++ [legacy]) (items b ++ [length (store b)])).
    assert (Hwf1 : bag_wf b1).
    { intros l Hl. unfold b1 in *; simpl in *. rewrite length_app; simpl.
      apply in_app_or in Hl as [Hl|[<-|[]]]; [apply Hwf in Hl|]; lia. }
    exists b1, (mkErrorBag (fold_left (regen_step d) (items b1) (store b1)) (items b1)).
    split; [apply add_old_run|].
    split; [reflexivity|].
    assert (Hl : store b1 !! length (store b) = Some legacy).
    { unfold b1; simpl. now rewrite list_lookup_middle. }
    split; [exact Hl|].
    split; [now apply regenerate_run|].
    split; [reflexivity|].
    simpl. rewrite (regen_fold_in d _ _ _ legacy); [reflexivity| |exact Hl].
    apply in_or_app. right. now left.
Qed.

Lemma regenerate_rewrites_only_msg_witness :
  bag_wf sample_bag
  /\ exists st',
       regenerate sample_dict sample_bag = (Ok tt, mkErrorBag st' [0; 1; 2])
       /\ st' !! 1
          = Some (mkFieldError (Some "2") None "a.b" "a.b is too short (en)" (Some "min") None
                    (Some (fun d => "a.b is too short (" +:+ locale d +:+ ")")))
       /\ st' !! 0 = Some sample_email.
Proof.
  split; [exact sample_bag_wf|].
  destruct (regenerate_rewrites_only_msg sample_dict sample_bag sample_bag_wf)
    as (st' & Hrun & _ & Hcall & Hnot & _).
  exists st'. split; [exact Hrun|split].
  - apply (Hcall 1 sample_dotted (fun d => "a.b is too short (" +:+ locale d +:+ ")"));
      [right; now left|reflexivity|reflexivity].
  - apply (Hnot 0 sample_email); [now left|reflexivity|reflexivity].
Defined.

(** *** [_match] and [first] *)

Lemma find_snoc {A : Type} (p : A -> bool) (l : list A) (x : A) :
  List.find p (l ++ [x])
  = match List.find p l with
    | Some y => Some y
    | None => if p x then Some x else None
    end.
Proof.
  induction l as [|y l IH]; simpl; [reflexivity|].
  destruct (p y); [reflexivity|exact IH].
Qed.

Lemma find_ext {A : Type} (p q : A -> bool) (l : list A) :
  (forall x, p x = q x) -> List.find p l = List.find q l.
Proof.
  intros H. induction l as [|y l IH]; simpl; [reflexivity|].
  rewrite H, IH. reflexivity.
Qed.

Lemma match_reduce_has_primary P A p : forall its a b,
  its <> [] ->
  match_reduce (Some P) (Some A) its (mkPrev (Some p) a) b
  = (Ok (MatchValue (Some p)), b).
Proof.
  induction its as [|x its IH]; intros a b Hne; [congruence|].
  simpl. destruct its as [|y its]; [reflexivity|].
  apply IH. discriminate.
Qed.

Lemma match_reduce_no_primary P A : forall its a b,
  its <> [] ->
  (forall l, In l its -> l < length (store b)) ->
  match_reduce (Some P) (Some A) its (mkPrev None a) b
  = (Ok (MatchValue
           match List.find (obj_sat b P) its with
           | Some l => Some l
           | None =>
               match List.find (obj_sat b A) (rev its) with
               | Some l => Some l
               | None => a
               end
           end), b).
Proof.
  induction its as [|x its IH]; intros a b Hne Hlt; [congruence|].
  assert (Hx : x < length (store b)) by (apply Hlt; now left).
  destruct (lookup_lt_is_Some_2 _ _ Hx) as [e He].
  cbn [match_reduce primary]. 
  rewrite (bind_ok _ _ b (Some e) b) by (unfold gets; now rewrite He).
  cbn [call reading alt primary rev].
  rewrite find_snoc. cbn [List.find].
  unfold obj_sat at 1 4. rewrite He.
  destruct its as [|y its].
  - cbn [negb rev List.find app].
    destruct (P e), (A e); reflexivity.
  - cbn [negb].
    destruct (P e) eqn:HP.
    + destruct (A e); cbn [primary]; apply match_reduce_has_primary; discriminate.
    + assert (Hlt' : forall l, In l (y :: its) -> l < length (store b)).
      { intros l Hl. apply Hlt. now right. }
      destruct (A e) eqn:HA; cbn [primary alt];
        rewrite IH by (auto; discriminate);
        destruct (List.find (obj_sat b P) (y :: its)); try reflexivity;
        destruct (List.find (obj_sat b A) (rev (y :: its))); reflexivity.
Qed.

Lemma candidate_filters_run sel scope name rule :
  startsWith_hash sel = false ->
  parsed_selector sel = Some (scope, name, rule) ->
  exists isP isA,
    _makeCandidateFilters sel = Ok (Candidates isP isA)
    /\ (forall e, isP e = primary_pred scope name rule e)
    /\ (forall e, isA e = alt_pred scope name rule e).
Proof.
  intros Hhash Hparse. unfold parsed_selector in Hparse.
  unfold _makeCandidateFilters.
  destruct (selector_groups sel) as [[[sc nm] rl]|]; [|discriminate].
  inversion Hparse; subst scope name rule. rewrite Hhash.
  eexists _, _. split; [reflexivity|]. split.
  - intros e. unfold primary_pred, rule_matches.
    destruct sc as [sc|], rl as [rl|]; simpl;
      destruct (String.eqb (fe_field e) nm);
      destruct (opt_eqb (fe_scope e) _); simpl;
      try destruct (opt_eqb (fe_rule e) _); reflexivity.
  - intros e. unfold alt_pred, rule_matches.
    destruct sc as [sc|], rl as [rl|]; simpl;
      rewrite ?andb_true_r; try apply andb_comm; reflexivity.
Qed.

Lemma two_tier_unfold P A b :
  two_tier P A b
  = match List.find (obj_sat b P) (items b) with
    | Some l => Some l
    | None =>
        match List.find (obj_sat b A) (rev (items b)) with
        | Some l => Some l
        | None => None
        end
    end.
Proof.
  unfold two_tier, earliest, latest.
  destruct (List.find (obj_sat b P) (items b)); [reflexivity|].
  destruct (List.find (obj_sat b A) (rev (items b))); reflexivity.
Qed.

Lemma find_sat_lookup b P its l :
  List.find (obj_sat b P) its = Some l -> exists e, store b !! l = Some e.
Proof.
  intros H. apply find_some in H as [_ H]. unfold obj_sat in H.
  destruct (store b !! l) as [e|]; [now exists e|discriminate].
Qed.

Lemma two_tier_lookup P A b l :
  two_tier P A b = Some l -> exists e, store b !! l = Some e.
Proof.
  rewrite two_tier_unfold.
  destruct (List.find (obj_sat b P) (items b)) as [x|] eqn:HP.
  - intros [= <-]. now apply find_sat_lookup in HP.
  - destruct (List.find (obj_sat b A) (rev (items b))) as [x|] eqn:HA; [|discriminate].
    intros [= <-]. now apply find_sat_lookup in HA.
Qed.

(** C7, as amended.  For a selector that does not begin with [#] and that
    the selector expression parses into scope, name and rule, [_match] and
    [first] choose the earliest item, in insertion order, with exactly that
    scope (no scope when the selector has none), exactly that name, and that
    rule if one is given; failing that, the latest item whose field name is
    literally [scope.name] and whose rule is the given one if one is given;
    failing that, nothing: [_match] gives undefined (the empty accumulator
    object on an empty bag) and [first] gives undefined.  The bag is not
    changed. *)
Theorem first_is_two_tier (sel : string) (scope : option string) (name : string)
  (rule : option string) (b : ErrorBag) :
  bag_wf b ->
  startsWith_hash sel = false ->
  parsed_selector sel = Some (scope, name, rule) ->
  let chosen := two_tier (primary_pred scope name rule) (alt_pred scope name rule) b in
  _match (Some sel) b
  = (Ok (match items b with
         | [] => MatchPrev (mkPrev None None)
         | _ :: _ => MatchValue chosen
         end), b)
  /\ (forall field sc, first_selector field sc = Some sel ->
        first field sc b = (Ok (msg_at b chosen), b)).
Proof.
  intros Hwf Hhash Hparse chosen.
  destruct (candidate_filters_run sel scope name rule Hhash Hparse)
    as (isP & isA & Hrun & HP & HA).
  assert (Hm : _match (Some sel) b
               = (Ok (match items b with
                      | [] => MatchPrev (mkPrev None None)
                      | _ :: _ => MatchValue chosen
                      end), b)).
  { unfold _match. rewrite Hrun.
    rewrite (bind_ok _ _ b (items b) b) by reflexivity. cbn [get_isPrimary get_isAlt].
    destruct (items b) as [|x its] eqn:Hits; [reflexivity|].
    rewrite match_reduce_no_primary.
    - unfold chosen. rewrite two_tier_unfold, Hits.
      rewrite (find_ext (obj_sat b isP) (obj_sat b (primary_pred scope name rule))).
      2:{ intros l. unfold obj_sat. destruct (store b !! l); auto. }
      rewrite (find_ext (obj_sat b isA) (obj_sat b (alt_pred scope name rule))).
      2:{ intros l. unfold obj_sat. destruct (store b !! l); auto. }
      reflexivity.
    - discriminate.
    - intros l Hl. apply Hwf. now rewrite Hits. }
  split; [exact Hm|].
  intros field sc Hsel. unfold first. rewrite Hsel.
  erewrite bind_ok by exact Hm.
  destruct (items b) as [|x its] eqn:Hits.
  - unfold chosen. rewrite two_tier_unfold, Hits. reflexivity.
  - destruct chosen as [l|] eqn:Hc; [|reflexivity].
    destruct (two_tier_lookup _ _ _ _ Hc) as [e He].
    erewrite bind_ok by (apply deref_ok; exact He).
    simpl. now rewrite He.
Qed.

Lemma first_is_two_tier_witness :
  bag_wf sample_bag
  /\ startsWith_hash "a.b" = false
  /\ parsed_selector "a.b" = Some (Some "a", "b", None)
  /\ _match (Some "a.b") sample_bag = (Ok (MatchValue (Some 2)), sample_bag)
  /\ first (Some "b") (Some "a") sample_bag
     = (Ok (Some "The b field is too short."), sample_bag).
Proof.
  destruct (first_is_two_tier "a.b" (Some "a") "b" None sample_bag
              sample_bag_wf eq_refl eq_refl) as [Hm Hf].
  split; [exact sample_bag_wf|].
  split; [reflexivity|]. split; [reflexivity|].
  split; [exact Hm|exact (Hf (Some "b") (Some "a") eq_refl)].
Defined.

(** C7 as worded fails: with the selector [a.b:required] and a bag whose only
    error has the field name [a.b] and the rule [min], no item has scope [a],
    name [b] and rule [required], and the item's field name is literally
    [a.b]; the two-tier choice with that alt predicate is the item, but
    [first] and [_match] find nothing. *)
Lemma first_alt_checks_rule_counterexample :
  let b := mkErrorBag [sample_dotted] [0] in
  earliest (primary_pred (Some "a") "b" (Some "required")) b = None
  /\ two_tier (primary_pred (Some "a") "b" (Some "required")) (literal_alt "a" "b") b
     = Some 0
  /\ _match (Some "a.b:required") b = (Ok (MatchValue None), b)
  /\ first (Some "b:required") (Some "a") b = (Ok None, b).
Proof. repeat split. Qed.

(** A selector with no character of [[\w-.]] makes the query throw. *)
Lemma first_unparsable_selector_throws :
  first (Some "!") None sample_bag = (Throw not_iterable, sample_bag).
Proof. reflexivity. Qed.

(** *** Selectors beginning with [#] *)

Lemma id_selector_filters sel :
  startsWith_hash sel = true ->
  forall fs, _makeCandidateFilters sel = Ok fs ->
  get_isPrimary fs = None /\ get_isAlt fs = None.
Proof.
  intros Hhash fs. unfold _makeCandidateFilters.
  destruct (selector_groups sel) as [[[sc nm] rl]|]; [|discriminate].
  rewrite Hhash. intros [= <-]. split; reflexivity.
Qed.

(** On a bag that is not empty, a query with a [#] selector throws. *)
Lemma id_selector_throws sel b :
  startsWith_hash sel = true ->
  items b <> [] ->
  exists e,
    fst (_match (Some sel) b) = Throw e
    /\ fst (remove (Some sel) None b) = Throw e
    /\ (sel <> EmptyString -> fst (collect (Some sel) None true b) = Throw e)
    /\ snd (_match (Some sel) b) = b.
Proof.
  intros Hhash Hne.
  assert (Hc : forall m, sel <> EmptyString ->
             collect (Some sel) None m b
             = match _makeCandidateFilters sel with
               | Throw e => throw e b
               | Ok fs => (let* its := gets items in
                           let* es := collect_matching (get_isPrimary fs) m its [] in
                           ret (Listed es)) b
               end).
  { intros m Hs. unfold collect. destruct sel; [congruence|].
    destruct (_makeCandidateFilters _); reflexivity. }
  unfold _match, remove.
  destruct (_makeCandidateFilters sel) as [fs|e] eqn:Hf.
  - destruct (id_selector_filters sel Hhash fs Hf) as [HP HA].
    exists (TypeError "isPrimary is not a function").
    destruct (items b) as [|x its] eqn:Hits; [congruence|].
    repeat split.
    + rewrite (bind_ok _ _ b (items b) b) by reflexivity. rewrite Hits, HP. reflexivity.
    + rewrite (bind_ok _ _ b (items b) b) by reflexivity. rewrite Hits, HP. reflexivity.
    + intros Hs. rewrite (Hc true Hs).
      rewrite (bind_ok _ _ b (items b) b) by reflexivity. rewrite Hits, HP. reflexivity.
    + rewrite (bind_ok _ _ b (items b) b) by reflexivity. rewrite Hits, HP. reflexivity.
  - exists e. repeat split. intros Hs. now rewrite (Hc true Hs).
Qed.

(** C8 at a failing input.  The bag holds one error with id [1], and the
    selector is [#1], whose text after [#] begins with that id.  [first],
    [collect] and [remove] all throw a TypeError instead of selecting the
    error, and the bag is left as it was. *)
Theorem id_selector_queries_throw :
  let b := mkErrorBag [sample_email] [0] in
  id_test "#1" sample_email = true
  /\ first (Some "#1") None b = (Throw (TypeError "isPrimary is not a function"), b)
  /\ collect (Some "#1") None true b
     = (Throw (TypeError "isPrimary is not a function"), b)
  /\ remove (Some "#1") None b = (Throw (TypeError "isPrimary is not a function"), b).
Proof. repeat split. Qed.

(** ** Validator: lemmas *)

Lemma then_ret {S A B : Type} (p : Promise A) (f : A -> B) (s : S) :
  then_ p (fun a => ret (f a)) s = (Ok (promise_map f p), s).
Proof. destruct p; reflexivity. Qed.

Lemma fulfilled_no_rejection {A : Type} (ps : list (Promise A)) (vs : list A) :
  fulfilled ps = Some vs -> first_rejection ps = None /\ fulfilled_values ps = vs.
Proof.
  revert vs. induction ps as [|[a|t e] ps IH]; intros vs H; simpl in *.
  - injection H as <-. split; reflexivity.
  - destruct (fulfilled ps) as [l|]; [|discriminate]. injection H as <-.
    destruct (IH l eq_refl) as [-> ->]. split; reflexivity.
  - discriminate.
Qed.

Lemma first_rejection_none {A : Type} (ps : list (Promise A)) :
  first_rejection ps = None -> forall t e, ~ In (Rejected t e) ps.
Proof.
  induction ps as [|[a|t0 e0] ps IH]; simpl; intros H t e.
  - intros [].
  - intros [Heq|Hin]; [discriminate|]. exact (IH H t e Hin).
  - destruct (first_rejection ps) as [[t1 e1]|]; [|discriminate].
    destruct (Nat.ltb t1 t0); discriminate.
Qed.

Lemma first_rejection_least {A : Type} (ps : list (Promise A)) (t : nat) (e : Exn) :
  first_rejection ps = Some (t, e) ->
  In (Rejected t e) ps /\ forall t' e', In (Rejected t' e') ps -> t <= t'.
Proof.
  revert t e. induction ps as [|[a|t0 e0] ps IH]; simpl; intros t e H.
  - discriminate.
  - destruct (IH t e H) as [Hin Hmin]. split; [now right|].
    intros t' e' [Heq|Hin']; [discriminate|]. now apply (Hmin t' e').
  - destruct (first_rejection ps) as [[t1 e1]|] eqn:Hr.
    + destruct (IH t1 e1 eq_refl) as [Hin Hmin].
      destruct (Nat.ltb t1 t0) eqn:Hlt; injection H as <- <-.
      * apply Nat.ltb_lt in Hlt. split; [now right|].
        intros t' e' [Heq|Hin']; [injection Heq as <- _; lia|now apply (Hmin t' e')].
      * apply Nat.ltb_ge in Hlt. split; [now left|].
        intros t' e' [Heq|Hin']; [injection Heq as <- _; lia|].
        specialize (Hmin t' e' Hin'). lia.
    + injection H as <- <-. split; [now left|].
      intros t' e' [Heq|Hin']; [injection Heq as <- _; lia|].
      destruct (first_rejection_none ps Hr t' e' Hin').
Qed.

Lemma rejected_first_rejection {A : Type} (ps : list (Promise A)) :
  fulfilled ps = None -> exists t e, first_rejection ps = Some (t, e).
Proof.
  induction ps as [|[a|t0 e0] ps IH]; simpl; intros H.
  - discriminate.
  - destruct (fulfilled ps) as [l|]; [discriminate|]. now apply IH.
  - destruct (first_rejection ps) as [[t1 e1]|]; [|now eauto].
    destruct (Nat.ltb t1 t0); eauto.
Qed.

Lemma Promise_all_fulfilled {A : Type} (ps : list (Promise A)) (vs : list A) :
  fulfilled ps = Some vs -> Promise_all ps = Resolved vs.
Proof.
  intros H. destruct (fulfilled_no_rejection ps vs H) as [Hn Hv].
  unfold Promise_all. now rewrite Hn, Hv.
Qed.

Lemma Promise_all_rejected {A : Type} (ps : list (Promise A)) :
  fulfilled ps = None ->
  exists t e,
    Promise_all ps = Rejected (S t) e
    /\ In (Rejected t e) ps
    /\ forall t' e', In (Rejected t' e') ps -> t <= t'.
Proof.
  intros H. destruct (rejected_first_rejection ps H) as (t & e & Hr).
  exists t, e. unfold Promise_all. rewrite Hr. split; [reflexivity|].
  now apply first_rejection_least.
Qed.

(** What the promise of [_validate] is when no rule stopped the pass. *)
Lemma aggregate_settles (field : Field) (ps : list (Promise TestResult)) :
  match fulfilled ps with
  | Some results =>
      promise_map (aggregate field) (Promise_all ps) = Resolved (aggregate field results)
  | None =>
      exists t e t0,
        promise_map (aggregate field) (Promise_all ps) = Rejected t e
        /\ In (Rejected t0 e) ps
  end.
Proof.
  destruct (fulfilled ps) as [results|] eqn:Hf.
  - now rewrite (Promise_all_fulfilled ps results Hf).
  - destruct (Promise_all_rejected ps Hf) as (t & e & Hall & Hin & _).
    exists (S (S t)), e, t. rewrite Hall. split; [reflexivity|exact Hin].
Qed.

Lemma add_calls_nil st : add_calls [] st = st.
Proof. destruct st. unfold add_calls; simpl. now rewrite app_nil_r. Qed.

Lemma add_calls_app cs1 cs2 st :
  add_calls cs2 (add_calls cs1 st) = add_calls (cs1 ++ cs2) st.
Proof. unfold add_calls; simpl. now rewrite app_assoc. Qed.

Lemma bail_active_add_calls field cs st :
  bail_active field (add_calls cs st) = bail_active field st.
Proof. reflexivity. Qed.

Lemma shouldBail_run field st : _shouldBail field st = (Ok (bail_active field st), st).
Proof. unfold _shouldBail, bail_active. destruct (f_bails field); reflexivity. Qed.

Section ScanLemmas.

Variable RULES : gmap string Rule.
Variable dict : Dictionary.
Variable field : Field.
Variable value : JsValue.

Lemma test_run rule st :
  _test RULES dict field value (rule_arg RULES field rule) st
  = (Ok (test_outcome RULES dict field value rule),
     add_calls (test_calls RULES dict field value rule) st).
Proof.
  unfold _test, test_outcome, test_calls.
  change (r_name (rule_arg RULES field rule)) with rule.
  destruct (RULES !! rule) as [entry|] eqn:Hr.
  - destruct (test_params dict field (rule_arg RULES field rule)) as [targetName params].
    cbn [snd].
    erewrite bind_ok by reflexivity. cbv beta.
    destruct (validate_fn entry value params) as [o|p].
    + reflexivity.
    + erewrite bind_ok by apply then_ret. reflexivity.
  - unfold ret. now rewrite add_calls_nil.
Qed.

Lemma scan_run : forall rules promises errs st,
  bail_active field st = true ->
  scan RULES dict field value rules promises errs st
  = (Ok (promises ++ List.map (awaited RULES dict field value)
                              (before_failure RULES dict field value rules),
         errs ++ match List.find (fails_now RULES dict field value) rules with
                 | Some a => errors_now RULES dict field value a
                 | None => []
                 end,
         existsb (fails_now RULES dict field value) rules),
     add_calls (flat_map (test_calls RULES dict field value) (tested RULES dict field value rules)) st).
Proof.
  induction rules as [|r rules IH]; intros promises errs st Hbail.
  - simpl. unfold ret, tested. simpl. now rewrite !app_nil_r, add_calls_nil.
  - cbn [scan]. erewrite bind_ok by apply test_run. cbv beta.
    unfold tested at 1. cbn [before_failure List.find existsb].
    destruct (test_outcome RULES dict field value r) as [res|p] eqn:Hout.
    + assert (Hf : fails_now RULES dict field value r = negb (t_valid res))
        by (unfold fails_now; now rewrite Hout).
      assert (Ha : awaited RULES dict field value r = Resolved res)
        by (unfold awaited; now rewrite Hout).
      assert (He : errors_now RULES dict field value r = t_errors res)
        by (unfold errors_now; now rewrite Hout).
      rewrite Hf. destruct (t_valid res) eqn:Hv; cbn [negb].
      * erewrite bind_ok by reflexivity. cbv iota.
        rewrite IH by exact Hbail. unfold tested.
        rewrite add_calls_app. cbn [List.map flat_map app orb]. rewrite Ha.
        rewrite <- !app_assoc. reflexivity.
      * erewrite bind_ok by apply shouldBail_run.
        rewrite bail_active_add_calls, Hbail. cbn [List.map flat_map app orb].
        unfold ret. now rewrite He, !app_nil_r.
    + assert (Hf : fails_now RULES dict field value r = false)
        by (unfold fails_now; now rewrite Hout).
      assert (Ha : awaited RULES dict field value r = p)
        by (unfold awaited; now rewrite Hout).
      rewrite Hf. rewrite IH by exact Hbail. unfold tested.
      rewrite add_calls_app. cbn [List.map flat_map app orb]. rewrite Ha.
      rewrite <- !app_assoc. reflexivity.
Qed.

Lemma collect_results_run : forall results valid errs,
  collect_results results
    (mkValidationResult valid errs (f_id field) (f_name field) (f_scope field))
  = mkValidationResult (valid && forallb t_valid results)
      (errs ++ List.concat (List.map t_errors
                 (List.filter (fun r => negb (t_valid r)) results)))
      (f_id field) (f_name field) (f_scope field).
Proof.
  unfold collect_results.
  induction results as [|r results IH]; intros valid errs; simpl.
  - now rewrite andb_true_r, app_nil_r.
  - destruct (t_valid r); simpl; rewrite IH.
    + now rewrite andb_true_r.
    + now rewrite !andb_false_r, <- app_assoc.
Qed.

Lemma find_none_before_failure : forall rules,
  List.find (fails_now RULES dict field value) rules = None ->
  before_failure RULES dict field value rules = rules
  /\ existsb (fails_now RULES dict field value) rules = false.
Proof.
  induction rules as [|r rules IH]; simpl; intros H; [split; reflexivity|].
  destruct (fails_now RULES dict field value r); [discriminate|].
  destruct (IH H) as [-> ->]. split; reflexivity.
Qed.

Lemma find_some_existsb : forall rules a,
  List.find (fails_now RULES dict field value) rules = Some a ->
  existsb (fails_now RULES dict field value) rules = true.
Proof.
  induction rules as [|r rules IH]; simpl; intros a H; [discriminate|].
  destruct (fails_now RULES dict field value r); [reflexivity|]. now apply (IH a).
Qed.

Lemma first_failure_split : forall pre a post,
  (forall r, In r pre -> fails_now RULES dict field value r = false) ->
  fails_now RULES dict field value a = true ->
  List.find (fails_now RULES dict field value) (pre ++ a :: post) = Some a
  /\ before_failure RULES dict field value (pre ++ a :: post) = pre.
Proof.
  induction pre as [|r pre IH]; intros a post Hpre Ha; simpl.
  - rewrite Ha. split; reflexivity.
  - rewrite (Hpre r (or_introl eq_refl)).
    destruct (IH a post) as [-> ->]; auto.
    intros r' Hr'. apply Hpre. now right.
Qed.

(** [_validate] when bail is active and the field is not skipped. *)
Lemma validate_run initial st :
  _shouldSkip field value = false ->
  bail_active field st = true ->
  let rules := selected_rules RULES initial field in
  _validate RULES dict field value initial st
  = (Ok match List.find (fails_now RULES dict field value) rules with
        | Some a =>
            Resolved (mkValidationResult false (errors_now RULES dict field value a)
                        (f_id field) (f_name field) (f_scope field))
        | None =>
            promise_map (aggregate field)
              (Promise_all (List.map (awaited RULES dict field value) rules))
        end,
     add_calls (flat_map (test_calls RULES dict field value) (tested RULES dict field value rules)) st).
Proof.
  intros Hskip Hbail rules. unfold _validate. rewrite Hskip.
  erewrite bind_ok by (apply scan_run; exact Hbail).
  fold rules. cbn [app].
  destruct (List.find (fails_now RULES dict field value) rules) as [a|] eqn:Hfind.
  - rewrite (find_some_existsb _ _ Hfind). reflexivity.
  - destruct (find_none_before_failure _ Hfind) as [-> ->].
    rewrite (then_ret _ (fun results => collect_results results _)).
    f_equal. f_equal.
    destruct (Promise_all _) as [results|e]; [|reflexivity].
    simpl. f_equal. rewrite collect_results_run. reflexivity.
Qed.

End ScanLemmas.

(** ** Validator: the properties *)

Section Properties.

Variable RULES : gmap string Rule.
Variable dict : Dictionary.

Lemma test_calls_rule field value rule c :
  In c (test_calls RULES dict field value rule) -> c_rule c = rule.
Proof.
  unfold test_calls. destruct (RULES !! rule); [|intros []].
  intros [<-|[]]. reflexivity.
Qed.

Lemma fails_now_one_error field value a :
  fails_now RULES dict field value a = true ->
  exists data targetName,
    errors_now RULES dict field value a
    = [_createFieldError dict field (rule_arg RULES field a) data targetName].
Proof.
  unfold fails_now, errors_now, test_outcome.
  destruct (RULES !! a) as [entry|]; [|discriminate].
  destruct (test_params dict field (rule_arg RULES field a)) as [targetName params].
  destruct (validate_fn entry value params) as [o|p]; [|discriminate].
  destruct o as [[|]|[|] data]; simpl; try discriminate; intros _; eauto.
Qed.


(** C4, as amended.  For a field that is not skipped, with bail active, let
    [a] be the first rule of the pass that fails synchronously.  The result
    is invalid with exactly one error, the one for [a]; validate functions
    are called for rules up to [a] only, and for none of the later rules. *)
Theorem bail_stops_at_first_failure (field : Field) (value : JsValue) (initial : bool)
  (st : State) (pre : list string) (a : string) (post : list string) :
  _shouldSkip field value = false ->
  bail_active field st = true ->
  selected_rules RULES initial field = pre ++ a :: post ->
  NoDup (pre ++ a :: post) ->
  (forall r, In r pre -> fails_now RULES dict field value r = false) ->
  fails_now RULES dict field value a = true ->
  exists err cs,
    _validate RULES dict field value initial st
    = (Ok (Resolved (mkValidationResult false [err]
                       (f_id field) (f_name field) (f_scope field))),
       add_calls cs st)
    /\ fe_rule err = Some a
    /\ fe_id err = Some (f_id field)
    /\ (forall c, In c cs -> In (c_rule c) (pre ++ [a]))
    /\ (forall b, In b post -> ~ In b (List.map c_rule cs)).
Proof.
  intros Hskip Hbail Hsel Hnodup Hpre Ha.
  destruct (first_failure_split RULES dict field value pre a post Hpre Ha) as [Hfind Hbefore].
  destruct (fails_now_one_error field value a Ha) as (data & targetName & Herr).
  assert (Hcalls : forall c,
            In c (flat_map (test_calls RULES dict field value) (pre ++ [a])) ->
            In (c_rule c) (pre ++ [a])).
  { intros c Hc. apply in_flat_map in Hc as (r & Hr & Hc).
    now rewrite (test_calls_rule _ _ _ _ Hc). }
  exists (_createFieldError dict field (rule_arg RULES field a) data targetName),
         (flat_map (test_calls RULES dict field value) (pre ++ [a])).
  split; [|split; [reflexivity|split; [reflexivity|split; [exact Hcalls|]]]].
  - rewrite (validate_run RULES dict field value initial st Hskip Hbail).
    unfold tested. rewrite Hsel, Hfind, Hbefore, Herr. reflexivity.
  - intros b Hb Hin. apply in_map_iff in Hin as (c & <- & Hc).
    apply Hcalls in Hc.
    replace (pre ++ a :: post) with ((pre ++ [a]) ++ post) in Hnodup
      by now rewrite <- app_assoc.
    apply NoDup_app in Hnodup as (_ & Hdisj & _).
    apply (Hdisj (c_rule c)).
    + apply list_elem_of_In. exact Hc.
    + apply list_elem_of_In. exact Hb.
Qed.

(** C3, as amended.  A disabled field whose [bails] is not explicitly false
    is skipped whatever the value: the result is valid, without errors, and
    the state is unchanged, so that no validate function is called. *)
Theorem disabled_field_is_skipped (field : Field) (value : JsValue) (initial : bool)
  (st : State) :
  f_isDisabled field = true ->
  f_bails field <> Some false ->
  _validate RULES dict field value initial st
  = (Ok (Resolved (mkValidationResult true [] (f_id field) (f_name field) (f_scope field))),
     st).
Proof.
  intros Hdis Hbails. unfold _validate.
  assert (Hskip : _shouldSkip field value = true).
  { unfold _shouldSkip. rewrite Hdis.
    destruct (f_bails field) as [[|]|]; try reflexivity. congruence. }
  now rewrite Hskip.
Qed.

(** C2, as amended.  When the validate function of a registered rule returns
    a promise fulfilled with an array of outcomes, [_test] gives a promise
    of a result that is valid exactly when every element is; when it is
    not, the one error is built with the empty data object: the data of the
    elements, the first included, is not used. *)
Theorem test_array_outcome (field : Field) (value : JsValue) (rule : RuleArg)
  (entry : Rule) (os : list Outcome) (st : State) :
  RULES !! r_name rule = Some entry ->
  validate_fn entry value (snd (test_params dict field rule))
  = Later (Resolved (SArray os)) ->
  fst (_test RULES dict field value rule st)
  = Ok (TestedLater (Resolved
         (mkTestResult (forallb outcome_valid os)
            (if forallb outcome_valid os then []
             else [_createFieldError dict field rule (Some [])
                     (fst (test_params dict field rule))])))).
Proof.
  intros Hrule Hret. unfold _test. rewrite Hrule.
  destruct (test_params dict field rule) as [targetName params]. cbn [fst snd] in *.
  erewrite bind_ok by reflexivity. cbv beta. rewrite Hret.
  erewrite bind_ok by apply then_ret. reflexivity.
Qed.

Variable global_name : option JsValue.

(** C5.  While the validator is paused, [validate], [validateAll] and
    [validateScopes] return a promise already resolved with true and leave
    the whole state as it is: no validate function is called, no flag is
    written and the error bag is not changed. *)
Theorem paused_validation_is_noop (st : State) :
  paused st = true ->
  (forall descriptor value silent vmId,
      validate RULES dict global_name descriptor value silent vmId st
      = (Ok (Resolved true), st))
  /\ (forall values silent vmId,
        validateAll RULES dict values silent vmId st = (Ok (Resolved true), st))
  /\ (forall silent vmId,
        validateScopes RULES dict silent vmId st = (Ok (Resolved true), st)).
Proof.
  intros Hp. repeat split; intros.
  - unfold validate. rewrite (bind_ok _ _ st true st); [reflexivity|].
    unfold gets. now rewrite Hp.
  - unfold validateAll. rewrite (bind_ok _ _ st true st); [reflexivity|].
    unfold gets. now rewrite Hp.
  - unfold validateScopes. rewrite (bind_ok _ _ st true st); [reflexivity|].
    unfold gets. now rewrite Hp.
Qed.

(** Where the global scope binds [name] (to [n]), a selector of a single
    field that resolves to no field is rejected in strict mode, with a
    message that quotes [n] instead of the selector, and resolves to true
    otherwise; the state is unchanged. *)
Lemma validate_unresolved_with_global_name (n : JsValue) (descriptor : string)
  (value : JsValue) (silent : bool) (vmId : option string) (st : State) :
  global_name = Some n ->
  paused st = false ->
  descriptor <> String star EmptyString ->
  scope_wildcard descriptor = None ->
  _resolveField descriptor None None (fields st) = None ->
  validate RULES dict global_name (Some descriptor) value silent vmId st
  = (Ok (if strict st
         then Rejected 0 (createError
                ("Validating a non-existent field: " +:+ quote +:+ to_string n +:+ quote
                 +:+ ". Use " +:+ quote +:+ "attach()" +:+ quote +:+ " first."))
         else Resolved true), st).
Proof.
  intros Hg Hp Hstar Hwild Hres. unfold validate.
  rewrite (bind_ok _ _ st false st) by (unfold gets; now rewrite Hp).
  apply String.eqb_neq in Hstar. rewrite Hstar, Hwild.
  rewrite (bind_ok _ _ st (fields st) st) by reflexivity.
  rewrite Hres, Hg. unfold _handleFieldNotFound.
  rewrite (bind_ok _ _ st (strict st) st) by reflexivity.
  destruct (strict st); reflexivity.
Qed.

(** Where it does not, the same call throws, in either mode. *)
Lemma validate_unresolved_without_global_name (descriptor : string)
  (value : JsValue) (silent : bool) (vmId : option string) (st : State) :
  global_name = None ->
  paused st = false ->
  descriptor <> String star EmptyString ->
  scope_wildcard descriptor = None ->
  _resolveField descriptor None None (fields st) = None ->
  validate RULES dict global_name (Some descriptor) value silent vmId st
  = (Throw (ReferenceError "name is not defined"), st).
Proof.
  intros Hg Hp Hstar Hwild Hres. unfold validate.
  rewrite (bind_ok _ _ st false st) by (unfold gets; now rewrite Hp).
  apply String.eqb_neq in Hstar. rewrite Hstar, Hwild.
  rewrite (bind_ok _ _ st (fields st) st) by reflexivity.
  now rewrite Hres, Hg.
Qed.

End Properties.

(** ** Validator: the properties at sample inputs *)


(** Which rejection [Promise.all] passes on: [boom] returns a promise that
    is rejected already, but the promise [_test] derives from it is rejected
    only once its reaction has run, while the promise [_test] makes for the
    rule [missing], which is not registered, is rejected from the start; so
    the pass is rejected with the error of [missing], the later rule. *)
Example settled_rejection_is_first :
  let f := sample_field ["boom"; "missing"] None false in
  let st := sample_state [f] in
  awaited racing_rules sample_dict f (VStr "x") "boom" = Rejected 1 (Error "boom")
  /\ awaited racing_rules sample_dict f (VStr "x") "missing"
     = Rejected 0 (createError "No such validator 'missing' exists.")
  /\ fst (_validate racing_rules sample_dict f (VStr "x") false st)
     = Ok (Rejected 2 (createError "No such validator 'missing' exists.")).
Proof. repeat split. Qed.


Lemma sample_rules_nodup : NoDup ["alpha"; "digits"; "min"].
Proof.
  repeat constructor; rewrite ?list_elem_of_In; simpl; intuition discriminate.
Qed.

Lemma bail_stops_at_first_failure_witness :
  let f := sample_field ["alpha"; "digits"; "min"] None false in
  let st := sample_state [f] in
  _shouldSkip f (VStr "x") = false
  /\ bail_active f st = true
  /\ fails_now sample_rules sample_dict f (VStr "x") "digits" = true
  /\ fails_now sample_rules sample_dict f (VStr "x") "min" = true
  /\ exists err cs,
       _validate sample_rules sample_dict f (VStr "x") false st
       = (Ok (Resolved (mkValidationResult false [err] "7" "email" None)), add_calls cs st)
       /\ fe_rule err = Some "digits"
       /\ fe_id err = Some "7"
       /\ (forall c, In c cs -> In (c_rule c) (["alpha"] ++ ["digits"]))
       /\ (forall b, In b ["min"] -> ~ In b (List.map c_rule cs)).
Proof.
  intros f st. repeat (split; [reflexivity|]).
  apply (bail_stops_at_first_failure sample_rules sample_dict f (VStr "x") false st
           ["alpha"] "digits" ["min"]); try reflexivity.
  - exact sample_rules_nodup.
  - intros r [<-|[]]. reflexivity.
Defined.

(** C4 as worded fails for a field that is skipped.  The field is disabled,
    bail is active and both of its rules fail synchronously on the value,
    but validating it records no error. *)
Lemma bail_on_skipped_field_counterexample :
  let f := sample_field ["digits"; "min"] None true in
  let st := sample_state [f] in
  bail_active f st = true
  /\ fails_now sample_rules sample_dict f (VStr "x") "digits" = true
  /\ fails_now sample_rules sample_dict f (VStr "x") "min" = true
  /\ _validate sample_rules sample_dict f (VStr "x") false st
     = (Ok (Resolved (mkValidationResult true [] "7" "email" None)), st).
Proof. repeat split. Qed.

Lemma disabled_field_is_skipped_witness :
  let f := sample_field ["digits"] None true in
  let st := sample_state [f] in
  f_isDisabled f = true
  /\ f_bails f <> Some false
  /\ _validate sample_rules sample_dict f VNull false st
     = (Ok (Resolved (mkValidationResult true [] "7" "email" None)), st).
Proof.
  intros f st. split; [reflexivity|]. split; [discriminate|].
  apply (disabled_field_is_skipped sample_rules sample_dict f VNull false st);
    [reflexivity|discriminate].
Defined.

(** C3 as worded fails for a field whose [bails] is false.  The field is
    disabled, yet its rule is called and the result is invalid with one
    error. *)
Lemma disabled_field_with_bails_false_counterexample :
  let f := sample_field ["digits"] (Some false) true in
  let st := sample_state [f] in
  let run := _validate sample_rules sample_dict f (VStr "x") false st in
  f_isDisabled f = true
  /\ List.map c_rule (calls (snd run)) = ["digits"]
  /\ exists r, fst run = Ok (Resolved r)
               /\ v_valid r = false
               /\ List.map fe_rule (v_errors r) = [Some "digits"].
Proof.
  intros f st run. split; [reflexivity|]. split; [reflexivity|].
  eexists. split; [reflexivity|]. split; reflexivity.
Qed.

Lemma test_array_outcome_witness :
  let f := sample_field ["each"] None false in
  let arg := rule_arg sample_rules f "each" in
  sample_rules !! r_name arg = Some async_array
  /\ fst (_test sample_rules sample_dict f (VStr "x") arg (sample_state [f]))
     = Ok (TestedLater (Resolved (mkTestResult false
            [_createFieldError sample_dict f arg (Some []) None]))).
Proof.
  intros f arg. split; [reflexivity|].
  exact (test_array_outcome sample_rules sample_dict f (VStr "x") arg async_array
           [OObject false (Some [("min", VNum 3)]); OBool true] (sample_state [f])
           eq_refl eq_refl).
Defined.

(** C2 as worded fails on the data.  The promise is fulfilled with an array
    whose first element is invalid and has the data [{ min: 3 }].  The
    message of the error [_test] builds is the one formatted with the empty
    data object, not the one formatted with the data of the first element,
    and so is the message its regenerate closure gives. *)
Lemma array_outcome_data_counterexample :
  let f := sample_field ["each"] None false in
  let arg := rule_arg sample_rules f "each" in
  let first_data := Some [("min", VNum 3)] in
  exists e,
    fst (_test sample_rules sample_dict f (VStr "x") arg (sample_state [f]))
    = Ok (TestedLater (Resolved (mkTestResult false [e])))
    /\ fe_msg e = _formatErrorMessage sample_dict f arg (Some []) None
    /\ fe_msg e <> fe_msg (_createFieldError sample_dict f arg first_data None)
    /\ (fun g => g sample_dict) <$> fe_regenerate e
       <> Some (_formatErrorMessage sample_dict f arg first_data None).
Proof.
  intros f arg first_data. eexists. split; [reflexivity|].
  split; [reflexivity|]. split; intros H; vm_compute in H; discriminate.
Qed.

Lemma paused_validation_is_noop_witness :
  let f := sample_field ["digits"] None false in
  let st := set_paused true (sample_state [f]) in
  paused st = true
  /\ validate sample_rules sample_dict None (Some "email") (VStr "x") false None st
     = (Ok (Resolved true), st)
  /\ validateAll sample_rules sample_dict NoValues false None st = (Ok (Resolved true), st)
  /\ validateScopes sample_rules sample_dict false None st = (Ok (Resolved true), st).
Proof.
  intros f st.
  destruct (paused_validation_is_noop sample_rules sample_dict None st eq_refl)
    as (Hv & Ha & Hs).
  split; [reflexivity|]. split; [apply Hv|]. split; [apply Ha|apply Hs].
Defined.

(** A call that is not paused runs the rules, writes the error and the flags. *)
Example validate_writes_errors_and_flags :
  let f := sample_field ["alpha"; "digits"] None false in
  let run := validate sample_rules sample_dict None (Some "email") VUndefined false None
                      (sample_state [f]) in
  fst run = Ok (Resolved false)
  /\ List.map c_rule (calls (snd run)) = ["alpha"; "digits"]
  /\ items (errors (snd run)) = [0]
  /\ List.map fe_rule (store (errors (snd run))) = [Some "digits"]
  /\ List.map f_flags (fields (snd run))
     = [mkFlags (Some false) None (Some false) (Some true)].
Proof. repeat split. Qed.

(** C6 at a failing input.  No field is attached and [validate] is called
    with the selector [nonexistent], in a global scope that has no binding
    for [name].  In non-strict mode and in strict mode alike the call throws
    a ReferenceError; it neither resolves to true nor returns a rejected
    promise. *)
Theorem validate_unresolved_throws :
  let lenient_state := mkState false false true [] empty_bag [] in
  let strict_state := mkState true false true [] empty_bag [] in
  validate sample_rules sample_dict None (Some "nonexistent") VUndefined false None
           lenient_state
  = (Throw (ReferenceError "name is not defined"), lenient_state)
  /\ validate sample_rules sample_dict None (Some "nonexistent") VUndefined false None
              strict_state
     = (Throw (ReferenceError "name is not defined"), strict_state).
Proof. split; reflexivity. Qed.

(** ** Further properties of the ErrorBag *)

(** *** Selectors built from a scope and a name *)

Lemma span_all p s : all_chars p s = true -> span p s = (s, EmptyString).
Proof.
  induction s as [|c s IH]; simpl; [reflexivity|].
  intros H. apply andb_true_iff in H as [Hc Hs]. now rewrite Hc, IH.
Qed.

Lemma span_stop p a c r :
  all_chars p a = true -> p c = false ->
  span p (a +:+ String c r) = (a, String c r).
Proof.
  intros Ha Hc. induction a as [|x a IH]; simpl.
  - now rewrite Hc.
  - simpl in Ha. apply andb_true_iff in Ha as [Hx Ha]. now rewrite Hx, IH.
Qed.

Lemma scope_char_not_dot c : is_scope_char c = true -> Ascii.eqb dot c = false.
Proof.
  intros H. destruct (Ascii.eqb_spec dot c) as [<-|]; [discriminate|reflexivity].
Qed.

Lemma scope_char_not_hash c : is_scope_char c = true -> Ascii.eqb hash c = false.
Proof.
  intros H. destruct (Ascii.eqb_spec hash c) as [<-|]; [discriminate|reflexivity].
Qed.

Lemma scope_char_name_char c : is_scope_char c = true -> is_name_char c = true.
Proof. intros H. unfold is_name_char. now rewrite H. Qed.

Lemma replace_first_dot_end sc :
  all_chars is_scope_char sc = true ->
  replace_first dot (sc +:+ String dot EmptyString) = sc.
Proof.
  induction sc as [|c sc IH]; intros H.
  - reflexivity.
  - cbn [all_chars] in H. apply andb_true_iff in H as [Hc Hs].
    change (String c sc +:+ String dot EmptyString)
      with (String c (sc +:+ String dot EmptyString)).
    cbn [replace_first].
    now rewrite (scope_char_not_dot c Hc), IH.
Qed.

Lemma scoped_selector_plain (sc nm : string) :
  all_chars is_scope_char sc = true -> sc <> EmptyString ->
  all_chars is_name_char nm = true -> nm <> EmptyString ->
  plain_selector nm (Some sc).
Proof.
  intros Hsc Hsc0 Hnm Hnm0.
  destruct sc as [|c sc]; [congruence|].
  simpl in Hsc. apply andb_true_iff in Hsc as [Hc Hsc'].
  split.
  - simpl. unfold startsWith_hash. simpl. apply (scope_char_not_hash c Hc).
  - unfold parsed_selector, selector_groups.
    change (String c sc +:+ String dot EmptyString +:+ nm)
      with (String c (sc +:+ String dot nm)).
    cbn [seek]. rewrite (scope_char_name_char c Hc).
    change (String c (sc +:+ String dot nm)) with (String c sc +:+ String dot nm).
    rewrite span_stop; [|simpl; now rewrite Hc, Hsc'|reflexivity].
    rewrite Ascii.eqb_refl.
    destruct nm as [|n nm]; [congruence|].
    simpl in Hnm. apply andb_true_iff in Hnm as [Hn Hnm'].
    cbn [head_is andb]. rewrite Hn.
    rewrite span_all by (simpl; now rewrite Hn, Hnm').
    cbn [rule_group fmap option_fmap option_map].
    rewrite replace_first_dot_end by (simpl; now rewrite Hc, Hsc'). reflexivity.
Qed.

Lemma bare_selector_plain (nm : string) :
  all_chars is_scope_char nm = true -> nm <> EmptyString ->
  plain_selector nm None.
Proof.
  intros Hall Hnm0. destruct nm as [|n nm]; [congruence|].
  assert (Hall' := Hall). simpl in Hall. apply andb_true_iff in Hall as [Hn Hnm'].
  assert (Hnm : all_chars is_name_char (String n nm) = true).
  { clear -Hall'. induction (String n nm) as [|c s IH]; [reflexivity|].
    simpl in *. apply andb_true_iff in Hall' as [Hc Hs].
    now rewrite (scope_char_name_char c Hc), IH. }
  split.
  - unfold startsWith_hash. simpl. apply (scope_char_not_hash n Hn).
  - unfold parsed_selector, selector_groups.
    cbn [seek]. rewrite (scope_char_name_char n Hn).
    rewrite (span_all is_scope_char) by exact Hall'.
    rewrite (span_all is_name_char) by exact Hnm. reflexivity.
Qed.

(** X1.  A selector built as [scope.name] from a scope of characters
    [[\w-]] and a name of characters [[\w-.]], both non-empty, is read back
    by the selector expression as exactly that scope and that name, without
    rule; a name of characters [[\w-]] alone is read back as that name
    without scope. *)
Theorem selector_round_trip (sc nm : string) :
  all_chars is_scope_char sc = true -> sc <> EmptyString ->
  all_chars is_name_char nm = true -> nm <> EmptyString ->
  plain_selector nm (Some sc)
  /\ (all_chars is_scope_char nm = true -> plain_selector nm None).
Proof.
  intros Hsc Hsc0 Hnm Hnm0. split.
  - now apply scoped_selector_plain.
  - intros Hall. now apply bare_selector_plain.
Qed.

Lemma selector_round_trip_witness :
  all_chars is_scope_char "signup" = true /\ "signup" <> EmptyString
  /\ all_chars is_name_char "pass-word" = true /\ "pass-word" <> EmptyString
  /\ plain_selector "pass-word" (Some "signup")
  /\ plain_selector "pass-word" None.
Proof.
  destruct (selector_round_trip "signup" "pass-word" eq_refl
              ltac:(discriminate) eq_refl ltac:(discriminate)) as [H1 H2].
  repeat (split; [reflexivity || discriminate|]).
  split; [exact H1|exact (H2 eq_refl)].
Defined.

(** *** The removal loops *)

Lemma remove_where_run (f : FieldError -> bool) (p : option FieldError -> result bool)
  (st : list FieldError) :
  (forall e, p (Some e) = Ok (f e)) ->
  forall rest kept,
    (forall l, In l rest -> l < length st) ->
    remove_where p kept rest (mkErrorBag st (kept ++ rest))
    = (Ok tt, mkErrorBag st
         (kept ++ List.filter (fun l => negb (obj_sat (mkErrorBag st []) f l)) rest)).
Proof.
  intros Hp. induction rest as [|l rest IH]; intros kept Hlt; [reflexivity|].
  assert (Hl : l < length st) by (apply Hlt; now left).
  destruct (lookup_lt_is_Some_2 _ _ Hl) as [e He].
  cbn [remove_where].
  rewrite (bind_ok _ _ _ (Some e) (mkErrorBag st (kept ++ l :: rest)))
    by (unfold gets; simpl; now rewrite He).
  rewrite Hp. cbn [List.filter]. unfold obj_sat at 1. cbn [store]. rewrite He.
  destruct (f e); cbn [negb].
  - erewrite bind_ok by reflexivity. unfold set_items. cbn [store].
    apply IH. intros l' Hl'. apply Hlt. now right.
  - replace (kept ++ l :: rest) with ((kept ++ [l]) ++ rest) by now rewrite <- app_assoc.
    rewrite IH by (intros l' Hl'; apply Hlt; now right).
    now rewrite <- app_assoc.
Qed.

Lemma filter_items_run (f : FieldError -> bool) (p : option FieldError -> result bool)
  (b : ErrorBag) :
  (forall e, p (Some e) = Ok (f e)) ->
  forall its,
    (forall l, In l its -> l < length (store b)) ->
    filter_items p its b = (Ok (List.filter (obj_sat b f) its), b).
Proof.
  intros Hp. induction its as [|l its IH]; intros Hlt; [reflexivity|].
  assert (Hl : l < length (store b)) by (apply Hlt; now left).
  destruct (lookup_lt_is_Some_2 _ _ Hl) as [e He].
  cbn [filter_items].
  rewrite (bind_ok _ _ _ (Some e) b) by (unfold gets; cbv beta; now rewrite He).
  rewrite Hp. erewrite bind_ok by (apply IH; intros l' Hl'; apply Hlt; now right).
  assert (Hs : obj_sat b f l = f e) by (unfold obj_sat; now rewrite He).
  cbn [List.filter]. rewrite Hs. reflexivity.
Qed.

Lemma filter_ext_in' {A : Type} (p q : A -> bool) (l : list A) :
  (forall x, In x l -> p x = q x) -> List.filter p l = List.filter q l.
Proof.
  induction l as [|x l IH]; intros H; simpl; [reflexivity|].
  rewrite (H x (or_introl eq_refl)), IH; [reflexivity|].
  intros y Hy. apply H. now right.
Qed.

Lemma remove_where_bag (f : FieldError -> bool) (p : option FieldError -> result bool)
  (b : ErrorBag) :
  (forall e, p (Some e) = Ok (f e)) ->
  bag_wf b ->
  remove_where p [] (items b) b = (Ok tt, mkErrorBag (store b) (items_without f b)).
Proof.
  intros Hp Hwf. destruct b as [st its]. simpl.
  change (mkErrorBag st its) with (mkErrorBag st ([] ++ its)) at 1.
  rewrite (remove_where_run f p st Hp its [] Hwf). reflexivity.
Qed.

Lemma call_some name g e : call name (Some g) (Some e) = Ok (g e).
Proof. reflexivity. Qed.

Lemma remove_run field scope sel sc nm rl b :
  first_selector (Some field) scope = Some sel ->
  bag_wf b ->
  startsWith_hash sel = false ->
  parsed_selector sel = Some (sc, nm, rl) ->
  remove (Some field) scope b
  = (Ok tt, mkErrorBag (store b) (items_without (primary_pred sc nm rl) b)).
Proof.
  intros Hsel Hwf Hhash Hparse.
  destruct (candidate_filters_run sel sc nm rl Hhash Hparse)
    as (isP & isA & Hrun & HP & HA).
  unfold remove.
  assert (Hs : match scope with
               | Some sc0 => sc0 +:+ String dot EmptyString +:+ field
               | None => field
               end = sel).
  { unfold first_selector in Hsel. destruct scope; simpl in Hsel; congruence. }
  rewrite Hs, Hrun. rewrite (bind_ok _ _ b (items b) b) by reflexivity.
  cbn [get_isPrimary].
  rewrite (remove_where_bag isP); [|intros e; reflexivity|exact Hwf].
  f_equal. f_equal. unfold items_without. apply filter_ext_in'.
  intros l _. unfold obj_sat. destruct (store b !! l); [now rewrite HP|reflexivity].
Qed.

(** X2.  [remove(field, scope)] with a selector that does not begin with [#]
    and that the selector expression parses removes exactly the items that
    have the parsed scope, name and rule; the other items stay, in their
    order, and no error object is written. *)
Theorem remove_is_filter (field : string) (scope : option string) (sel : string)
  (sc : option string) (nm : string) (rl : option string) (b : ErrorBag) :
  first_selector (Some field) scope = Some sel ->
  bag_wf b ->
  startsWith_hash sel = false ->
  parsed_selector sel = Some (sc, nm, rl) ->
  exists b',
    remove (Some field) scope b = (Ok tt, b')
    /\ store b' = store b
    /\ items b' = items_without (primary_pred sc nm rl) b
    /\ (forall l, In l (items b') <-> In l (items b) /\ obj_sat b (primary_pred sc nm rl) l = false).
Proof.
  intros Hsel Hwf Hhash Hparse. eexists. split; [now apply (remove_run field scope sel sc nm rl)|].
  split; [reflexivity|]. split; [reflexivity|].
  intros l. simpl. unfold items_without. rewrite filter_In.
  now rewrite negb_true_iff.
Qed.

Lemma remove_is_filter_witness :
  first_selector (Some "b") (Some "a") = Some "a.b"
  /\ bag_wf sample_bag
  /\ exists b',
       remove (Some "b") (Some "a") sample_bag = (Ok tt, b')
       /\ store b' = store sample_bag
       /\ items b' = [0; 1].
Proof.
  split; [reflexivity|]. split; [exact sample_bag_wf|].
  destruct (remove_is_filter "b" (Some "a") "a.b" (Some "a") "b" None sample_bag
              eq_refl sample_bag_wf eq_refl eq_refl) as (b' & Hrun & Hst & Hits & _).
  exists b'. split; [exact Hrun|]. split; [exact Hst|exact Hits].
Defined.

(** *** Removal by id *)

Lemma find_item_run prop (p : FieldError -> bool) (b : ErrorBag) : forall its,
  (forall l, In l its -> l < length (store b)) ->
  find_item prop p its b = (Ok (List.find (obj_sat b p) its), b).
Proof.
  induction its as [|l its IH]; intros Hlt; [reflexivity|].
  assert (Hl : l < length (store b)) by (apply Hlt; now left).
  destruct (lookup_lt_is_Some_2 _ _ Hl) as [e He].
  cbn [find_item List.find].
  erewrite bind_ok by (apply deref_ok; exact He).
  assert (Hs : obj_sat b p l = p e) by (unfold obj_sat; now rewrite He).
  rewrite Hs. destruct (p e); [reflexivity|].
  apply IH. intros l' Hl'. apply Hlt. now right.
Qed.

Lemma firstById_run id b :
  bag_wf b ->
  firstById id b = (Ok (msg_at b (earliest (id_is id) b)), b).
Proof.
  intros Hwf. unfold firstById.
  rewrite (bind_ok _ _ b (items b) b) by reflexivity.
  erewrite bind_ok by (apply find_item_run; exact Hwf).
  unfold earliest, id_is.
  destruct (List.find _ (items b)) as [l|] eqn:Hf; [|reflexivity].
  destruct (find_sat_lookup _ _ _ _ Hf) as [e He].
  erewrite bind_ok by (apply deref_ok; exact He). simpl. now rewrite He.
Qed.

Lemma has_id_single i e : has_id [i] e = id_is i e.
Proof.
  unfold has_id, id_is. destruct (fe_id e) as [x|]; simpl; [|reflexivity].
  now rewrite orb_false_r.
Qed.

Lemma removeById_run (id : string + list string) (b : ErrorBag) :
  bag_wf b ->
  removeById id b
  = (Ok tt, mkErrorBag (store b)
       (items_without (match id with
                       | inl i => id_is i
                       | inr ids => has_id ids
                       end) b)).
Proof.
  intros Hwf. destruct id as [i|ids]; unfold removeById.
  - rewrite (bind_ok _ _ b (items b) b) by reflexivity.
    apply remove_where_bag; [intros e; reflexivity|exact Hwf].
  - rewrite (bind_ok _ _ b (items b) b) by reflexivity.
    erewrite bind_ok.
    2:{ apply (filter_items_run (fun e => negb (has_id ids e))); [intros e; reflexivity|exact Hwf]. }
    unfold modify, set_items. f_equal. f_equal. unfold items_without.
    apply filter_ext_in'. intros l Hl.
    destruct (lookup_lt_is_Some_2 _ _ (Hwf l Hl)) as [e He].
    unfold obj_sat. now rewrite He.
Qed.

Lemma find_filter {A : Type} (p q : A -> bool) (l : list A) :
  List.find q (List.filter p l) = List.find (fun x => p x && q x) l.
Proof.
  induction l as [|x l IH]; simpl; [reflexivity|].
  destruct (p x); simpl; [|exact IH]. destruct (q x); [reflexivity|exact IH].
Qed.

Lemma find_excluded {A : Type} (p : A -> bool) (l : list A) :
  List.find (fun x => negb (p x) && p x) l = None.
Proof.
  induction l as [|x l IH]; simpl; [reflexivity|].
  destruct (p x); simpl; exact IH.
Qed.

Lemma filter_wf P b : bag_wf b -> bag_wf (mkErrorBag (store b) (items_without P b)).
Proof.
  intros Hwf l Hl. simpl in *. unfold items_without in Hl.
  apply filter_In in Hl as [Hl _]. now apply Hwf.
Qed.

(** X3.  On a bag whose items all refer to objects, [removeById] with one
    id and with the array holding that id do the same: the items with the id
    go, the others stay in their order and no object is written.  After it
    [firstById] of that id is undefined, and [firstById] of any other id
    gives what it gave before. *)
Theorem removeById_forms_agree (i : string) (b : ErrorBag) :
  bag_wf b ->
  exists b',
    removeById (inl i) b = (Ok tt, b')
    /\ removeById (inr [i]) b = (Ok tt, b')
    /\ store b' = store b
    /\ items b' = items_without (id_is i) b
    /\ fst (firstById i b') = Ok None
    /\ (forall j, j <> i -> fst (firstById j b') = fst (firstById j b)).
Proof.
  intros Hwf.
  exists (mkErrorBag (store b) (items_without (id_is i) b)).
  split; [now apply (removeById_run (inl i))|].
  split.
  { rewrite (removeById_run (inr [i])) by exact Hwf. f_equal. f_equal.
    unfold items_without. apply filter_ext_in'. intros l _.
    unfold obj_sat. destruct (store b !! l); [now rewrite has_id_single|reflexivity]. }
  split; [reflexivity|]. split; [reflexivity|].
  assert (Hfind : forall j,
            earliest (id_is j) (mkErrorBag (store b) (items_without (id_is i) b))
            = List.find (fun l => negb (obj_sat b (id_is i) l) && obj_sat b (id_is j) l)
                        (items b)).
  { intros j. unfold earliest, items_without. cbn [items]. rewrite find_filter. reflexivity. }
  split.
  - rewrite firstById_run by (apply filter_wf; exact Hwf). cbn [fst].
    rewrite Hfind.
    now rewrite (find_excluded (obj_sat b (id_is i))).
  - intros j Hne.
    rewrite !firstById_run by (try apply filter_wf; exact Hwf). cbn [fst].
    rewrite Hfind. unfold earliest.
    rewrite (find_ext _ (obj_sat b (id_is j))); [reflexivity|].
    intros l. unfold obj_sat, id_is. destruct (store b !! l) as [e|]; [|reflexivity].
    destruct (opt_eqb (fe_id e) (Some j)) eqn:Hj; [|now rewrite andb_false_r].
    apply opt_eqb_eq in Hj.
    assert (Hi : opt_eqb (fe_id e) (Some i) = false).
    { apply opt_eqb_neq. rewrite Hj. congruence. }
    now rewrite Hi.
Qed.

Lemma removeById_forms_agree_witness :
  bag_wf sample_bag
  /\ exists b',
       removeById (inl "2") sample_bag = (Ok tt, b')
       /\ removeById (inr ["2"]) sample_bag = (Ok tt, b')
       /\ items b' = [0; 2]
       /\ fst (firstById "2" b') = Ok None
       /\ fst (firstById "3" b') = Ok (Some "The b field is too short.").
Proof.
  split; [exact sample_bag_wf|].
  destruct (removeById_forms_agree "2" sample_bag sample_bag_wf)
    as (b' & H1 & H2 & _ & Hits & Hnone & Hother).
  exists b'. split; [exact H1|]. split; [exact H2|]. split; [exact Hits|].
  split; [exact Hnone|]. rewrite (Hother "3") by discriminate. reflexivity.
Defined.

(** *** [collect] *)

Lemma collect_matching_run (isP : FieldError -> bool) (map : bool) (b : ErrorBag) :
  forall its prev,
    (forall l, In l its -> l < length (store b)) ->
    collect_matching (Some isP) map its prev b
    = (Ok (prev ++ List.map (entry_at b map) (List.filter (obj_sat b isP) its)), b).
Proof.
  induction its as [|l its IH]; intros prev Hlt.
  - simpl. unfold ret. now rewrite app_nil_r.
  - assert (Hl : l < length (store b)) by (apply Hlt; now left).
    destruct (lookup_lt_is_Some_2 _ _ Hl) as [e He].
    assert (Hs : obj_sat b isP l = isP e) by (unfold obj_sat; now rewrite He).
    assert (Hlt' : forall l', In l' its -> l' < length (store b))
      by (intros l' Hl'; apply Hlt; now right).
    cbn [collect_matching List.filter].
    rewrite (bind_ok _ _ b (Some e) b) by (unfold gets; cbv beta; now rewrite He).
    rewrite call_some, Hs. destruct (isP e).
    + erewrite bind_ok by (apply deref_ok; exact He).
      rewrite IH by exact Hlt'. cbn [List.map].
      unfold entry_at at 2. rewrite He. now rewrite <- app_assoc.
    + now apply IH.
Qed.

Lemma collect_run field scope map sel sc nm rl b :
  field <> EmptyString ->
  first_selector (Some field) scope = Some sel ->
  bag_wf b ->
  startsWith_hash sel = false ->
  parsed_selector sel = Some (sc, nm, rl) ->
  collect (Some field) scope map b
  = (Ok (Listed (List.map (entry_at b map) (items_with (primary_pred sc nm rl) b))), b).
Proof.
  intros Hne Hsel Hwf Hhash Hparse.
  destruct (candidate_filters_run sel sc nm rl Hhash Hparse)
    as (isP & isA & Hrun & HP & HA).
  assert (Hs : match scope with
               | Some sc0 => sc0 +:+ String dot EmptyString +:+ field
               | None => field
               end = sel).
  { unfold first_selector in Hsel. destruct scope; simpl in Hsel; congruence. }
  unfold collect. destruct field as [|c field]; [congruence|].
  rewrite Hs, Hrun. rewrite (bind_ok _ _ b (items b) b) by reflexivity.
  cbn [get_isPrimary].
  erewrite bind_ok by (apply collect_matching_run; exact Hwf).
  unfold ret. cbn [app]. f_equal. f_equal. f_equal. f_equal. unfold items_with.
  apply filter_ext_in'. intros l _. unfold obj_sat.
  destruct (store b !! l); [now rewrite HP|reflexivity].
Qed.

(** X4.  [collect(field, scope, map)] with a field name that is not empty
    and a selector that parses gives, in insertion order, the messages (or
    the errors themselves when [map] is false) of exactly the items with the
    parsed scope, name and rule; the bag is not changed. *)
Theorem collect_lists_matches (field : string) (scope : option string) (map : bool)
  (sel : string) (sc : option string) (nm : string) (rl : option string) (b : ErrorBag) :
  field <> EmptyString ->
  first_selector (Some field) scope = Some sel ->
  bag_wf b ->
  startsWith_hash sel = false ->
  parsed_selector sel = Some (sc, nm, rl) ->
  collect (Some field) scope map b
  = (Ok (Listed (List.map (entry_at b map) (items_with (primary_pred sc nm rl) b))), b).
Proof. apply collect_run. Qed.

Lemma collect_lists_matches_witness :
  "b" <> EmptyString
  /\ bag_wf sample_bag
  /\ collect (Some "b") (Some "a") true sample_bag
     = (Ok (Listed [EMsg "The b field is too short."]), sample_bag)
  /\ collect (Some "b") (Some "a") false sample_bag = (Ok (Listed [EErr 2]), sample_bag).
Proof.
  split; [discriminate|]. split; [exact sample_bag_wf|]. split.
  - exact (collect_lists_matches "b" (Some "a") true "a.b" (Some "a") "b" None sample_bag
             ltac:(discriminate) eq_refl sample_bag_wf eq_refl eq_refl).
  - exact (collect_lists_matches "b" (Some "a") false "a.b" (Some "a") "b" None sample_bag
             ltac:(discriminate) eq_refl sample_bag_wf eq_refl eq_refl).
Defined.

Lemma group_get_push k k' x g :
  group_get k (group_push k' x g)
  = if String.eqb k k'
    then Some (match group_get k g with Some ys => ys | None => [] end ++ [x])
    else group_get k g.
Proof.
  induction g as [|[k0 xs] g IH]; cbn [group_push group_get].
  - destruct (String.eqb k k'); reflexivity.
  - destruct (String.eqb_spec k' k0) as [->|Hne]; cbn [group_get].
    + destruct (String.eqb k k0); reflexivity.
    + destruct (String.eqb_spec k k0) as [->|Hne'].
      * apply not_eq_sym in Hne. apply String.eqb_neq in Hne. now rewrite Hne.
      * exact IH.
Qed.

Lemma collect_groups_run (map : bool) (b : ErrorBag) : forall its g,
  (forall l, In l its -> l < length (store b)) ->
  inherited_field b its = false ->
  exists g',
    collect_groups map its g b = (Ok g', b)
    /\ forall k, group_get k g'
                 = group_with (group_get k g)
                     (List.map (entry_at b map) (List.filter (obj_sat b (field_is k)) its)).
Proof.
  induction its as [|l its IH]; intros g Hlt Hplain.
  - exists g. split; reflexivity.
  - assert (Hl : l < length (store b)) by (apply Hlt; now left).
    destruct (lookup_lt_is_Some_2 _ _ Hl) as [e He].
    assert (Hlt' : forall l', In l' its -> l' < length (store b))
      by (intros l' Hl'; apply Hlt; now right).
    unfold inherited_field in Hplain. cbn [existsb] in Hplain.
    apply orb_false_iff in Hplain as [Hkey Hplain'].
    unfold obj_sat in Hkey. rewrite He in Hkey.
    destruct (IH (group_push (fe_field e) (if map then EMsg (fe_msg e) else EErr l) g)
                 Hlt' Hplain')
      as (g' & Hrun & Hget).
    exists g'. split.
    + cbn [collect_groups]. erewrite bind_ok by (apply deref_ok; exact He).
      rewrite Hkey. exact Hrun.
    + intros k. rewrite Hget, group_get_push. cbn [List.filter].
      assert (Hs : obj_sat b (field_is k) l = String.eqb (fe_field e) k)
        by (unfold obj_sat, field_is; now rewrite He).
      rewrite Hs. rewrite (String.eqb_sym k (fe_field e)).
      destruct (String.eqb (fe_field e) k); [|reflexivity].
      cbn [List.map]. unfold entry_at at 2. rewrite He.
      unfold group_with.
      destruct (List.map _ _); [reflexivity|]. now rewrite <- app_assoc.
Qed.

Lemma collect_groups_throws (map : bool) (b : ErrorBag) : forall its g,
  (forall l, In l its -> l < length (store b)) ->
  inherited_field b its = true ->
  collect_groups map its g b
  = (Throw (TypeError "collection[e.field].push is not a function"), b).
Proof.
  induction its as [|l its IH]; intros g Hlt Hsome; [discriminate|].
  assert (Hl : l < length (store b)) by (apply Hlt; now left).
  destruct (lookup_lt_is_Some_2 _ _ Hl) as [e He].
  cbn [collect_groups]. erewrite bind_ok by (apply deref_ok; exact He).
  unfold inherited_field in Hsome. cbn [existsb] in Hsome.
  unfold obj_sat in Hsome at 1. rewrite He in Hsome.
  destruct (is_prototype_key (fe_field e)); [reflexivity|].
  apply IH; [|exact Hsome]. intros l' Hl'. apply Hlt. now right.
Qed.

(** X5.  [collect] without a field name (absent or empty), on a bag whose
    items refer to objects, groups the bag by field name when no item has a
    field name that plain objects inherit ([constructor], [toString],
    [__proto__] and the like): under each name that some item has, the
    messages (or the errors, when [map] is false) of the items with that
    field name, in insertion order and whatever their scope, and no entry
    for other names.  When some item has such a field name the call throws
    a TypeError, and the bag is as it was. *)
Theorem collect_groups_by_field (field scope : option string) (map : bool) (b : ErrorBag) :
  bag_wf b ->
  field = None \/ field = Some EmptyString ->
  if inherited_field b (items b) then
    collect field scope map b
    = (Throw (TypeError "collection[e.field].push is not a function"), b)
  else
    exists g,
      collect field scope map b = (Ok (Grouped g), b)
      /\ forall k, group_get k g
                   = match items_with (field_is k) b with
                     | [] => None
                     | ls => Some (List.map (entry_at b map) ls)
                     end.
Proof.
  intros Hwf Hfield.
  destruct (inherited_field b (items b)) eqn:Hplain.
  - unfold collect. destruct Hfield as [-> | ->];
      rewrite (bind_ok _ _ b (items b) b) by reflexivity;
      erewrite bind_throw by (apply collect_groups_throws; assumption); reflexivity.
  - destruct (collect_groups_run map b (items b) [] Hwf Hplain) as (g & Hrun & Hget).
    exists g. split.
    + unfold collect. destruct Hfield as [-> | ->];
        rewrite (bind_ok _ _ b (items b) b) by reflexivity;
        erewrite bind_ok by exact Hrun; reflexivity.
    + intros k. rewrite Hget. unfold items_with, group_with. cbn [group_get].
      destruct (List.filter _ _); reflexivity.
Qed.

Lemma collect_groups_by_field_witness :
  let inherited := mkFieldError (Some "4") None "constructor" "x" (Some "min") None None in
  let b := mkErrorBag [sample_email; inherited] [0; 1] in
  bag_wf sample_bag
  /\ bag_wf b
  /\ (exists g,
        collect None None true sample_bag = (Ok (Grouped g), sample_bag)
        /\ group_get "a.b" g = Some [EMsg "The a.b field is too short."]
        /\ group_get "c" g = None)
  /\ collect None None true b
     = (Throw (TypeError "collection[e.field].push is not a function"), b).
Proof.
  intros inherited b.
  assert (Hwf : bag_wf b).
  { intros l Hl. simpl in Hl. destruct Hl as [<-|[<-|[]]]; simpl; lia. }
  split; [exact sample_bag_wf|]. split; [exact Hwf|]. split.
  - destruct (collect_groups_by_field None None true sample_bag sample_bag_wf
                (or_introl eq_refl))
      as (g & Hrun & Hget).
    exists g. split; [exact Hrun|]. split; rewrite Hget; reflexivity.
  - exact (collect_groups_by_field None None true b Hwf (or_introl eq_refl)).
Defined.

(** *** [first], [has] and the queries by rule *)

Lemma match_run sel sc nm rl b :
  bag_wf b ->
  startsWith_hash sel = false ->
  parsed_selector sel = Some (sc, nm, rl) ->
  _match (Some sel) b
  = (Ok (match items b with
         | [] => MatchPrev (mkPrev None None)
         | _ :: _ => MatchValue (two_tier (primary_pred sc nm rl) (alt_pred sc nm rl) b)
         end), b).
Proof.
  intros Hwf Hhash Hparse.
  destruct (candidate_filters_run sel sc nm rl Hhash Hparse)
    as (isP & isA & Hrun & HP & HA).
  unfold _match. rewrite Hrun.
  rewrite (bind_ok _ _ b (items b) b) by reflexivity. cbn [get_isPrimary get_isAlt].
  destruct (items b) as [|x its] eqn:Hits; [reflexivity|].
  rewrite match_reduce_no_primary.
  - rewrite two_tier_unfold, Hits.
    rewrite (find_ext (obj_sat b isP) (obj_sat b (primary_pred sc nm rl))).
    2:{ intros l. unfold obj_sat. destruct (store b !! l); auto. }
    rewrite (find_ext (obj_sat b isA) (obj_sat b (alt_pred sc nm rl))).
    2:{ intros l. unfold obj_sat. destruct (store b !! l); auto. }
    reflexivity.
  - discriminate.
  - intros l Hl. apply Hwf. now rewrite Hits.
Qed.

Lemma first_run field scope sel sc nm rl b :
  first_selector field scope = Some sel ->
  bag_wf b ->
  startsWith_hash sel = false ->
  parsed_selector sel = Some (sc, nm, rl) ->
  first field scope b
  = (Ok (msg_at b (two_tier (primary_pred sc nm rl) (alt_pred sc nm rl) b)), b).
Proof.
  intros Hsel Hwf Hhash Hparse. unfold first. rewrite Hsel.
  erewrite bind_ok by (apply (match_run sel sc nm rl); assumption).
  destruct (items b) as [|x its] eqn:Hits.
  - rewrite two_tier_unfold, Hits. reflexivity.
  - destruct (two_tier _ _ b) as [l|] eqn:Hc; [|reflexivity].
    destruct (two_tier_lookup _ _ _ _ Hc) as [e He].
    erewrite bind_ok by (apply deref_ok; exact He).
    simpl. now rewrite He.
Qed.

Lemma find_filter_head {A : Type} (p : A -> bool) (l : list A) :
  List.find p l = match List.filter p l with
                  | [] => None
                  | x :: _ => Some x
                  end.
Proof.
  induction l as [|x l IH]; simpl; [reflexivity|].
  destruct (p x); [reflexivity|exact IH].
Qed.

(** X6.  [first] and [collect] agree on the first tier: when
    [collect(field, scope)] is not empty, [first(field, scope)] is its
    first message; when it is empty, [first] may still give a message, the
    one of the latest item whose field name is literally [scope.name]. *)
Theorem first_agrees_with_collect (field : string) (scope : option string)
  (sel : string) (sc : option string) (nm : string) (rl : option string) (b : ErrorBag) :
  field <> EmptyString ->
  first_selector (Some field) scope = Some sel ->
  bag_wf b ->
  startsWith_hash sel = false ->
  parsed_selector sel = Some (sc, nm, rl) ->
  exists es,
    collect (Some field) scope true b = (Ok (Listed es), b)
    /\ match es with
       | EMsg x :: _ => first (Some field) scope b = (Ok (Some x), b)
       | _ => first (Some field) scope b
              = (Ok (msg_at b (latest (alt_pred sc nm rl) b)), b)
       end.
Proof.
  intros Hne Hsel Hwf Hhash Hparse.
  exists (List.map (entry_at b true) (items_with (primary_pred sc nm rl) b)).
  split; [now apply (collect_run field scope true sel)|].
  rewrite (first_run (Some field) scope sel sc nm rl) by assumption.
  unfold two_tier, earliest. rewrite find_filter_head.
  unfold items_with.
  destruct (List.filter _ (items b)) as [|l ls] eqn:Hf; [reflexivity|].
  cbn [List.map]. unfold entry_at at 1.
  assert (Hin : In l (items b)).
  { assert (H : In l (List.filter (obj_sat b (primary_pred sc nm rl)) (items b)))
      by (rewrite Hf; now left).
    now apply filter_In in H as [H _]. }
  destruct (lookup_lt_is_Some_2 _ _ (Hwf l Hin)) as [e He].
  rewrite He. simpl. now rewrite He.
Qed.

Lemma first_agrees_with_collect_witness :
  "email" <> EmptyString
  /\ bag_wf sample_bag
  /\ exists es,
       collect (Some "email") None true sample_bag = (Ok (Listed es), sample_bag)
       /\ es = [EMsg "The email field is required."]
       /\ first (Some "email") None sample_bag
          = (Ok (Some "The email field is required."), sample_bag).
Proof.
  split; [discriminate|]. split; [exact sample_bag_wf|].
  destruct (first_agrees_with_collect "email" None "email" None "email" None sample_bag
              ltac:(discriminate) eq_refl sample_bag_wf eq_refl eq_refl)
    as (es & Hrun & Hfirst).
  assert (Hes : es = [EMsg "The email field is required."]).
  { vm_compute in Hrun. now inversion Hrun. }
  exists es. split; [exact Hrun|]. split; [exact Hes|].
  rewrite Hes in Hfirst. exact Hfirst.
Defined.

(** X7.  [has(field, scope)] tells whether [first(field, scope)] is a
    non-empty message: it is false when nothing matches, and also when the
    matching error has the empty message. *)
Theorem has_needs_message (field scope : option string) (sel : string)
  (sc : option string) (nm : string) (rl : option string) (b : ErrorBag) :
  first_selector field scope = Some sel ->
  bag_wf b ->
  startsWith_hash sel = false ->
  parsed_selector sel = Some (sc, nm, rl) ->
  let chosen := two_tier (primary_pred sc nm rl) (alt_pred sc nm rl) b in
  (chosen = None -> has field scope b = (Ok false, b))
  /\ (forall l e, chosen = Some l -> store b !! l = Some e ->
        has field scope b = (Ok (negb (String.eqb (fe_msg e) EmptyString)), b)).
Proof.
  intros Hsel Hwf Hhash Hparse chosen.
  assert (Hrun := first_run field scope sel sc nm rl b Hsel Hwf Hhash Hparse).
  fold chosen in Hrun. split.
  - intros Hc. unfold has. erewrite bind_ok by exact Hrun. now rewrite Hc.
  - intros l e Hc He. unfold has. erewrite bind_ok by exact Hrun.
    rewrite Hc. simpl. now rewrite He.
Qed.

Lemma has_needs_message_witness :
  let silent_error := mkFieldError (Some "9") None "age" EmptyString (Some "min") None None in
  let b := mkErrorBag [silent_error] [0] in
  bag_wf b
  /\ first (Some "age") None b = (Ok (Some EmptyString), b)
  /\ has (Some "age") None b = (Ok false, b)
  /\ has (Some "email") None b = (Ok false, b).
Proof.
  intros silent_error b.
  assert (Hwf : bag_wf b) by (intros l [<-|[]]; simpl; lia).
  destruct (has_needs_message (Some "age") None "age" None "age" None b
              eq_refl Hwf eq_refl eq_refl) as [_ Hsome].
  destruct (has_needs_message (Some "email") None "email" None "email" None b
              eq_refl Hwf eq_refl eq_refl) as [Hnone _].
  split; [exact Hwf|]. split; [reflexivity|]. split.
  - exact (Hsome 0 silent_error eq_refl eq_refl).
  - exact (Hnone eq_refl).
Defined.

Lemma first_entry_run (p : option FieldError -> bool) (b : ErrorBag) : forall ls,
  (forall l, In l ls -> l < length (store b)) ->
  first_entry p (List.map EErr ls) b
  = (Ok ((fun l => store b !! l) <$> List.find (fun l => p (store b !! l)) ls), b).
Proof.
  induction ls as [|l ls IH]; intros Hlt; [reflexivity|].
  assert (Hl : l < length (store b)) by (apply Hlt; now left).
  destruct (lookup_lt_is_Some_2 _ _ Hl) as [e He].
  cbn [List.map first_entry List.find].
  erewrite bind_ok.
  2:{ unfold entry_obj. erewrite bind_ok by (apply deref_ok; exact He). reflexivity. }
  erewrite bind_ok by (apply IH; intros l' Hl'; apply Hlt; now right).
  rewrite He. unfold ret. destruct (p (Some e)); [simpl; now rewrite He|reflexivity].
Qed.

Lemma first_filtered_run (p : option FieldError -> bool) (q : FieldError -> bool)
  field scope sel sc nm rl b :
  (forall e, p (Some e) = q e) ->
  field <> EmptyString ->
  first_selector (Some field) scope = Some sel ->
  bag_wf b ->
  startsWith_hash sel = false ->
  parsed_selector sel = Some (sc, nm, rl) ->
  first_filtered p (Some field) scope b
  = (Ok (truthy_msg_at b (earliest (fun e => primary_pred sc nm rl e && q e) b)), b).
Proof.
  intros Hpq Hne Hsel Hwf Hhash Hparse. unfold first_filtered.
  erewrite bind_ok by (apply (collect_run field scope false sel sc nm rl); assumption).
  cbv beta iota.
  replace (List.map (entry_at b false) (items_with (primary_pred sc nm rl) b))
    with (List.map EErr (items_with (primary_pred sc nm rl) b)) by reflexivity.
  erewrite bind_ok.
  2:{ apply first_entry_run. intros l Hl. unfold items_with in Hl.
      apply filter_In in Hl as [Hl _]. now apply Hwf. }
  unfold ret, items_with, earliest. rewrite find_filter.
  rewrite (find_ext _ (obj_sat b (fun e => primary_pred sc nm rl e && q e))).
  2:{ intros l. unfold obj_sat. destruct (store b !! l) as [e|]; [|reflexivity].
      now rewrite Hpq. }
  unfold truthy_msg_at, msg_at.
  destruct (List.find _ (items b)) as [l|] eqn:Hf; [|reflexivity].
  destruct (find_sat_lookup _ _ _ _ Hf) as [e He].
  simpl. rewrite He. reflexivity.
Qed.

Lemma collect_groups_by_field_run_aux b :
  bag_wf b ->
  forall scope,
    (exists g, collect None scope false b = (Ok (Grouped g), b))
    \/ (exists e, collect None scope false b = (Throw e, b)).
Proof.
  intros Hwf scope. unfold collect.
  rewrite (bind_ok _ _ b (items b) b) by reflexivity.
  destruct (inherited_field b (items b)) eqn:Hplain.
  - right. eexists.
    erewrite bind_throw by (apply collect_groups_throws; assumption). reflexivity.
  - left. destruct (collect_groups_run false b (items b) [] Hwf Hplain) as (g & Hrun & _).
    exists g. erewrite bind_ok by exact Hrun. reflexivity.
Qed.

(** X8.  [firstByRule(name, rule, scope)] gives the message of the earliest
    item of that field and scope whose rule is [rule], and
    [firstNot(name, rule, scope)] that of the earliest one whose rule is not
    [rule] ([required] when no rule is given); either gives undefined when
    there is no such item or when its message is empty.  Without a field
    name both throw a TypeError. *)
Theorem first_by_rule_and_not (field : string) (rule : string) (scope : option string)
  (sel : string) (sc : option string) (nm : string) (rl : option string) (b : ErrorBag) :
  field <> EmptyString ->
  first_selector (Some field) scope = Some sel ->
  bag_wf b ->
  startsWith_hash sel = false ->
  parsed_selector sel = Some (sc, nm, rl) ->
  firstByRule (Some field) rule scope b
  = (Ok (truthy_msg_at b
           (earliest (fun e => primary_pred sc nm rl e && opt_eqb (fe_rule e) (Some rule)) b)),
     b)
  /\ firstNot (Some field) (Some rule) scope b
     = (Ok (truthy_msg_at b
              (earliest (fun e => primary_pred sc nm rl e
                                  && negb (opt_eqb (fe_rule e) (Some rule))) b)),
        b)
  /\ firstNot (Some field) None scope b = firstNot (Some field) (Some "required") scope b
  /\ (exists e, firstByRule None rule scope b = (Throw e, b)
                /\ firstNot None (Some rule) scope b = (Throw e, b)).
Proof.
  intros Hne Hsel Hwf Hhash Hparse. split; [|split; [|split]].
  - unfold firstByRule. now apply (first_filtered_run _ _ field scope sel).
  - unfold firstNot. now apply (first_filtered_run _ _ field scope sel).
  - reflexivity.
  - destruct (collect_groups_by_field_run_aux b Hwf scope) as [(g & Hrun)|(e & Hrun)].
    + eexists. unfold firstByRule, firstNot, first_filtered.
      split; erewrite bind_ok by exact Hrun; reflexivity.
    + exists e. unfold firstByRule, firstNot, first_filtered.
      split; erewrite bind_throw by exact Hrun; reflexivity.
Qed.

Lemma first_by_rule_and_not_witness :
  "b" <> EmptyString
  /\ bag_wf sample_bag
  /\ firstByRule (Some "b") "min" (Some "a") sample_bag
     = (Ok (Some "The b field is too short."), sample_bag)
  /\ firstNot (Some "b") (Some "min") (Some "a") sample_bag = (Ok None, sample_bag).
Proof.
  destruct (first_by_rule_and_not "b" "min" (Some "a") "a.b" (Some "a") "b" None sample_bag
              ltac:(discriminate) eq_refl sample_bag_wf eq_refl eq_refl)
    as (Hby & Hnot & _).
  split; [discriminate|]. split; [exact sample_bag_wf|]. split; [exact Hby|exact Hnot].
Defined.

(** *** [add] and [remove] together *)

Lemma set_scope_same e : set_scope (fe_scope e) e = e.
Proof. now destruct e. Qed.

Lemma normalize_one l b e :
  store b !! l = Some e ->
  assign_obj "scope" l (fun o => set_scope (fe_scope o) o) b = (Ok tt, b).
Proof.
  intros He. rewrite (assign_obj_ok _ _ _ _ e He).
  rewrite list_alter_id by apply set_scope_same. now destruct b.
Qed.

Lemma normalize_all b : forall ls,
  (forall l, In l ls -> l < length (store b)) ->
  forEach (fun e => assign_obj "scope" e (fun o => set_scope (fe_scope o) o)) ls b
  = (Ok tt, b).
Proof.
  induction ls as [|l ls IH]; intros Hlt; [reflexivity|].
  assert (Hl : l < length (store b)) by (apply Hlt; now left).
  destruct (lookup_lt_is_Some_2 _ _ Hl) as [e He].
  cbn [forEach]. erewrite bind_ok by (apply (normalize_one l b e He)).
  apply IH. intros l' Hl'. apply Hlt. now right.
Qed.

Lemma add_one_run l b e :
  store b !! l = Some e ->
  add (AddNew (inl l)) b = (Ok tt, mkErrorBag (store b) (items b ++ [l])).
Proof.
  intros He. unfold add.
  erewrite bind_ok by reflexivity.
  erewrite bind_ok.
  2:{ unfold _normalizeError. erewrite bind_ok by (apply (normalize_one l b e He)).
      reflexivity. }
  reflexivity.
Qed.

Lemma add_array_run ls b :
  (forall l, In l ls -> l < length (store b)) ->
  add (AddNew (inr ls)) b = (Ok tt, mkErrorBag (store b) (items b ++ ls)).
Proof.
  intros Hlt. unfold add.
  erewrite bind_ok by reflexivity.
  erewrite bind_ok.
  2:{ unfold _normalizeError. erewrite bind_ok by (apply normalize_all; exact Hlt).
      reflexivity. }
  reflexivity.
Qed.

Lemma filter_none_all {A : Type} (p : A -> bool) (l : list A) :
  List.filter p l = [] -> List.filter (fun x => negb (p x)) l = l.
Proof.
  induction l as [|x l IH]; simpl; [reflexivity|].
  destruct (p x); simpl; [discriminate|]. intros H. now rewrite IH.
Qed.

Lemma primary_self e : primary_pred (fe_scope e) (fe_field e) None e = true.
Proof.
  unfold primary_pred, rule_matches. rewrite String.eqb_refl.
  assert (H : opt_eqb (fe_scope e) (fe_scope e) = true) by now apply opt_eqb_eq.
  now rewrite H.
Qed.

(** X9.  Adding an error and then calling [remove(error.field, error.scope)]
    removes the added error together with every earlier error of the same
    field and scope: what is left are the earlier items of other fields or
    scopes, in order.  The count is back at its value before the [add]
    exactly when the bag held no error of that field and scope, and then
    the bag is as it was. *)
Theorem add_then_remove (l : loc) (e : FieldError) (b : ErrorBag) :
  bag_wf b ->
  store b !! l = Some e ->
  plain_selector (fe_field e) (fe_scope e) ->
  let P := primary_pred (fe_scope e) (fe_field e) None in
  exists b1 b2,
    add (AddNew (inl l)) b = (Ok tt, b1)
    /\ count b1 = (Ok (S (length (items b))), b1)
    /\ remove (Some (fe_field e)) (fe_scope e) b1 = (Ok tt, b2)
    /\ store b2 = store b
    /\ items b2 = items_without P b
    /\ length (items b2) + length (items_with P b) = length (items b)
    /\ (items_with P b = [] -> b2 = b).
Proof.
  intros Hwf He [Hhash Hparse] P.
  set (b1 := mkErrorBag (store b) (items b ++ [l])).
  assert (Hwf1 : bag_wf b1).
  { intros l' Hl'. unfold b1 in *; simpl in *.
    apply in_app_or in Hl' as [Hl'|[<-|[]]]; [now apply Hwf|].
    apply lookup_lt_Some in He. exact He. }
  assert (Hits : items_without P b1 = items_without P b).
  { unfold items_without, b1. cbn [items]. rewrite List.filter_app. cbn [List.filter].
    unfold obj_sat at 2. cbn [store]. rewrite He. unfold P at 2.
    rewrite primary_self. cbn [negb]. now rewrite app_nil_r. }
  exists b1, (mkErrorBag (store b) (items_without P b)).
  split; [now apply (add_one_run l b e)|].
  split.
  { unfold count, gets. unfold b1 at 1. cbn [items]. rewrite length_app. simpl.
    now rewrite Nat.add_1_r. }
  split.
  { rewrite (remove_run (fe_field e) (fe_scope e)
               (match fe_scope e with
                | Some sc => sc +:+ String dot EmptyString +:+ fe_field e
                | None => fe_field e
                end) (fe_scope e) (fe_field e) None b1);
      try assumption.
    - change (store b1) with (store b). unfold P in Hits |- *. now rewrite Hits.
    - unfold first_selector. destruct (fe_scope e); reflexivity. }
  split; [reflexivity|]. split; [reflexivity|]. split.
  - cbn [items]. unfold items_without, items_with.
    rewrite Nat.add_comm. apply List.filter_length.
  - intros Hnone. unfold items_without. unfold items_with in Hnone.
    rewrite (filter_none_all _ _ Hnone). now destruct b.
Qed.

Lemma add_then_remove_witness :
  let e := mkFieldError (Some "4") None "age" "The age field is required."
                        (Some "required") None None in
  let b := mkErrorBag [sample_email; e] [0] in
  bag_wf b
  /\ plain_selector "age" None
  /\ exists b1 b2,
       add (AddNew (inl 1)) b = (Ok tt, b1)
       /\ count b1 = (Ok 2, b1)
       /\ remove (Some "age") None b1 = (Ok tt, b2)
       /\ b2 = b.
Proof.
  intros e b.
  assert (Hwf : bag_wf b) by (intros l [<-|[]]; simpl; lia).
  assert (Hplain : plain_selector "age" None) by (split; reflexivity).
  destruct (add_then_remove 1 e b Hwf eq_refl Hplain)
    as (b1 & b2 & Hadd & Hcount & Hrem & _ & _ & _ & Hsame).
  split; [exact Hwf|]. split; [exact Hplain|].
  exists b1, b2. split; [exact Hadd|]. split; [exact Hcount|]. split; [exact Hrem|].
  apply Hsame. reflexivity.
Defined.

(** *** An unscoped field whose name contains a dot *)

Lemma find_exists {A : Type} (p : A -> bool) (l : list A) (x : A) :
  In x l -> p x = true -> exists y, List.find p l = Some y.
Proof.
  intros Hin Hp. destruct (List.find p l) as [y|] eqn:Hf; [now exists y|].
  rewrite (find_none _ _ Hf x Hin) in Hp. discriminate.
Qed.

(** X10.  For an unscoped error whose field name is [a.b] (with [a] of
    characters [[\w-]]), the selector [a.b] is read as scope [a] and name
    [b].  So [remove("a.b")] leaves the error in the bag and
    [collect("a.b")] does not list it; only [first("a.b")] finds an error of
    that field, through the alt tier, when no error has scope [a] and
    name [b]. *)
Theorem dotted_field_name (sc nm : string) (l : loc) (e : FieldError) (b : ErrorBag) :
  all_chars is_scope_char sc = true -> sc <> EmptyString ->
  all_chars is_name_char nm = true -> nm <> EmptyString ->
  bag_wf b ->
  In l (items b) ->
  store b !! l = Some e ->
  fe_field e = sc +:+ String dot EmptyString +:+ nm ->
  fe_scope e = None ->
  let full := sc +:+ String dot EmptyString +:+ nm in
  (exists b', remove (Some full) None b = (Ok tt, b') /\ In l (items b'))
  /\ (exists es, collect (Some full) None false b = (Ok (Listed es), b)
                 /\ ~ In (EErr l) es)
  /\ (earliest (primary_pred (Some sc) nm None) b = None ->
      exists l' e', first (Some full) None b = (Ok (Some (fe_msg e')), b)
                    /\ store b !! l' = Some e'
                    /\ fe_field e' = full).
Proof.
  intros Hsc Hsc0 Hnm Hnm0 Hwf Hin He Hfield Hscope full.
  destruct (scoped_selector_plain sc nm Hsc Hsc0 Hnm Hnm0) as [Hhash Hparse].
  fold full in Hhash, Hparse.
  assert (Hfull : full <> EmptyString).
  { unfold full. destruct sc; [congruence|discriminate]. }
  assert (Hnot : obj_sat b (primary_pred (Some sc) nm None) l = false).
  { unfold obj_sat. rewrite He. unfold primary_pred. now rewrite Hscope. }
  split; [|split].
  - eexists. split.
    + apply (remove_run full None full (Some sc) nm None); auto.
    + cbn [items]. unfold items_without. apply filter_In. split; [exact Hin|].
      now rewrite Hnot.
  - eexists. split.
    + apply (collect_run full None false full (Some sc) nm None); auto.
    + intros H. apply in_map_iff in H as (l' & Heq & Hl').
      unfold entry_at in Heq. inversion Heq; subst l'.
      unfold items_with in Hl'. apply filter_In in Hl' as [_ Hl']. congruence.
  - intros Hnone.
    rewrite (first_run (Some full) None full (Some sc) nm None) by auto.
    unfold two_tier. rewrite Hnone. unfold latest.
    assert (Halt : obj_sat b (alt_pred (Some sc) nm None) l = true).
    { unfold obj_sat. rewrite He. unfold alt_pred, rule_matches. cbn [show_opt].
      rewrite Hfield. fold full. now rewrite String.eqb_refl. }
    destruct (find_exists (obj_sat b (alt_pred (Some sc) nm None)) (rev (items b)) l)
      as [l' Hl']; [now apply in_rev in Hin|exact Halt|].
    rewrite Hl'.
    apply find_some in Hl' as [_ Hsat]. unfold obj_sat in Hsat.
    destruct (store b !! l') as [e'|] eqn:He'; [|discriminate].
    exists l', e'. cbn [msg_at]. rewrite He'. split; [reflexivity|]. split; [reflexivity|].
    unfold alt_pred in Hsat. apply andb_true_iff in Hsat as [Hsat _].
    apply String.eqb_eq in Hsat. exact Hsat.
Qed.

Lemma dotted_field_name_witness :
  let b := mkErrorBag [sample_dotted] [0] in
  bag_wf b
  /\ (exists b', remove (Some "a.b") None b = (Ok tt, b') /\ In 0 (items b'))
  /\ (exists es, collect (Some "a.b") None false b = (Ok (Listed es), b)
                 /\ ~ In (EErr 0) es)
  /\ exists l' e', first (Some "a.b") None b = (Ok (Some (fe_msg e')), b)
                   /\ store b !! l' = Some e'
                   /\ fe_field e' = "a.b".
Proof.
  intros b.
  assert (Hwf : bag_wf b) by (intros l [<-|[]]; simpl; lia).
  destruct (dotted_field_name "a" "b" 0 sample_dotted b eq_refl ltac:(discriminate)
              eq_refl ltac:(discriminate) Hwf (or_introl eq_refl) eq_refl eq_refl eq_refl)
    as (Hrem & Hcol & Hfirst).
  split; [exact Hwf|]. split; [exact Hrem|]. split; [exact Hcol|].
  apply Hfirst. reflexivity.
Defined.

(** *** [regenerate] and the errors the validator creates *)

(** X11.  An error made by [_createFieldError] under one dictionary and
    stored in the bag becomes, after [regenerate] under another dictionary
    (a changed locale), exactly the error [_createFieldError] makes for the
    same field, rule, data and target name under that dictionary; the items
    are the same. *)
Theorem regenerate_reformats_created (d d' : Dictionary) (field : Field) (rule : RuleArg)
  (data : option Data) (targetName : option string) (l : loc) (b : ErrorBag) :
  bag_wf b ->
  In l (items b) ->
  store b !! l = Some (_createFieldError d field rule data targetName) ->
  exists b',
    regenerate d' b = (Ok tt, b')
    /\ items b' = items b
    /\ store b' !! l = Some (_createFieldError d' field rule data targetName).
Proof.
  intros Hwf Hin He. eexists. split; [now apply regenerate_run|].
  split; [reflexivity|]. cbn [store].
  now rewrite (regen_fold_in d' _ _ l _ Hin He).
Qed.

Lemma regenerate_reformats_created_witness :
  let f := sample_field ["digits"] None false in
  let arg := rule_arg sample_rules f "digits" in
  let other := mkDictionary "fr" (getFieldMessage sample_dict) (getAttribute sample_dict)
                            (getDateFormat sample_dict) in
  let b := mkErrorBag [_createFieldError sample_dict f arg None None] [0] in
  bag_wf b
  /\ exists b',
       regenerate other b = (Ok tt, b')
       /\ items b' = [0]
       /\ store b' !! 0 = Some (_createFieldError other f arg None None).
Proof.
  intros f arg other b.
  assert (Hwf : bag_wf b) by (intros l [<-|[]]; simpl; lia).
  split; [exact Hwf|].
  exact (regenerate_reformats_created sample_dict other f arg None None 0 b
           Hwf (or_introl eq_refl) eq_refl).
Defined.

(** *** The iterator *)

Lemma iterate_run b : forall fuel index,
  index <= length (items b) ->
  length (items b) - index < fuel ->
  iterate fuel index b = (Ok (Some (List.map Some (drop index (items b)))), b).
Proof.
  induction fuel as [|fuel IH]; intros index Hle Hfuel; [lia|].
  cbn [iterate]. unfold iterator_next.
  rewrite (bind_ok _ _ b (items b !! index, Nat.ltb (length (items b)) (S index), S index) b)
    by reflexivity.
  cbv beta iota.
  destruct (Nat.ltb_spec (length (items b)) (S index)) as [Hdone|Hmore].
  - assert (index = length (items b)) by lia. subst index.
    now rewrite drop_all.
  - destruct (lookup_lt_is_Some_2 (items b) index ltac:(lia)) as [x Hx].
    erewrite bind_ok by (apply IH; lia).
    rewrite Hx. unfold ret. cbn [fmap option_fmap option_map].
    now rewrite (drop_S _ _ _ Hx).
Qed.

(** X12.  A [for ... of] loop over the bag stops after as many steps as
    there are items and visits exactly the items, in insertion order. *)
Theorem iterator_visits_items (fuel : nat) (b : ErrorBag) :
  length (items b) < fuel ->
  iterate fuel 0 b = (Ok (Some (List.map Some (items b))), b).
Proof.
  intros Hfuel. rewrite iterate_run by lia. now rewrite drop_0.
Qed.

Lemma iterator_visits_items_witness :
  length (items sample_bag) < 4
  /\ iterate 4 0 sample_bag = (Ok (Some [Some 0; Some 1; Some 2]), sample_bag).
Proof.
  split; [simpl; lia|]. apply (iterator_visits_items 4 sample_bag). simpl. lia.
Defined.

(** ** Further properties of the Validator *)

Section MoreScan.

Variable RULES : gmap string Rule.
Variable dict : Dictionary.
Variable field : Field.
Variable value : JsValue.

Lemma test_calls_facts rule c :
  In c (test_calls RULES dict field value rule) ->
  c_rule c = rule /\ c_value c = value /\ is_Some (RULES !! rule).
Proof.
  unfold test_calls. destruct (RULES !! rule) as [entry|] eqn:Hr; [|intros []].
  intros [<-|[]]. repeat split. now exists entry.
Qed.

Lemma scan_frame : forall rules promises errs st,
  exists x cs,
    scan RULES dict field value rules promises errs st = (Ok x, add_calls cs st)
    /\ forall c, In c cs ->
         In (c_rule c) rules /\ c_value c = value /\ is_Some (RULES !! c_rule c).
Proof.
  induction rules as [|r rules IH]; intros promises errs st.
  - exists (promises, errs, false), []. split; [|intros c []].
    simpl. unfold ret. now rewrite add_calls_nil.
  - assert (Hhere : forall c, In c (test_calls RULES dict field value r) ->
              In (c_rule c) (r :: rules) /\ c_value c = value /\ is_Some (RULES !! c_rule c)).
    { intros c Hc. destruct (test_calls_facts r c Hc) as (-> & Hv & Hs).
      split; [now left|]. split; assumption. }
    assert (Hlater : forall cs',
              (forall c, In c cs' -> In (c_rule c) rules /\ c_value c = value
                                     /\ is_Some (RULES !! c_rule c)) ->
              forall c, In c (test_calls RULES dict field value r ++ cs') ->
                In (c_rule c) (r :: rules) /\ c_value c = value
                /\ is_Some (RULES !! c_rule c)).
    { intros cs' Hcs' c Hc. apply in_app_or in Hc as [Hc|Hc]; [now apply Hhere|].
      destruct (Hcs' c Hc) as (H1 & H2 & H3). split; [now right|]. split; assumption. }
    cbn [scan]. erewrite bind_ok by apply test_run. cbv beta.
    destruct (test_outcome RULES dict field value r) as [res|p].
    + destruct (t_valid res).
      * erewrite bind_ok by reflexivity. cbv iota.
        destruct (IH (promises ++ [Resolved res]) errs
                     (add_calls (test_calls RULES dict field value r) st))
          as (x & cs & Hrun & Hcs).
        exists x, (test_calls RULES dict field value r ++ cs).
        rewrite Hrun, add_calls_app. split; [reflexivity|now apply Hlater].
      * erewrite bind_ok by apply shouldBail_run.
        destruct (bail_active field _).
        -- exists (promises, errs ++ t_errors res, true),
                  (test_calls RULES dict field value r).
           split; [reflexivity|exact Hhere].
        -- destruct (IH (promises ++ [Resolved res]) errs
                       (add_calls (test_calls RULES dict field value r) st))
             as (x & cs & Hrun & Hcs).
           exists x, (test_calls RULES dict field value r ++ cs).
           rewrite Hrun, add_calls_app. split; [reflexivity|now apply Hlater].
    + destruct (IH (promises ++ [p]) errs
                   (add_calls (test_calls RULES dict field value r) st))
        as (x & cs & Hrun & Hcs).
      exists x, (test_calls RULES dict field value r ++ cs).
      rewrite Hrun, add_calls_app. split; [reflexivity|now apply Hlater].
Qed.

Lemma validate_frame initial st :
  exists p cs,
    _validate RULES dict field value initial st = (Ok p, add_calls cs st)
    /\ forall c, In c cs ->
         In (c_rule c) (selected_rules RULES initial field)
         /\ c_value c = value /\ is_Some (RULES !! c_rule c).
Proof.
  unfold _validate. destruct (_shouldSkip field value).
  - eexists _, []. split; [|intros c []]. unfold ret. now rewrite add_calls_nil.
  - destruct (scan_frame (selected_rules RULES initial field) [] [] st)
      as ([[promises errs] isExitEarly] & cs & Hrun & Hcs).
    erewrite bind_ok by exact Hrun. cbv beta iota.
    destruct isExitEarly.
    + eexists _, cs. split; [reflexivity|exact Hcs].
    + eexists _, cs. split; [|exact Hcs].
      now rewrite (then_ret _ (fun results => collect_results results _)).
Qed.

Lemma scan_run_all : forall rules promises errs st,
  bail_active field st = false
  \/ (forall r, In r rules -> fails_now RULES dict field value r = false) ->
  scan RULES dict field value rules promises errs st
  = (Ok (promises ++ List.map (awaited RULES dict field value) rules, errs, false),
     add_calls (flat_map (test_calls RULES dict field value) rules) st).
Proof.
  induction rules as [|r rules IH]; intros promises errs st Hall.
  - simpl. unfold ret. now rewrite app_nil_r, add_calls_nil.
  - assert (Hall' : bail_active field
                      (add_calls (test_calls RULES dict field value r) st) = false
                    \/ (forall r', In r' rules -> fails_now RULES dict field value r' = false)).
    { destruct Hall as [H|H]; [now left|right]. intros r' Hr'. apply H. now right. }
    cbn [scan]. erewrite bind_ok by apply test_run. cbv beta.
    cbn [List.map flat_map].
    destruct (test_outcome RULES dict field value r) as [res|p] eqn:Hout.
    + assert (Ha : awaited RULES dict field value r = Resolved res)
        by (unfold awaited; now rewrite Hout).
      assert (Hcont : scan RULES dict field value rules (promises ++ [Resolved res]) errs
                        (add_calls (test_calls RULES dict field value r) st)
                      = (Ok (promises ++ awaited RULES dict field value r
                                         :: List.map (awaited RULES dict field value) rules,
                             errs, false),
                         add_calls (test_calls RULES dict field value r
                                    ++ flat_map (test_calls RULES dict field value) rules) st)).
      { rewrite IH by exact Hall'. rewrite add_calls_app, Ha, <- app_assoc. reflexivity. }
      destruct (t_valid res) eqn:Hv.
      * erewrite bind_ok by reflexivity. exact Hcont.
      * erewrite bind_ok by apply shouldBail_run.
        rewrite bail_active_add_calls.
        destruct (bail_active field st) eqn:Hb; [|exact Hcont].
        destruct Hall as [H|H]; [discriminate|].
        specialize (H r (or_introl eq_refl)). unfold fails_now in H.
        rewrite Hout, Hv in H. discriminate.
    + assert (Ha : awaited RULES dict field value r = p)
        by (unfold awaited; now rewrite Hout).
      rewrite IH by exact Hall'. rewrite add_calls_app, Ha, <- app_assoc. reflexivity.
Qed.

Lemma validate_run_all initial st :
  _shouldSkip field value = false ->
  bail_active field st = false
  \/ (forall r, In r (selected_rules RULES initial field) ->
        fails_now RULES dict field value r = false) ->
  _validate RULES dict field value initial st
  = (Ok (promise_map (aggregate field)
           (Promise_all (List.map (awaited RULES dict field value)
                                  (selected_rules RULES initial field)))),
     add_calls (flat_map (test_calls RULES dict field value)
                         (selected_rules RULES initial field)) st).
Proof.
  intros Hskip Hall. unfold _validate. rewrite Hskip.
  erewrite bind_ok by (apply scan_run_all; exact Hall).
  cbv beta iota. cbn [app].
  rewrite (then_ret _ (fun results => collect_results results _)).
  f_equal. f_equal.
  destruct (Promise_all _) as [results|e]; [|reflexivity].
  simpl. f_equal. apply collect_results_run.
Qed.

(** [_validate] in every case: what it calls, and how its promise settles. *)
Lemma validate_total initial st :
  exists p,
    _validate RULES dict field value initial st
    = (Ok p,
       add_calls (flat_map (test_calls RULES dict field value)
                    (rules_run RULES dict field value initial (bail_active field st))) st)
    /\ match verdict RULES dict field value initial (bail_active field st) with
       | Some r => p = Resolved r
       | None =>
           exists t e t0,
             p = Rejected t e
             /\ In (Rejected t0 e)
                   (List.map (awaited RULES dict field value)
                             (selected_rules RULES initial field))
       end.
Proof.
  unfold rules_run, verdict. destruct (_shouldSkip field value) eqn:Hskip.
  - eexists. split; [|reflexivity].
    unfold _validate. rewrite Hskip. unfold ret. cbn [flat_map].
    now rewrite add_calls_nil.
  - destruct (bail_active field st) eqn:Hbail.
    + rewrite (validate_run RULES dict field value initial st Hskip Hbail).
      eexists. split; [reflexivity|].
      destruct (List.find _ _); [reflexivity|].
      pose proof (aggregate_settles field
                    (List.map (awaited RULES dict field value)
                              (selected_rules RULES initial field))) as H.
      destruct (fulfilled _); exact H.
    + rewrite (validate_run_all initial st Hskip (or_introl Hbail)).
      eexists. split; [reflexivity|].
      pose proof (aggregate_settles field
                    (List.map (awaited RULES dict field value)
                              (selected_rules RULES initial field))) as H.
      destruct (fulfilled _); exact H.
Qed.

Lemma rules_run_selected initial bail rule :
  In rule (rules_run RULES dict field value initial bail) ->
  In rule (selected_rules RULES initial field).
Proof.
  unfold rules_run. destruct (_shouldSkip field value); [intros []|].
  destruct bail; [|trivial]. unfold tested. intros H.
  apply in_app_or in H as [H|H].
  - revert H. induction (selected_rules RULES initial field) as [|r rs IH]; [intros []|].
    cbn [before_failure]. destruct (fails_now RULES dict field value r); [intros []|].
    intros [<-|H]; [now left|right; now apply IH].
  - destruct (List.find _ _) as [a|] eqn:Hf; [|destruct H].
    destruct H as [<-|[]]. now apply find_some in Hf as [Hf _].
Qed.

End MoreScan.

(** X13.  [_validate] writes neither the fields, nor their flags, nor the
    error bag: all it does to the state is to call validate functions, and
    it calls them for the rules of the pass and no other, one call for each
    that is registered, in their order: none for a field that is skipped,
    the selected rules up to the first that fails synchronously when bail is
    active, and all the selected rules otherwise.  Each call is for a
    registered rule that the pass selects for the field, with the value that
    is validated. *)
Theorem validate_only_calls_rules (RULES : gmap string Rule) (dict : Dictionary)
  (field : Field) (value : JsValue) (initial : bool) (st : State) :
  let cs := flat_map (test_calls RULES dict field value)
              (rules_run RULES dict field value initial (bail_active field st)) in
  snd (_validate RULES dict field value initial st) = add_calls cs st
  /\ forall c, In c cs ->
       In (c_rule c) (selected_rules RULES initial field)
       /\ c_value c = value /\ is_Some (RULES !! c_rule c).
Proof.
  intros cs. split.
  - destruct (validate_total RULES dict field value initial st) as (p & Hrun & _).
    now rewrite Hrun.
  - intros c Hc. unfold cs in Hc. apply in_flat_map in Hc as (rule & Hrule & Hc).
    destruct (test_calls_facts RULES dict field value rule c Hc) as (-> & Hv & Hs).
    split; [|split; assumption].
    now apply (rules_run_selected RULES dict field value initial (bail_active field st)).
Qed.

(** X14.  With bail off (the field's [bails] is false, or it is not set and
    [fastExit] is false) a field that is not skipped has every selected rule
    tested, in declaration order, and all outcomes awaited.  When all of
    them are fulfilled the result is valid when all outcomes are, and it
    carries the errors of every invalid outcome, synchronous or not, in the
    order of the rules; when one of them is rejected the promise is
    rejected, with the error of one of the rejected outcomes.  A field whose
    [bails] is false is never skipped. *)
Theorem no_bail_runs_every_rule (RULES : gmap string Rule) (dict : Dictionary)
  (field : Field) (value : JsValue) (initial : bool) (st : State) :
  bail_active field st = false ->
  (f_bails field = Some false \/ _shouldSkip field value = false) ->
  exists p,
    _validate RULES dict field value initial st
    = (Ok p,
       add_calls (flat_map (test_calls RULES dict field value)
                           (selected_rules RULES initial field)) st)
    /\ match fulfilled (List.map (awaited RULES dict field value)
                                 (selected_rules RULES initial field)) with
       | Some results => p = Resolved (aggregate field results)
       | None =>
           exists t e t0,
             p = Rejected t e
             /\ In (Rejected t0 e)
                   (List.map (awaited RULES dict field value)
                             (selected_rules RULES initial field))
       end.
Proof.
  intros Hbail Hskip.
  assert (Hs : _shouldSkip field value = false).
  { destruct Hskip as [Hb|Hs]; [|exact Hs]. unfold _shouldSkip. now rewrite Hb. }
  rewrite (validate_run_all RULES dict field value initial st Hs (or_introl Hbail)).
  eexists. split; [reflexivity|]. apply aggregate_settles.
Qed.

Lemma no_bail_runs_every_rule_witness :
  let f := sample_field ["digits"; "remote"; "min"] (Some false) true in
  let st := sample_state [f] in
  let run := _validate sample_rules sample_dict f (VStr "x") false st in
  bail_active f st = false
  /\ (exists r, fst run = Ok (Resolved r)
                /\ v_valid r = false
                /\ List.map fe_rule (v_errors r) = [Some "digits"; Some "remote"; Some "min"])
  /\ List.map c_rule (calls (snd run)) = ["digits"; "remote"; "min"].
Proof.
  intros f st run.
  destruct (no_bail_runs_every_rule sample_rules sample_dict f (VStr "x") false st
              eq_refl (or_introl eq_refl))
    as (p & Hrun & Hcase).
  fold run in Hrun. split; [reflexivity|]. rewrite Hrun. cbn [fst snd]. split.
  - eexists. split; [f_equal; exact Hcase|]. split; reflexivity.
  - reflexivity.
Defined.

(** X15.  A field that is not required, whose [bails] is not false, and
    whose value is undefined, null or the empty string is valid without any
    rule being looked up or run: the state is unchanged, whatever rules the
    field names. *)
Theorem empty_optional_is_valid (RULES : gmap string Rule) (dict : Dictionary)
  (field : Field) (value : JsValue) (initial : bool) (st : State) :
  f_isRequired field = false ->
  f_bails field <> Some false ->
  value = VUndefined \/ value = VNull \/ value = VStr EmptyString ->
  _validate RULES dict field value initial st
  = (Ok (Resolved (mkValidationResult true [] (f_id field) (f_name field) (f_scope field))),
     st).
Proof.
  intros Hreq Hbails Hval. unfold _validate.
  assert (Hskip : _shouldSkip field value = true).
  { unfold _shouldSkip. rewrite Hreq.
    assert (He : isNullOrUndefined value || is_empty_string value = true)
      by (destruct Hval as [->|[->| ->]]; reflexivity).
    rewrite He. destruct (f_bails field) as [[|]|]; try congruence;
      destruct (f_isDisabled field); reflexivity. }
  now rewrite Hskip.
Qed.

Lemma empty_optional_is_valid_witness :
  let f := mkField "8" "nickname" None None [("unknown", [])] no_flags None None
                   false false false [] (VStr EmptyString) in
  let st := sample_state [f] in
  f_isRequired f = false
  /\ f_bails f <> Some false
  /\ _validate sample_rules sample_dict f (VStr EmptyString) false st
     = (Ok (Resolved (mkValidationResult true [] "8" "nickname" None)), st).
Proof.
  intros f st. split; [reflexivity|]. split; [discriminate|].
  apply (empty_optional_is_valid sample_rules sample_dict f (VStr EmptyString) false st);
    [reflexivity|discriminate|right; right; reflexivity].
Defined.

(** *** Silent validation *)

Lemma then_pure {S A B : Type} (p : Promise A) (k : A -> M S B) (f : A -> B) (s : S) :
  (forall a s', k a s' = (Ok (f a), s')) ->
  then_ p k s = (Ok (promise_map f p), s).
Proof. intros H. destruct p as [a|e]; simpl; [now rewrite H|reflexivity]. Qed.

Section SilentValidation.

Variable RULES : gmap string Rule.
Variable dict : Dictionary.
Variable global_name : option JsValue.

Lemma mapM_validate_frame (v : Field -> JsValue) : forall (l : list (nat * Field)) st,
  exists ps cs,
    mapM (fun '(_, field) => _validate RULES dict field (v field) false) l st
    = (Ok ps, add_calls cs st).
Proof.
  induction l as [|[i field] l IH]; intros st.
  - exists [], []. simpl. unfold ret. now rewrite add_calls_nil.
  - destruct (validate_frame RULES dict field (v field) false st) as (p & cs1 & Hp & _).
    destruct (IH (add_calls cs1 st)) as (ps & cs2 & Hps).
    exists (p :: ps), (cs1 ++ cs2). cbn [mapM].
    erewrite bind_ok by exact Hp. erewrite bind_ok by exact Hps.
    unfold ret. now rewrite add_calls_app.
Qed.

Lemma validateAll_silent values vmId st :
  exists r cs, validateAll RULES dict values true vmId st = (Ok r, add_calls cs st).
Proof.
  unfold validateAll. rewrite (bind_ok _ _ st (paused st) st) by reflexivity.
  destruct (paused st).
  - exists (Resolved true), []. unfold ret. now rewrite add_calls_nil.
  - rewrite (bind_ok _ _ st (fields st) st) by reflexivity. cbv beta.
    match goal with
    | |- context [mapM _ ?l] =>
        destruct (mapM_validate_frame
                    (fun field => match values with
                                  | ValueMap m => values_get m (f_name field)
                                  | _ => f_value field
                                  end) l st) as (ps & cs & Hps)
    end.
    erewrite bind_ok by exact Hps.
    eexists _, cs. apply (then_pure _ _ (forallb v_valid)). reflexivity.
Qed.

Lemma validateScopes_silent vmId st :
  exists r cs, validateScopes RULES dict true vmId st = (Ok r, add_calls cs st).
Proof.
  unfold validateScopes. rewrite (bind_ok _ _ st (paused st) st) by reflexivity.
  destruct (paused st).
  - exists (Resolved true), []. unfold ret. now rewrite add_calls_nil.
  - rewrite (bind_ok _ _ st (fields st) st) by reflexivity. cbv beta.
    match goal with
    | |- context [mapM _ ?l] =>
        destruct (mapM_validate_frame f_value l st) as (ps & cs & Hps)
    end.
    erewrite bind_ok by exact Hps.
    eexists _, cs. apply (then_pure _ _ (forallb v_valid)). reflexivity.
Qed.

(** X16.  A silent call writes nothing but the log of rule calls: with
    [silent] true, [validateAll], [validateScopes] and [validate] (for any
    selector that is not of the form [scope.*]) leave the fields, their
    flags and the error bag exactly as they were, whether the call resolves,
    rejects or throws. *)
Theorem silent_validation_writes_nothing (st : State) :
  (forall values vmId,
      exists r cs, validateAll RULES dict values true vmId st = (r, add_calls cs st))
  /\ (forall vmId,
        exists r cs, validateScopes RULES dict true vmId st = (r, add_calls cs st))
  /\ (forall descriptor value vmId,
        (forall d, descriptor = Some d -> scope_wildcard d = None) ->
        exists r cs,
          validate RULES dict global_name descriptor value true vmId st
          = (r, add_calls cs st)).
Proof.
  split; [|split].
  - intros values vmId. destruct (validateAll_silent values vmId st) as (r & cs & H).
    now exists (Ok r), cs.
  - intros vmId. destruct (validateScopes_silent vmId st) as (r & cs & H).
    now exists (Ok r), cs.
  - intros descriptor value vmId Hwild. unfold validate.
    rewrite (bind_ok _ _ st (paused st) st) by reflexivity.
    destruct (paused st) eqn:Hp.
    { exists (Ok (Resolved true)), []. unfold ret. now rewrite add_calls_nil. }
    destruct descriptor as [d|].
    2:{ destruct (validateScopes_silent vmId st) as (r & cs & H). now exists (Ok r), cs. }
    destruct (String.eqb d (String star EmptyString)).
    { destruct (validateAll_silent NoValues vmId st) as (r & cs & H). now exists (Ok r), cs. }
    rewrite (Hwild d eq_refl).
    rewrite (bind_ok _ _ st (fields st) st) by reflexivity. cbv beta.
    destruct (_resolveField d None None (fields st)) as [[i field]|].
    + erewrite bind_ok by reflexivity.
      destruct (validate_frame RULES dict field
                  (if match value with VUndefined => true | _ => false end
                   then f_value field else value) false st) as (p & cs & Hrun & _).
      cbv zeta. erewrite bind_ok by exact Hrun.
      exists (Ok (promise_map v_valid p)), cs.
      apply (then_pure _ _ v_valid). reflexivity.
    + destruct global_name as [n|].
      * unfold _handleFieldNotFound.
        rewrite (bind_ok _ _ st (strict st) st) by reflexivity.
        destruct (strict st); eexists _, []; unfold ret; now rewrite add_calls_nil.
      * eexists _, []. unfold throw. now rewrite add_calls_nil.
Qed.

(** *** The selector [scope.*] *)

Lemma append_length (a b : string) :
  String.length (a +:+ b) = String.length a + String.length b.
Proof. induction a as [|c a IH]; simpl; [reflexivity|]. now rewrite IH. Qed.

Lemma scope_wildcard_built (m : string) :
  all_chars is_dot_char m = true -> m <> EmptyString ->
  scope_wildcard (m +:+ String dot (String star EmptyString)) = Some m
  /\ m +:+ String dot (String star EmptyString) <> String star EmptyString.
Proof.
  intros Hall Hne. split.
  - induction m as [|c m IH]; [congruence|].
    simpl in Hall. apply andb_true_iff in Hall as [Hc Hm].
    change (String c m +:+ String dot (String star EmptyString))
      with (String c (m +:+ String dot (String star EmptyString))).
    cbn [scope_wildcard]. rewrite Hc.
    destruct m as [|c' m].
    + reflexivity.
    + assert (Hn : String.eqb (String c' m +:+ String dot (String star EmptyString))
                              (String dot (String star EmptyString)) = false).
      { apply String.eqb_neq. intros H. apply (f_equal String.length) in H.
        rewrite append_length in H. simpl in H. lia. }
      rewrite Hn, IH by (auto; discriminate). reflexivity.
  - intros H. apply (f_equal String.length) in H. rewrite append_length in H.
    simpl in H. lia.
Qed.

(** X17.  [validate] with a selector [scope.*] validates the fields of that
    scope through [validateAll(scope)] without its options: the [silent]
    flag and the [vmId] given to [validate] are dropped, so that the call
    writes errors and flags even when it was asked to be silent. *)
Theorem scope_selector_drops_options (m : string) (value : JsValue) (silent : bool)
  (vmId : option string) (st : State) :
  paused st = false ->
  all_chars is_dot_char m = true -> m <> EmptyString ->
  validate RULES dict global_name (Some (m +:+ String dot (String star EmptyString)))
           value silent vmId st
  = validateAll RULES dict (ScopeName m) false None st.
Proof.
  intros Hp Hall Hne. destruct (scope_wildcard_built m Hall Hne) as [Hw Hstar].
  unfold validate. rewrite (bind_ok _ _ st false st) by (unfold gets; now rewrite Hp).
  apply String.eqb_neq in Hstar. now rewrite Hstar, Hw.
Qed.

End SilentValidation.

Lemma silent_validation_writes_nothing_witness :
  let f := sample_field ["alpha"; "digits"] None false in
  let st := sample_state [f] in
  let run := validate sample_rules sample_dict None (Some "email") VUndefined true None st in
  scope_wildcard "email" = None
  /\ fst run = Ok (Resolved false)
  /\ exists cs, snd run = add_calls cs st.
Proof.
  intros f st run.
  destruct (silent_validation_writes_nothing sample_rules sample_dict None st)
    as (_ & _ & Hv).
  destruct (Hv (Some "email") VUndefined None) as (r & cs & Hrun).
  { intros d [= <-]. reflexivity. }
  split; [reflexivity|]. split; [reflexivity|].
  exists cs. unfold run. now rewrite Hrun.
Defined.

Lemma scope_selector_drops_options_witness :
  let f := mkField "7" "email" (Some "signup") None [("digits", [])] no_flags None None
                   true false false [] (VStr "x") in
  let st := sample_state [f] in
  let run := validate sample_rules sample_dict None (Some "signup.*") VUndefined true
                      (Some "other") st in
  paused st = false
  /\ run = validateAll sample_rules sample_dict (ScopeName "signup") false None st
  /\ fst run = Ok (Resolved false)
  /\ items (errors (snd run)) = [0]
  /\ List.map f_flags (fields (snd run))
     = [mkFlags (Some false) None (Some false) (Some true)].
Proof.
  intros f st run.
  assert (H := scope_selector_drops_options sample_rules sample_dict None "signup" VUndefined
                 true (Some "other") st eq_refl eq_refl ltac:(discriminate)).
  split; [reflexivity|]. split; [exact H|]. repeat split.
Defined.

(** *** A rule that is not registered *)

Lemma first_rejection_settled {A : Type} (e : Exn) (post : list (Promise A)) :
  first_rejection (Rejected 0 e :: post) = Some (0, e).
Proof. simpl. destruct (first_rejection post) as [[t' e']|]; reflexivity. Qed.

Lemma Promise_all_first_rejection {A : Type} (pre : list (Promise A)) (e : Exn)
  (post : list (Promise A)) :
  (forall p, In p pre -> exists a, p = Resolved a) ->
  Promise_all (pre ++ Rejected 0 e :: post) = Rejected 1 e.
Proof.
  intros Hpre. unfold Promise_all.
  assert (H : first_rejection (pre ++ Rejected 0 e :: post) = Some (0, e)).
  { induction pre as [|p pre IH]; [apply first_rejection_settled|].
    destruct (Hpre p (or_introl eq_refl)) as [a ->]. cbn [app first_rejection].
    apply IH. intros q Hq. apply Hpre. now right. }
  now rewrite H.
Qed.

(** X18.  When a rule of the field is not registered, the rules before it
    give fulfilled outcomes and no rule stops the scan, a non-silent
    [validate] of the field is rejected with the error [No such validator];
    the result handling never runs, so the error bag is unchanged and the
    field keeps the [pending] flag that [validate] set at the start. *)
Theorem unknown_rule_rejects (RULES : gmap string Rule) (dict : Dictionary)
  (global_name : option JsValue) (descriptor : string) (value : JsValue)
  (vmId : option string) (st : State) (i : nat) (field : Field)
  (pre : list string) (u : string) (post : list string) :
  paused st = false ->
  descriptor <> String star EmptyString ->
  scope_wildcard descriptor = None ->
  _resolveField descriptor None None (fields st) = Some (i, field) ->
  _shouldSkip field (value_or_own value field) = false ->
  selected_rules RULES false field = pre ++ u :: post ->
  RULES !! u = None ->
  (forall r, In r pre ->
     exists res, awaited RULES dict field (value_or_own value field) r = Resolved res) ->
  (bail_active field st = false
   \/ forall r, In r (pre ++ u :: post) ->
        fails_now RULES dict field (value_or_own value field) r = false) ->
  exists cs,
    validate RULES dict global_name (Some descriptor) value false vmId st
    = (Ok (Rejected 3 (createError ("No such validator '" +:+ u +:+ "' exists."))),
       add_calls cs (set_fields (alter mark_pending i (fields st)) st)).
Proof.
  intros Hp Hstar Hwild Hres Hskip Hsel Hu Hpre Hall.
  unfold validate.
  rewrite (bind_ok _ _ st false st) by (unfold gets; now rewrite Hp).
  apply String.eqb_neq in Hstar. rewrite Hstar, Hwild.
  rewrite (bind_ok _ _ st (fields st) st) by reflexivity. cbv beta. rewrite Hres.
  erewrite bind_ok by reflexivity. cbv zeta.
  assert (Hv : (if match value with VUndefined => true | _ => false end
                then f_value field else value) = value_or_own value field)
    by (destruct value; reflexivity).
  rewrite Hv.
  erewrite bind_ok.
  2:{ apply validate_run_all; [exact Hskip|]. rewrite Hsel. exact Hall. }
  rewrite Hsel, List.map_app. cbn [List.map].
  assert (Hau : awaited RULES dict field (value_or_own value field) u
                = Rejected 0 (createError ("No such validator '" +:+ u +:+ "' exists."))).
  { unfold awaited, test_outcome. now rewrite Hu. }
  rewrite Hau, Promise_all_first_rejection.
  - eexists. reflexivity.
  - intros p Hin. apply in_map_iff in Hin as (r & <- & Hr).
    destruct (Hpre r Hr) as [res Hres']. exists res. exact Hres'.
Qed.

Lemma unknown_rule_rejects_witness :
  let f := sample_field ["alpha"; "missing"; "digits"] (Some false) false in
  let st := sample_state [f] in
  let run := validate sample_rules sample_dict None (Some "email") VUndefined false None st in
  paused st = false
  /\ sample_rules !! "missing" = None
  /\ fst run = Ok (Rejected 3 (createError "No such validator 'missing' exists."))
  /\ errors (snd run) = errors st
  /\ List.map f_flags (fields (snd run)) = [mkFlags None None (Some true) None].
Proof.
  intros f st run.
  destruct (unknown_rule_rejects sample_rules sample_dict None "email" VUndefined None st
              0 f ["alpha"] "missing" ["digits"])
    as [cs Hrun]; try reflexivity; try discriminate.
  - intros r [<-|[]]. eexists. reflexivity.
  - now left.
  - fold run in Hrun. split; [reflexivity|]. split; [reflexivity|].
    rewrite Hrun. repeat split.
Defined.


(** *** Result handling *)

Lemma on_errors_ok {A : Type} (m : M ErrorBag A) (st : State) (a : A) (b' : ErrorBag) :
  m (errors st) = (Ok a, b') -> on_errors m st = (Ok a, set_errors b' st).
Proof. intros H. unfold on_errors. now rewrite H. Qed.

Lemma set_errors_same st : set_errors (errors st) st = st.
Proof. now destruct st. Qed.

Lemma filter_all_true {A : Type} (p : A -> bool) (l : list A) :
  (forall x, In x l -> p x = true) -> List.filter p l = l.
Proof.
  induction l as [|x l IH]; intros H; simpl; [reflexivity|].
  rewrite (H x (or_introl eq_refl)), IH; [reflexivity|].
  intros y Hy. apply H. now right.
Qed.

Lemma filter_filter' {A : Type} (p q : A -> bool) (l : list A) :
  List.filter q (List.filter p l) = List.filter (fun x => p x && q x) l.
Proof.
  induction l as [|x l IH]; simpl; [reflexivity|].
  destruct (p x); simpl; [|exact IH]. destruct (q x); now rewrite IH.
Qed.

Lemma remove_each_run (results : list ValidationResult) : forall st,
  bag_wf (errors st) ->
  (forall r, In r results -> plain_selector (v_field r) (v_scope r)) ->
  forEach (fun r => on_errors (remove (Some (v_field r)) (v_scope r))) results st
  = (Ok tt, set_errors (mkErrorBag (store (errors st))
                          (items_with (unselected results) (errors st))) st).
Proof.
  induction results as [|r results IH]; intros st Hwf Hplain.
  - simpl. unfold ret. f_equal.
    assert (Hall : items_with (unselected []) (errors st) = items (errors st)).
    { unfold items_with. apply filter_all_true. intros l Hl.
      destruct (lookup_lt_is_Some_2 _ _ (Hwf l Hl)) as [e He].
      unfold obj_sat. now rewrite He. }
    rewrite Hall. destruct st as [a b c d [s i] f]. reflexivity.
  - destruct (Hplain r (or_introl eq_refl)) as [Hhash Hparse].
    cbn [forEach].
    erewrite bind_ok.
    2:{ apply on_errors_ok.
        apply (remove_run (v_field r) (v_scope r)
                 (match v_scope r with
                  | Some sc => sc +:+ String dot EmptyString +:+ v_field r
                  | None => v_field r
                  end) (v_scope r) (v_field r) None); try assumption.
        unfold first_selector. destruct (v_scope r); reflexivity. }
    rewrite IH.
    + unfold set_errors. cbn [errors store strict paused fastExit fields calls].
      f_equal. f_equal. f_equal.
      unfold items_with, items_without. cbn [items]. rewrite filter_filter'.
      apply filter_ext_in'. intros l _. unfold obj_sat. cbn [store].
      destruct (store (errors st) !! l); reflexivity.
    + cbn [errors set_errors]. apply filter_wf. exact Hwf.
    + intros r' Hr'. apply Hplain. now right.
Qed.

Lemma alloc_all_run : forall es b,
  alloc_all es b
  = (Ok (seq (length (store b)) (length es)), mkErrorBag (store b ++ es) (items b)).
Proof.
  induction es as [|e es IH]; intros b.
  - simpl. unfold ret. rewrite app_nil_r. now destruct b.
  - cbn [alloc_all]. erewrite bind_ok by reflexivity.
    erewrite bind_ok by apply IH.
    unfold ret. cbn [store items length seq]. rewrite length_app. cbn [length].
    rewrite Nat.add_1_r, <- app_assoc. reflexivity.
Qed.

Lemma id_matchers_find (results : list ValidationResult) (f : Field) :
  matches_any (inr (List.map (fun r => mkMatcher (Some (v_id r)) None None None) results)) f
  = match List.find (fun r => String.eqb (v_id r) (f_id f)) results with
    | Some _ => true
    | None => false
    end.
Proof.
  induction results as [|r results IH]; [reflexivity|].
  simpl in *. unfold matches at 1. simpl. rewrite !andb_true_r.
  destruct (String.eqb (v_id r) (f_id f)); [reflexivity|exact IH].
Qed.

Lemma alter_at_end {A : Type} (g : A -> A) (pre : list A) (x : A) (post : list A) :
  alter g (length pre) (pre ++ x :: post) = pre ++ g x :: post.
Proof. induction pre as [|y pre IH]; simpl; [reflexivity|]. f_equal. exact IH. Qed.

Lemma flag_fields_run (results : list ValidationResult) : forall rest pre st,
  fields st = pre ++ rest ->
  forEach (fun '(i, field) =>
    match List.find (fun r => String.eqb (v_id r) (f_id field)) results with
    | Some r =>
        modify (fun st => set_fields
          (alter (setFlags (mkFlags (Some (v_valid r)) None (Some false) (Some true)))
                 i (fields st)) st)
    | None => throw (cannot_read "valid")
    end)
    (FieldBag_filter_from (length pre)
       (inr (List.map (fun r => mkMatcher (Some (v_id r)) None None None) results)) rest)
    st
  = (Ok tt, set_fields (pre ++ List.map (flagged results) rest) st).
Proof.
  induction rest as [|f rest IH]; intros pre st Hfs.
  - simpl. unfold ret. rewrite <- Hfs. now destruct st.
  - cbn [FieldBag_filter_from List.map]. rewrite id_matchers_find.
    unfold flagged at 1.
    destruct (List.find (fun r => String.eqb (v_id r) (f_id f)) results) as [r|] eqn:Hfind.
    + cbn [forEach]. rewrite Hfind.
      erewrite bind_ok by reflexivity.
      cbv beta. rewrite Hfs, alter_at_end.
      replace (S (length pre))
        with (length (pre ++ [setFlags (mkFlags (Some (v_valid r)) None (Some false) (Some true)) f]))
        by (rewrite length_app; simpl; lia).
      rewrite IH.
      * unfold set_fields. cbn [strict paused fastExit errors calls].
        now rewrite <- app_assoc.
      * cbn [fields set_fields]. now rewrite <- app_assoc.
    + replace (S (length pre)) with (length (pre ++ [f]))
        by (rewrite length_app; simpl; lia).
      rewrite IH by (rewrite Hfs; now rewrite <- app_assoc).
      now rewrite <- app_assoc.
Qed.

(** The effect of [_handleValidationResults]. *)
Lemma handle_results_run (results : list ValidationResult) (st : State) :
  bag_wf (errors st) ->
  (forall r, In r results -> plain_selector (v_field r) (v_scope r)) ->
  let old := errors st in
  let added := List.concat (List.map v_errors results) in
  exists st',
    _handleValidationResults results st = (Ok tt, st')
    /\ store (errors st') = store old ++ added
    /\ items (errors st')
       = items_with (fun e => negb (has_id (List.map v_id results) e)
                              && unselected results e) old
         ++ seq (length (store old)) (length added)
    /\ fields st' = List.map (flagged results) (fields st)
    /\ strict st' = strict st /\ paused st' = paused st
    /\ fastExit st' = fastExit st /\ calls st' = calls st.
Proof.
  intros Hwf Hplain old added.
  set (ids := List.map v_id results).
  set (b1 := mkErrorBag (store old) (items_without (has_id ids) old)).
  set (b2 := mkErrorBag (store old) (items_with (unselected results) b1)).
  set (b3 := mkErrorBag (store old ++ added) (items b2)).
  set (new := seq (length (store old)) (length added)).
  set (b4 := mkErrorBag (store old ++ added) (items b2 ++ new)).
  exists (set_fields (List.map (flagged results) (fields st)) (set_errors b4 st)).
  split.
  - unfold _handleValidationResults.
    erewrite bind_ok.
    2:{ apply on_errors_ok. apply (removeById_run (inr ids)). exact Hwf. }
    fold old b1.
    erewrite bind_ok.
    2:{ apply remove_each_run; [|exact Hplain]. cbn [errors set_errors].
        apply filter_wf. exact Hwf. }
    cbn [errors set_errors store]. fold b2.
    erewrite bind_ok.
    2:{ apply on_errors_ok. cbn [errors set_errors]. apply alloc_all_run. }
    cbn [store items]. fold added new b3.
    erewrite bind_ok.
    2:{ apply on_errors_ok. cbn [errors set_errors]. apply add_array_run.
        intros l Hl. unfold new in Hl. apply in_seq in Hl.
        unfold b3. cbn [store]. rewrite length_app. lia. }
    erewrite bind_ok by (unfold gets; reflexivity).
    cbv beta. cbn [fields set_errors]. unfold FieldBag_filter.
    change 0 with (length (@nil Field)).
    rewrite (flag_fields_run results (fields st) []) by reflexivity.
    reflexivity.
  - split; [reflexivity|]. split.
    + unfold b4, b2, b1, new. cbn [errors set_fields set_errors items]. f_equal.
      unfold items_with, items_without. cbn [items]. rewrite filter_filter'.
      apply filter_ext_in'. intros l _. unfold obj_sat. cbn [store].
      destruct (store old !! l); reflexivity.
    + repeat split.
Qed.

(** X19.  [_handleValidationResults], on a bag whose items refer to objects
    and for results whose field names and scopes make plain selectors,
    leaves in the bag the earlier errors that have neither the id of a
    result nor the field name and scope of one, in their order, followed by
    the errors of the results, in order, as new objects; it sets on every
    field whose id a result carries the flags pending false, validated true
    and valid as in the first such result, and touches nothing else. *)
Theorem results_replace_errors (results : list ValidationResult) (st : State) :
  bag_wf (errors st) ->
  (forall r, In r results -> plain_selector (v_field r) (v_scope r)) ->
  let old := errors st in
  let added := List.concat (List.map v_errors results) in
  exists st',
    _handleValidationResults results st = (Ok tt, st')
    /\ store (errors st') = store old ++ added
    /\ items (errors st')
       = items_with (fun e => negb (has_id (List.map v_id results) e)
                              && unselected results e) old
         ++ seq (length (store old)) (length added)
    /\ fields st' = List.map (flagged results) (fields st)
    /\ strict st' = strict st /\ paused st' = paused st
    /\ fastExit st' = fastExit st /\ calls st' = calls st.
Proof. exact (handle_results_run results st). Qed.

Lemma results_replace_errors_witness :
  let st := mkState true false true [sample_field ["digits"] None false]
                    sample_bag [] in
  let r := mkValidationResult false [sample_scoped] "7" "email" None in
  bag_wf (errors st)
  /\ plain_selector "email" None
  /\ exists st',
       _handleValidationResults [r] st = (Ok tt, st')
       /\ items (errors st') = [1; 2; 3]
       /\ store (errors st') = store sample_bag ++ [sample_scoped]
       /\ List.map f_flags (fields st')
          = [mkFlags (Some false) None (Some false) (Some true)].
Proof.
  intros st r.
  assert (Hplain : plain_selector "email" None) by (split; reflexivity).
  destruct (results_replace_errors [r] st sample_bag_wf)
    as (st' & Hrun & Hstore & Hitems & Hfields & _).
  { intros r' [<-|[]]. exact Hplain. }
  split; [exact sample_bag_wf|]. split; [exact Hplain|].
  exists st'. split; [exact Hrun|]. split; [rewrite Hitems; reflexivity|].
  split; [exact Hstore|]. rewrite Hfields. reflexivity.
Defined.

(** *** The flags getter *)








(** *** The registry of rules *)

Lemma guarded_validate (name : string) (validator : ValidatorArg) :
  is_Some (va_function validator) \/ is_Some (va_validate validator) ->
  _guardExtend name validator = Ok tt
  /\ exists f,
       match va_function validator with
       | Some g => Some g
       | None => va_validate validator
       end = Some f.
Proof.
  unfold _guardExtend.
  destruct (va_function validator) as [g|]; [intros _; split; eauto|].
  intros [[f Hf]|[f Hf]]; [discriminate|]. rewrite Hf. split; eauto.
Qed.

(** X21.  [extend] with a validator that is a function, or has a [validate]
    method, registers under the name an entry whose function is the
    validator itself when it is callable and its [validate] method
    otherwise, with the options given over the defaults [hasTarget] false
    and [immediate] true; an entry there was under the name is replaced, the
    other entries stay, and a message is handed to the dictionary exactly
    when the validator has [getMessage]. *)
Theorem extend_registers_rule (locale name : string) (validator : ValidatorArg)
  (opts : option ExtendOptions) (r : Registry) :
  is_Some (va_function validator) \/ is_Some (va_validate validator) ->
  exists r' f,
    extend locale name validator opts r = (Ok tt, r')
    /\ match va_function validator with
       | Some g => Some g
       | None => va_validate validator
       end = Some f
    /\ reg_rules r' !! name = Some (mkRule f (merge_options opts))
    /\ (forall k, k <> name -> reg_rules r' !! k = reg_rules r !! k)
    /\ isTargetRule (reg_rules r') name
       = match opts with
         | Some o => match eo_hasTarget o with Some b => b | None => false end
         | None => false
         end
    /\ immediate (merge_options opts)
       = match opts with
         | Some o => match eo_immediate o with Some b => b | None => true end
         | None => true
         end
    /\ reg_messages r'
       = reg_messages r ++ match va_getMessage validator with
                           | Some g => [(locale, name, g)]
                           | None => []
                           end.
Proof.
  intros Hv. destruct (guarded_validate name validator Hv) as [Hg [f Hf]].
  unfold extend, _merge. rewrite Hg, Hf.
  eexists _, f. split; [reflexivity|]. split; [reflexivity|].
  cbn [reg_rules reg_messages]. split; [apply lookup_insert_eq|].
  split; [intros k Hk; now apply lookup_insert_ne|].
  split.
  { unfold isTargetRule. rewrite lookup_insert_eq. cbn [options].
    destruct opts as [o|]; reflexivity. }
  split; [destruct opts as [o|]; reflexivity|].
  destruct (va_getMessage validator); [reflexivity|now rewrite app_nil_r].
Qed.

Lemma extend_registers_rule_witness :
  let v := mkValidatorArg None (Some (fun _ _ => Now (OBool true)))
                          (Some (fun _ _ _ => "bad")) in
  let r := mkRegistry sample_rules [] in
  (is_Some (va_function v) \/ is_Some (va_validate v))
  /\ exists r' f,
       extend "en" "digits" v (Some (mkExtendOptions (Some true) None None)) r = (Ok tt, r')
       /\ reg_rules r' !! "digits" = Some (mkRule f (mkRuleOptions true true false))
       /\ reg_rules r' !! "min" = Some sync_fail
       /\ isTargetRule (reg_rules r') "digits" = true
       /\ length (reg_messages r') = 1.
Proof.
  intros v r.
  assert (Hv : is_Some (va_function v) \/ is_Some (va_validate v)) by (right; eexists; reflexivity).
  split; [exact Hv|].
  destruct (extend_registers_rule "en" "digits" v
              (Some (mkExtendOptions (Some true) None None)) r Hv)
    as (r' & f & Hrun & _ & Hrule & Hother & Htarget & _ & Hmsg).
  exists r', f. split; [exact Hrun|]. split; [exact Hrule|].
  split; [rewrite Hother by discriminate; reflexivity|].
  split; [exact Htarget|]. rewrite Hmsg. reflexivity.
Defined.

(** X22.  [extend] with a validator that is neither a function nor has a
    [validate] method throws the extension error and leaves the registry,
    rules and messages, as it was; and after an [extend] that succeeds, the
    static [remove] of the name leaves no entry under it, whether or not
    there was one before the [extend], keeps the other entries, and keeps
    the message that [extend] handed to the dictionary. *)
Theorem extend_then_remove (locale name : string) (validator : ValidatorArg)
  (opts : option ExtendOptions) (r : Registry) :
  (va_function validator = None -> va_validate validator = None ->
   extend locale name validator opts r
   = (Throw (createError ("Extension Error: The validator '" +:+ name
               +:+ "' must be a function or have a 'validate' method.")), r))
  /\ (is_Some (va_function validator) \/ is_Some (va_validate validator) ->
      exists r1 r2,
        extend locale name validator opts r = (Ok tt, r1)
        /\ Validator_remove name r1 = (Ok tt, r2)
        /\ reg_rules r2 = delete name (reg_rules r)
        /\ isTargetRule (reg_rules r2) name = false
        /\ reg_messages r2 = reg_messages r1
        /\ Validator_remove name r2 = (Ok tt, r2)).
Proof.
  split.
  - intros Hf Hv. unfold extend, _guardExtend. now rewrite Hf, Hv.
  - intros Hv. destruct (guarded_validate name validator Hv) as [Hg [f Hf]].
    unfold extend, _merge. rewrite Hg, Hf.
    eexists _, _. split; [reflexivity|].
    unfold Validator_remove, modify. cbn [reg_rules reg_messages].
    split; [reflexivity|]. rewrite delete_insert_eq.
    split; [reflexivity|].
    cbn [reg_rules reg_messages].
    split; [unfold isTargetRule; now rewrite lookup_delete_eq|].
    split; [reflexivity|]. now rewrite delete_delete_eq.
Qed.

Lemma extend_then_remove_witness :
  let bad := mkValidatorArg None None None in
  let good := mkValidatorArg (Some (fun _ _ => Now (OBool true))) None None in
  let r := mkRegistry sample_rules [] in
  extend "en" "digits" bad None r
  = (Throw (createError
      "Extension Error: The validator 'digits' must be a function or have a 'validate' method."),
     r)
  /\ exists r1 r2,
       extend "en" "digits" good None r = (Ok tt, r1)
       /\ Validator_remove "digits" r1 = (Ok tt, r2)
       /\ reg_rules r2 !! "digits" = None
       /\ reg_rules r2 !! "min" = Some sync_fail.
Proof.
  intros bad good r.
  destruct (extend_then_remove "en" "digits" bad None r) as [Hbad _].
  destruct (extend_then_remove "en" "digits" good None r) as [_ Hgood].
  split; [exact (Hbad eq_refl eq_refl)|].
  destruct Hgood as (r1 & r2 & Hext & Hrem & Hrules & _).
  { left. eexists. reflexivity. }
  exists r1, r2. split; [exact Hext|]. split; [exact Hrem|].
  rewrite Hrules. split; reflexivity.
Defined.

(** *** Resolving a field *)

Lemma find_from_sound (m : Matcher + list Matcher) : forall fs i j f,
  FieldBag_find_from i m fs = Some (j, f) ->
  exists n, j = i + n /\ fs !! n = Some f /\ matches_any m f = true.
Proof.
  induction fs as [|g fs IH]; intros i j f H; [discriminate|].
  cbn [FieldBag_find_from] in H.
  destruct (matches_any m g) eqn:Hm.
  - injection H as <- <-. exists 0. split; [lia|]. split; [reflexivity|exact Hm].
  - destruct (IH _ _ _ H) as (n & -> & Hn & Hf).
    exists (S n). split; [lia|]. split; [exact Hn|exact Hf].
Qed.

Lemma find_sound (m : Matcher + list Matcher) (fs : list Field) (j : nat) (f : Field) :
  FieldBag_find m fs = Some (j, f) -> fs !! j = Some f /\ matches_any m f = true.
Proof.
  intros H. destruct (find_from_sound m fs 0 j f H) as (n & -> & Hn & Hf).
  split; [exact Hn|exact Hf].
Qed.

Lemma split_first_dot_sound : forall s a b,
  split_first_dot s = Some (a, b) ->
  s = a +:+ String dot b /\ all_chars (fun c => negb (Ascii.eqb c dot)) a = true.
Proof.
  induction s as [|c s IH]; intros a b H; [discriminate|].
  cbn [split_first_dot] in H.
  destruct (Ascii.eqb_spec c dot) as [->|Hne].
  - injection H as <- <-. split; reflexivity.
  - destruct (split_first_dot s) as [[a' b']|]; [|discriminate].
    injection H as <- <-. destruct (IH a' b' eq_refl) as [-> Hall].
    split; [reflexivity|]. cbn [all_chars]. rewrite Hall.
    apply Ascii.eqb_neq in Hne. now rewrite Hne.
Qed.

Lemma split_first_dot_built : forall a b,
  all_chars (fun c => negb (Ascii.eqb c dot)) a = true ->
  split_first_dot (a +:+ String dot b) = Some (a, b).
Proof.
  induction a as [|c a IH]; intros b H.
  - reflexivity.
  - cbn [all_chars] in H. apply andb_true_iff in H as [Hc Ha].
    change (String c a +:+ String dot b) with (String c (a +:+ String dot b)).
    cbn [split_first_dot]. apply negb_true_iff in Hc. rewrite Hc, (IH b Ha).
    reflexivity.
Qed.

Lemma matches_facts (m : Matcher) (f : Field) :
  matches m f = true ->
  (forall x, m_id m = Some x -> f_id f = x)
  /\ (forall x, m_name m = Some x -> f_name f = x)
  /\ (forall x, m_scope m = Some x -> f_scope f = x)
  /\ (forall x, m_vmId m = Some x -> f_vmId f = x).
Proof.
  unfold matches. rewrite !andb_true_iff. intros [[[Hi Hn] Hs] Hv].
  repeat split; intros x Hx; rewrite Hx in *; cbn [criterion] in *.
  - symmetry. now apply String.eqb_eq.
  - symmetry. now apply String.eqb_eq.
  - symmetry. now apply opt_eqb_eq.
  - symmetry. now apply opt_eqb_eq.
Qed.

(** X23.  A field that [_resolveField] gives is a field of the bag at the
    position given.  For a selector that starts with [#] it has the id that
    follows; otherwise it belongs to the given component when one is given,
    and with a scope argument it has that name and scope; without one it is
    either an unscoped field of that very name, or the name reads
    [scope.rest] with no dot in [scope] and the field has that scope and
    the name [rest]: a field whose scope contains a dot is never found from
    a dotted name. *)
Theorem resolved_field_matches (name : string) (scope uid : option string)
  (fs : list Field) (i : nat) (f : Field) :
  _resolveField name scope uid fs = Some (i, f) ->
  fs !! i = Some f
  /\ if startsWith_hash name then f_id f = slice1 name
     else
       match uid with Some u => f_vmId f = Some u | None => True end
       /\ match scope with
          | Some sc => f_name f = name /\ f_scope f = Some sc
          | None =>
              (f_scope f = None /\ f_name f = name)
              \/ exists sc rest,
                   name = sc +:+ String dot rest
                   /\ all_chars (fun c => negb (Ascii.eqb c dot)) sc = true
                   /\ f_scope f = Some sc /\ f_name f = rest
          end.
Proof.
  unfold _resolveField. destruct (startsWith_hash name).
  - intros H. apply find_sound in H as [Hi Hm]. split; [exact Hi|].
    apply matches_facts in Hm as (Hid & _). now apply Hid.
  - assert (Huid : forall m, m_vmId m = Some <$> uid -> matches m f = true ->
              match uid with Some u => f_vmId f = Some u | None => True end).
    { intros m Hm Hf. destruct uid as [u|]; [|exact I].
      apply matches_facts in Hf as (_ & _ & _ & Hv). now apply Hv. }
    destruct scope as [sc|].
    + intros H. apply find_sound in H as [Hi Hm]. split; [exact Hi|].
      split; [match type of Hm with
                | matches_any (inl ?m) _ = true => exact (Huid m eq_refl Hm)
                end|].
      apply matches_facts in Hm as (_ & Hn & Hs & _).
      split; [now apply Hn|now apply Hs].
    + destruct (split_first_dot name) as [[fieldScope fieldName]|] eqn:Hsplit.
      * destruct (FieldBag_find _ fs) as [[j g]|] eqn:Hscoped.
        -- intros H. injection H as -> ->.
           apply find_sound in Hscoped as [Hi Hm]. split; [exact Hi|].
           split; [match type of Hm with
                | matches_any (inl ?m) _ = true => exact (Huid m eq_refl Hm)
                end|]. right.
           apply split_first_dot_sound in Hsplit as [-> Hall].
           apply matches_facts in Hm as (_ & Hn & Hs & _).
           exists fieldScope, fieldName. repeat split; [exact Hall|now apply Hs|now apply Hn].
        -- intros H. apply find_sound in H as [Hi Hm]. split; [exact Hi|].
           split; [match type of Hm with
                | matches_any (inl ?m) _ = true => exact (Huid m eq_refl Hm)
                end|]. left.
           apply matches_facts in Hm as (_ & Hn & Hs & _).
           split; [now apply Hs|now apply Hn].
      * intros H. apply find_sound in H as [Hi Hm]. split; [exact Hi|].
        split; [match type of Hm with
                | matches_any (inl ?m) _ = true => exact (Huid m eq_refl Hm)
                end|]. left.
        apply matches_facts in Hm as (_ & Hn & Hs & _).
        split; [now apply Hs|now apply Hn].
Qed.

Lemma resolved_field_matches_witness :
  let scoped := mkField "8" "email" (Some "form") None [] no_flags None None
                        true false false [] (VStr "x") in
  let fs := [sample_field [] None false; scoped] in
  _resolveField "form.email" None None fs = Some (1, scoped)
  /\ fs !! 1 = Some scoped
  /\ ((f_scope scoped = None /\ f_name scoped = "form.email")
      \/ exists sc rest,
           "form.email" = sc +:+ String dot rest
           /\ all_chars (fun c => negb (Ascii.eqb c dot)) sc = true
           /\ f_scope scoped = Some sc /\ f_name scoped = rest).
Proof.
  intros scoped fs.
  assert (Hres : _resolveField "form.email" None None fs = Some (1, scoped)) by reflexivity.
  split; [exact Hres|].
  destruct (resolved_field_matches "form.email" None None fs 1 scoped Hres)
    as [Hi [_ Hcase]].
  split; [exact Hi|exact Hcase].
Defined.

(** X24.  Without a scope argument, a name [scope.rest] that does not start
    with [#] and has no dot in [scope] resolves to the first field of that
    scope named [rest] when there is one, even if an unscoped field with the
    whole dotted name comes before it in the bag, and to the first unscoped
    field with the whole name only when there is none. *)
Theorem resolve_prefers_scoped (sc rest : string) (uid : option string) (fs : list Field) :
  startsWith_hash (sc +:+ String dot rest) = false ->
  all_chars (fun c => negb (Ascii.eqb c dot)) sc = true ->
  _resolveField (sc +:+ String dot rest) None uid fs
  = match FieldBag_find (inl (mkMatcher None (Some rest) (Some (Some sc)) (Some <$> uid))) fs with
    | Some found => Some found
    | None =>
        FieldBag_find (inl (mkMatcher None (Some (sc +:+ String dot rest))
                                      (Some None) (Some <$> uid))) fs
    end.
Proof.
  intros Hhash Hall. unfold _resolveField.
  rewrite Hhash, (split_first_dot_built sc rest Hall). reflexivity.
Qed.

Lemma resolve_prefers_scoped_witness :
  let dotted := mkField "9" "form.email" None None [] no_flags None None
                        true false false [] (VStr "x") in
  let scoped := mkField "8" "email" (Some "form") None [] no_flags None None
                        true false false [] (VStr "x") in
  startsWith_hash "form.email" = false
  /\ all_chars (fun c => negb (Ascii.eqb c dot)) "form" = true
  /\ _resolveField "form.email" None None [dotted; scoped] = Some (1, scoped)
  /\ _resolveField "form.email" None None [dotted] = Some (0, dotted).
Proof.
  intros dotted scoped.
  split; [reflexivity|]. split; [reflexivity|]. split.
  - exact (resolve_prefers_scoped "form" "email" None [dotted; scoped] eq_refl eq_refl).
  - exact (resolve_prefers_scoped "form" "email" None [dotted] eq_refl eq_refl).
Defined.

(** *** Validation of a field that writes its result *)

Lemma verdict_ident (RULES : gmap string Rule) (dict : Dictionary) (field : Field)
  (value : JsValue) (initial bail : bool) (r : ValidationResult) :
  verdict RULES dict field value initial bail = Some r ->
  v_id r = f_id field /\ v_field r = f_name field /\ v_scope r = f_scope field.
Proof.
  unfold verdict. destruct (_shouldSkip field value).
  - intros [= <-]. repeat split.
  - destruct (if bail then _ else _).
    + intros [= <-]. repeat split.
    + destruct (fulfilled _); [|discriminate]. intros [= <-]. repeat split.
Qed.

Lemma has_id_one (id : string) (e : FieldError) : has_id [id] e = id_is id e.
Proof.
  unfold has_id, id_is. destruct (fe_id e) as [i|]; [|reflexivity].
  simpl. now rewrite orb_false_r.
Qed.

(** X25.  A [validate] that is not silent, on a validator that is not
    paused, of a descriptor that is neither [*] nor of the form [scope.*]
    and resolves to a field whose name and scope make a plain selector, on
    a bag whose items refer to objects, marks the field pending and runs
    the pass of [_validate] on the value given, or on the value of the field
    when none is given: the calls are those of that pass.  When an awaited
    outcome is rejected the promise is rejected with the error of a
    rejected outcome and nothing more is written.  Otherwise the promise
    resolves with the validity of the result of the pass, and the error bag
    then holds the earlier errors that have neither the id of the field nor
    its name and scope, in their order, followed by the errors of that
    result as new objects; every field with that id has [pending] false,
    [validated] true and [valid] as the result says. *)
Theorem validate_replaces_field_errors (RULES : gmap string Rule) (dict : Dictionary)
  (global_name : option JsValue) (descriptor : string) (value : JsValue)
  (vmId : option string) (st : State) (i : nat) (field : Field) :
  paused st = false ->
  descriptor <> String star EmptyString ->
  scope_wildcard descriptor = None ->
  _resolveField descriptor None None (fields st) = Some (i, field) ->
  bag_wf (errors st) ->
  plain_selector (f_name field) (f_scope field) ->
  let own := value_or_own value field in
  let bail := bail_active field st in
  exists p st',
    validate RULES dict global_name (Some descriptor) value false vmId st = (Ok p, st')
    /\ calls st'
       = calls st ++ flat_map (test_calls RULES dict field own)
                              (rules_run RULES dict field own false bail)
    /\ strict st' = strict st /\ paused st' = paused st /\ fastExit st' = fastExit st
    /\ match verdict RULES dict field own false bail with
       | None =>
           (exists t e t0,
              p = Rejected t e
              /\ In (Rejected t0 e)
                    (List.map (awaited RULES dict field own) (selected_rules RULES false field)))
           /\ errors st' = errors st
           /\ fields st' = alter mark_pending i (fields st)
       | Some r =>
           p = Resolved (v_valid r)
           /\ store (errors st') = store (errors st) ++ v_errors r
           /\ items (errors st')
              = items_with (fun e => negb (id_is (f_id field) e)
                                     && negb (primary_pred (f_scope field) (f_name field) None e))
                           (errors st)
                ++ seq (length (store (errors st))) (length (v_errors r))
           /\ fields st'
              = List.map (fun f => if String.eqb (f_id field) (f_id f)
                                   then setFlags (mkFlags (Some (v_valid r)) None
                                                          (Some false) (Some true)) f
                                   else f)
                         (alter mark_pending i (fields st))
       end.
Proof.
  intros Hp Hstar Hwild Hres Hwf Hplain own bail.
  unfold validate.
  rewrite (bind_ok _ _ st false st) by (unfold gets; now rewrite Hp).
  apply String.eqb_neq in Hstar. rewrite Hstar, Hwild.
  rewrite (bind_ok _ _ st (fields st) st) by reflexivity. cbv beta. rewrite Hres.
  erewrite bind_ok by reflexivity. cbv zeta.
  assert (Hv : (if match value with VUndefined => true | _ => false end
                then f_value field else value) = own)
    by (unfold own; destruct value; reflexivity).
  rewrite Hv.
  set (st1 := set_fields _ st).
  destruct (validate_total RULES dict field own false st1) as (p & Hrun & Hcase).
  change (bail_active field st1) with bail in Hrun, Hcase.
  erewrite bind_ok by exact Hrun.
  set (cs := flat_map (test_calls RULES dict field own)
               (rules_run RULES dict field own false bail)) in *.
  destruct (verdict RULES dict field own false bail) as [r|] eqn:Hverdict.
  - subst p.
    destruct (verdict_ident _ _ _ _ _ _ _ Hverdict) as (Hid & Hfield & Hscope).
    destruct (handle_results_run [r] (add_calls cs st1))
      as (st' & Hhandle & Hstore & Hitems & Hfields & Hstrict & Hpaused & Hfast & Hcalls).
    { exact Hwf. }
    { intros r' [<-|[]]. rewrite Hfield, Hscope. exact Hplain. }
    exists (Resolved (v_valid r)), st'. split.
    + unfold then_. erewrite bind_ok by exact Hhandle. reflexivity.
    + cbn [List.map List.concat] in Hstore, Hitems. rewrite app_nil_r in Hstore, Hitems.
      split; [rewrite Hcalls; reflexivity|].
      split; [rewrite Hstrict; reflexivity|].
      split; [rewrite Hpaused; reflexivity|].
      split; [rewrite Hfast; reflexivity|].
      split; [reflexivity|]. split; [exact Hstore|]. split.
      * rewrite Hitems. f_equal. unfold items_with. apply filter_ext_in'.
        intros l _. unfold obj_sat. cbn [errors add_calls st1 set_fields].
        destruct (store (errors st) !! l) as [x|]; [|reflexivity].
        rewrite has_id_one, Hid. unfold unselected. cbn [forallb].
        now rewrite Hfield, Hscope, andb_true_r.
      * rewrite Hfields. cbn [fields add_calls st1 set_fields].
        apply List.map_ext. intros f. unfold flagged. cbn [List.find].
        rewrite Hid. destruct (String.eqb (f_id field) (f_id f)); reflexivity.
  - destruct Hcase as (t & e & t0 & -> & Hin).
    exists (Rejected (S t) e), (add_calls cs st1). split; [reflexivity|].
    repeat split. exists (S t), e, t0. split; [reflexivity|exact Hin].
Qed.

Lemma validate_replaces_field_errors_witness :
  let f := sample_field ["digits"] None false in
  let st := mkState true false true [f] sample_bag [] in
  let run := validate sample_rules sample_dict None (Some "email") VUndefined false None st in
  let err := _createFieldError sample_dict f (rule_arg sample_rules f "digits") (Some []) None in
  paused st = false
  /\ bag_wf (errors st)
  /\ plain_selector "email" None
  /\ fst run = Ok (Resolved false)
  /\ store (errors (snd run)) = store sample_bag ++ [err]
  /\ items (errors (snd run)) = [1; 2; 3]
  /\ List.map c_rule (calls (snd run)) = ["digits"]
  /\ List.map f_flags (fields (snd run))
     = [mkFlags (Some false) None (Some false) (Some true)].
Proof.
  intros f st run err.
  assert (Hplain : plain_selector "email" None) by (split; reflexivity).
  destruct (validate_replaces_field_errors sample_rules sample_dict None "email" VUndefined
              None st 0 f)
    as (p & st' & Hrun & Hcalls & _ & _ & _ & Hcase);
    [reflexivity|discriminate|reflexivity|reflexivity|exact sample_bag_wf|exact Hplain|].
  fold run in Hrun.
  assert (Hverdict : verdict sample_rules sample_dict f (value_or_own VUndefined f) false
                       (bail_active f st)
                     = Some (mkValidationResult false [err] "7" "email" None))
    by reflexivity.
  rewrite Hverdict in Hcase. destruct Hcase as (-> & Hstore & Hitems & Hfields).
  split; [reflexivity|]. split; [exact sample_bag_wf|]. split; [exact Hplain|].
  rewrite Hrun. cbn [fst snd].
  split; [reflexivity|]. split; [exact Hstore|]. split; [rewrite Hitems; reflexivity|].
  split; [rewrite Hcalls; reflexivity|]. rewrite Hfields. reflexivity.
Defined.

(** *** Attaching and detaching a field *)

(** X26.  [attach] of a field that is not immediate puts the field at the
    end of the bag and runs on the spot, whether or not the validator is
    paused, the initial pass of [_validate] on the initial value when that
    is truthy and on the value of the field otherwise: the calls are those
    of that pass, each for a registered rule that is immediate.  The error
    bag is not touched, and the only flags written are [valid] and
    [invalid] of the new field, set from the validity of the result when
    the promise of the pass is fulfilled; they are left as they are when it
    is rejected. *)
Theorem attach_validates_silently (RULES : gmap string Rule) (dict : Dictionary)
  (global_name : option JsValue) (field : Field) (initialValue : JsValue) (st : State) :
  let value := if truthy initialValue then initialValue else f_value field in
  let bail := bail_active field st in
  let cs := flat_map (test_calls RULES dict field value)
              (rules_run RULES dict field value true bail) in
  snd (attach RULES dict global_name field false initialValue st)
  = add_calls cs
      (set_fields (fields st ++ [match verdict RULES dict field value true bail with
                                 | Some r => set_validity (v_valid r) field
                                 | None => field
                                 end]) st)
  /\ forall c, In c cs ->
       c_value c = value
       /\ exists entry, RULES !! c_rule c = Some entry /\ immediate (options entry) = true.
Proof.
  intros value bail cs. split.
  - unfold attach.
    rewrite (bind_ok _ _ st (length (fields st)) st) by reflexivity.
    erewrite bind_ok by reflexivity. cbv beta.
    set (st1 := set_fields (fields st ++ [field]) st).
    fold value.
    destruct (validate_total RULES dict field value true st1) as (p & Hrun & Hcase).
    change (bail_active field st1) with bail in Hrun, Hcase. fold cs in Hrun.
    erewrite bind_ok by exact Hrun.
    destruct (verdict RULES dict field value true bail) as [r|].
    + subst p. unfold then_, modify, bind, ret.
      cbn [fields add_calls st1 set_fields snd].
      rewrite (alter_at_end _ (fields st) field []). reflexivity.
    + destruct Hcase as (t & e & t0 & -> & _). reflexivity.
  - intros c Hc. unfold cs in Hc. apply in_flat_map in Hc as (rule & Hrule & Hc).
    destruct (test_calls_facts RULES dict field value rule c Hc) as (-> & Hv & [entry He]).
    split; [exact Hv|]. exists entry. split; [exact He|].
    apply (rules_run_selected RULES dict field value true bail) in Hrule.
    unfold selected_rules in Hrule. apply filter_In in Hrule as [_ Hon].
    unfold runs_on in Hon. now rewrite He in Hon.
Qed.

Lemma attach_validates_silently_witness :
  let f := sample_field ["digits"; "missing"] (Some false) false in
  let st := mkState true true true [] sample_bag [] in
  let st' := snd (attach sample_rules sample_dict None f false VUndefined st) in
  paused st = true
  /\ List.map c_rule (calls st') = ["digits"]
  /\ errors st' = sample_bag
  /\ List.map f_flags (fields st') = [no_flags]
  /\ List.map f_flags
       (fields (snd (attach sample_rules sample_dict None
                       (sample_field ["digits"; "alpha"] (Some false) false)
                       false VUndefined st)))
     = [mkFlags (Some false) (Some true) None None].
Proof.
  intros f st st'.
  destruct (attach_validates_silently sample_rules sample_dict None f VUndefined st)
    as [Hone _].
  destruct (attach_validates_silently sample_rules sample_dict None
              (sample_field ["digits"; "alpha"] (Some false) false) VUndefined st)
    as [Htwo _].
  split; [reflexivity|]. unfold st'. rewrite Hone, Htwo. repeat split.
Defined.

(** X27.  [detach] of a selector that resolves to a field, on a bag whose
    items refer to objects and for a field whose name and scope make a
    plain selector, takes that field out of the bag and removes from the
    error bag the errors that have the name and the scope of the field,
    whatever their id: errors of another field of the same name and scope
    go with them, and errors under the id of the field but another name
    stay.  When the selector resolves to no field nothing changes. *)
Theorem detach_removes_by_name (name : string) (scope uid : option string) (st : State) :
  bag_wf (errors st) ->
  (forall i field, _resolveField name scope uid (fields st) = Some (i, field) ->
     plain_selector (f_name field) (f_scope field)) ->
  detach name scope uid st
  = (Ok tt,
     match _resolveField name scope uid (fields st) with
     | None => st
     | Some (i, field) =>
         set_fields (delete i (fields st))
           (set_errors
              (mkErrorBag (store (errors st))
                 (items_without (primary_pred (f_scope field) (f_name field) None) (errors st)))
              st)
     end).
Proof.
  intros Hwf Hplain. unfold detach.
  rewrite (bind_ok _ _ st (fields st) st) by reflexivity. cbv beta.
  destruct (_resolveField name scope uid (fields st)) as [[i field]|]; [|reflexivity].
  destruct (Hplain i field eq_refl) as [Hhash Hparse].
  erewrite bind_ok.
  2:{ apply on_errors_ok.
      apply (remove_run (f_name field) (f_scope field)
               (match f_scope field with
                | Some sc => sc +:+ String dot EmptyString +:+ f_name field
                | None => f_name field
                end) (f_scope field) (f_name field) None); try assumption.
      unfold first_selector. destruct (f_scope field); reflexivity. }
  reflexivity.
Qed.

Lemma detach_removes_by_name_witness :
  let other := mkFieldError (Some "1") None "email" "other" (Some "min") None None in
  let own := mkFieldError (Some "7") None "login" "own" (Some "min") None None in
  let st := mkState true false true [sample_field [] None false]
                    (mkErrorBag [other; own] [0; 1]) [] in
  bag_wf (errors st)
  /\ detach "email" None None st
     = (Ok tt, mkState true false true [] (mkErrorBag [other; own] [1]) []).
Proof.
  intros other own st.
  assert (Hwf : bag_wf (errors st)).
  { intros l Hl. simpl in Hl. destruct Hl as [<-|[<-|[]]]; simpl; lia. }
  split; [exact Hwf|].
  refine (detach_removes_by_name "email" None None st Hwf _).
  intros i field Hres. injection Hres as <- <-. split; reflexivity.
Defined.

(** *** The rule of the first error *)

Lemma find_strengthen {A : Type} (p q : A -> bool) (l : list A) (x : A) :
  List.find p l = Some x -> q x = true -> List.find (fun y => p y && q y) l = Some x.
Proof.
  induction l as [|y l IH]; simpl; [discriminate|].
  destruct (p y) eqn:Hp; simpl.
  - intros [= ->] Hq. now rewrite Hq.
  - intros H Hq. now apply IH.
Qed.

Lemma or_undefined_some (s r : string) : or_undefined s = Some r -> s = r.
Proof. destruct s; simpl; congruence. Qed.

(** X28.  [firstRule(field, scope)], for a field name that is not empty and
    a selector that parses, gives the rule of the earliest item with the
    parsed scope, name and rule, or undefined when there is none or its rule
    is empty or missing; and [firstByRule] asked for the rule it gives
    reads the message of that same item. *)
Theorem first_rule_names_first_error (field : string) (scope : option string)
  (sel : string) (sc : option string) (nm : string) (rl : option string) (b : ErrorBag) :
  field <> EmptyString ->
  first_selector (Some field) scope = Some sel ->
  bag_wf b ->
  startsWith_hash sel = false ->
  parsed_selector sel = Some (sc, nm, rl) ->
  firstRule (Some field) scope b
  = (Ok (rule_at b (earliest (primary_pred sc nm rl) b)), b)
  /\ forall r, rule_at b (earliest (primary_pred sc nm rl) b) = Some r ->
       firstByRule (Some field) r scope b
       = (Ok (truthy_msg_at b (earliest (primary_pred sc nm rl) b)), b).
Proof.
  intros Hne Hsel Hwf Hhash Hparse. split.
  - unfold firstRule.
    erewrite bind_ok by (apply (collect_run field scope false sel sc nm rl); assumption).
    cbv beta iota. unfold earliest. rewrite find_filter_head. unfold items_with.
    destruct (List.filter (obj_sat b (primary_pred sc nm rl)) (items b)) as [|l ls] eqn:Hf;
      [reflexivity|].
    assert (Hl : In l (items b)).
    { assert (Hin : In l (List.filter (obj_sat b (primary_pred sc nm rl)) (items b)))
        by (rewrite Hf; now left).
      now apply filter_In in Hin as [Hin _]. }
    destruct (lookup_lt_is_Some_2 _ _ (Hwf l Hl)) as [e He].
    cbn [List.map entry_at].
    erewrite bind_ok.
    2:{ unfold entry_obj. erewrite bind_ok by (apply deref_ok; exact He). reflexivity. }
    unfold ret, rule_at. now rewrite He.
  - intros r Hr. unfold firstByRule.
    rewrite (first_filtered_run (rule_is r) (fun e => opt_eqb (fe_rule e) (Some r))
               field scope sel sc nm rl b) by (assumption || reflexivity).
    f_equal. f_equal. f_equal. unfold earliest in *.
    destruct (List.find (obj_sat b (primary_pred sc nm rl)) (items b)) as [l|] eqn:Hfind;
      [|discriminate].
    unfold rule_at in Hr. destruct (store b !! l) as [e|] eqn:He; [|discriminate].
    destruct (fe_rule e) as [r'|] eqn:Hrule; [|discriminate].
    apply or_undefined_some in Hr as ->.
    rewrite (find_ext _ (fun l => obj_sat b (primary_pred sc nm rl) l
                                  && obj_sat b (fun e => opt_eqb (fe_rule e) (Some r)) l)).
    + apply find_strengthen; [exact Hfind|]. unfold obj_sat. rewrite He, Hrule.
      now apply opt_eqb_eq.
    + intros l'. unfold obj_sat. destruct (store b !! l'); [reflexivity|reflexivity].
Qed.

Lemma first_rule_names_first_error_witness :
  "b" <> EmptyString
  /\ bag_wf sample_bag
  /\ firstRule (Some "b") (Some "a") sample_bag = (Ok (Some "min"), sample_bag)
  /\ firstByRule (Some "b") "min" (Some "a") sample_bag
     = (Ok (Some "The b field is too short."), sample_bag).
Proof.
  destruct (first_rule_names_first_error "b" (Some "a") "a.b" (Some "a") "b" None sample_bag
              ltac:(discriminate) eq_refl sample_bag_wf eq_refl eq_refl)
    as (Hrule & Hby).
  split; [discriminate|]. split; [exact sample_bag_wf|]. split; [exact Hrule|].
  exact (Hby "min" eq_refl).
Defined.

(** *** Updating the scope of a field *)

Lemma find_by_id (id : string) : forall fs i,
  match FieldBag_find_from i (inl (mkMatcher (Some id) None None None)) fs with
  | Some _ => true
  | None => false
  end = existsb (fun f => String.eqb (f_id f) id) fs.
Proof.
  induction fs as [|f fs IH]; intros i; [reflexivity|].
  cbn [FieldBag_find_from existsb matches_any]. unfold matches at 1.
  cbn [criterion m_id m_name m_scope m_vmId]. rewrite !andb_true_r.
  rewrite (String.eqb_sym id (f_id f)).
  destruct (String.eqb (f_id f) id); [reflexivity|apply IH].
Qed.

(** X29.  The method [update] of the validator moves the error of the id to
    its new scope exactly when a field with that id is attached: then it does
    what [update] of the error bag does, and otherwise it leaves the state
    as it is, even if the bag holds an error with the id. *)
Theorem update_needs_attached_field (id : string) (scope : option string) (st : State) :
  Validator_update id scope st
  = if existsb (fun f => String.eqb (f_id f) id) (fields st)
    then on_errors (update id scope) st
    else (Ok tt, st).
Proof.
  unfold Validator_update.
  rewrite (bind_ok _ _ st (fields st) st) by reflexivity. cbv beta.
  unfold _resolveField.
  change (startsWith_hash (String hash id)) with true. cbv iota.
  change (slice1 (String hash id)) with id.
  rewrite <- (find_by_id id (fields st) 0). unfold FieldBag_find.
  destruct (FieldBag_find_from 0 _ (fields st)); reflexivity.
Qed.
